(** * bookMarks: the bookmark ingestion, query and codec pipeline

    A shallow embedding of [js/utils.js] (StringUtils.extractDomain,
    ArrayUtils, Storage, TimeUtils.relative, Throttle.throttle), of
    [js/api.js] (class BookmarkAPI and the tag and title rules of class
    AIOrganizeAPI) and of the state and filters of the application (class
    BookmarkManager), followed by the properties of the specification that
    concern them and by further properties of the code.

    Conventions of the embedding.
    - A JavaScript string is a Rocq [string] holding its UTF-8 bytes.
      Equality, emptiness (truthiness) and substring containment of
      well-formed text agree with the UTF-16 view of the engine. Where a
      function counts or cuts by position ([optimizeTitle]) the string is
      the list of its UTF-16 code units instead.
    - A JavaScript number is an integer [Z]; no fractional number occurs in
      the functions embedded here.
    - A function that may throw returns a [result]: [Ok v] or [Throw e].
    - What the engine provides and the repository only calls (the URL
      constructor, String.prototype.toLowerCase, the clock, Math.random) is a
      field of the class [Platform]; everything proved is proved for every
      platform, and [model_platform] is one instance to compute with. *)

From Stdlib Require Import ZArith Lia Ascii String DecimalString Sorted.
From stdpp Require Import base option list strings gmap.

Set Default Proof Using "Type".

(** ** Exceptions and results *)

Inductive Exn : Type :=
  | TypeError (message : string)
  | SyntaxError (message : string)
  | RangeError (message : string)
  | Error (message : string).

Definition message (e : Exn) : string :=
  match e with
  | TypeError m | SyntaxError m | RangeError m | Error m => m
  end.

Inductive result (A : Type) : Type :=
  | Ok (a : A)
  | Throw (e : Exn).
Arguments Ok {A} a.
Arguments Throw {A} e.

Definition bind {A B} (r : result A) (k : A -> result B) : result B :=
  match r with
  | Ok a => k a
  | Throw e => Throw e
  end.

Declare Scope js_scope.
Delimit Scope js_scope with js.
Notation "'let*' x ':=' r 'in' k" := (bind r (fun x => k))
  (at level 10, x pattern, r at level 100, k at level 200) : js_scope.
Local Open Scope js_scope.

Definition returns {A} (r : result A) : Prop := exists a, r = Ok a.
Definition throws {A} (r : result A) : Prop := exists e, r = Throw e.

(** ** Strings *)

Definition bytes (l : list nat) : string :=
  string_of_list_ascii (List.map ascii_of_nat l).

(** [s.includes(sub)]: [sub] occurs in [s] as a contiguous run. *)
Fixpoint includes (s sub : string) : bool :=
  String.prefix sub s ||
  match s with
  | EmptyString => false
  | String _ s' => includes s' sub
  end.

(** The WhiteSpace and LineTerminator code points of ECMAScript, as UTF-8. *)
Definition white_space : list string :=
  [ bytes [9]; bytes [10]; bytes [11]; bytes [12]; bytes [13]; bytes [32];
    bytes [194; 160]; bytes [225; 154; 128];
    bytes [226; 128; 128]; bytes [226; 128; 129]; bytes [226; 128; 130];
    bytes [226; 128; 131]; bytes [226; 128; 132]; bytes [226; 128; 133];
    bytes [226; 128; 134]; bytes [226; 128; 135]; bytes [226; 128; 136];
    bytes [226; 128; 137]; bytes [226; 128; 138];
    bytes [226; 128; 168]; bytes [226; 128; 169]; bytes [226; 128; 175];
    bytes [226; 129; 159]; bytes [227; 128; 128]; bytes [239; 187; 191] ].

Definition drop_string (n : nat) (s : string) : string :=
  String.substring n (String.length s - n) s.

Definition rev_string (s : string) : string :=
  string_of_list_ascii (List.rev (list_ascii_of_string s)).

(** Length of the white-space token that [s] starts with, if any. *)
Definition leading_space (tokens : list string) (s : string) : option nat :=
  String.length <$> List.find (fun t => String.prefix t s) tokens.

Fixpoint strip (tokens : list string) (fuel : nat) (s : string) : string :=
  match fuel with
  | O => s
  | S fuel' =>
      match leading_space tokens s with
      | Some n => strip tokens fuel' (drop_string n s)
      | None => s
      end
  end.

Definition trimStart (s : string) : string :=
  strip white_space (String.length s) s.

Definition trimEnd (s : string) : string :=
  rev_string (strip (List.map rev_string white_space) (String.length s)
                (rev_string s)).

(** [s.trim()] *)
Definition trim (s : string) : string := trimEnd (trimStart s).

(** [s.replace(/`/g, '')] *)
Fixpoint remove_backticks (s : string) : string :=
  match s with
  | EmptyString => EmptyString
  | String c s' =>
      if Ascii.eqb c (ascii_of_nat 96) then remove_backticks s'
      else String c (remove_backticks s')
  end.

Definition is_alpha (c : ascii) : bool :=
  let n := nat_of_ascii c in
  ((65 <=? n) && (n <=? 90) || (97 <=? n) && (n <=? 122))%nat.

Definition is_digit (c : ascii) : bool :=
  let n := nat_of_ascii c in ((48 <=? n) && (n <=? 57))%nat.

Definition ascii_lower (c : ascii) : ascii :=
  let n := nat_of_ascii c in
  if ((65 <=? n) && (n <=? 90))%nat then ascii_of_nat (n + 32) else c.

Fixpoint map_string (f : ascii -> ascii) (s : string) : string :=
  match s with
  | EmptyString => EmptyString
  | String c s' => String (f c) (map_string f s')
  end.

(** Truthiness of a string: the empty string is the only falsy one. *)
Definition truthy_string (s : string) : bool :=
  match s with EmptyString => false | _ => true end.

(** [a || b] on strings. *)
Definition or_string (a b : string) : string :=
  if truthy_string a then a else b.

(** ** The URL constructor, as far as the repository depends on it

    The URL Standard's parser first removes leading and trailing C0
    controls and spaces, then every tab and newline; it is in the "no scheme
    state" with no base URL, hence fails, unless what is left starts with a
    letter followed by letters, digits, [+], [-] or [.] up to a colon. *)

Definition is_c0_or_space (c : ascii) : bool := (nat_of_ascii c <=? 32)%nat.

Definition is_tab_or_newline (c : ascii) : bool :=
  let n := nat_of_ascii c in ((n =? 9) || (n =? 10) || (n =? 13))%nat.

Fixpoint drop_while (p : ascii -> bool) (l : list ascii) : list ascii :=
  match l with
  | [] => []
  | c :: l' => if p c then drop_while p l' else l
  end.

Definition url_input (url : string) : list ascii :=
  let l := drop_while is_c0_or_space (list_ascii_of_string url) in
  let l := List.rev (drop_while is_c0_or_space (List.rev l)) in
  List.filter (fun c => negb (is_tab_or_newline c)) l.

Definition is_scheme_char (c : ascii) : bool :=
  let n := nat_of_ascii c in
  is_alpha c || is_digit c || ((n =? 43) || (n =? 45) || (n =? 46))%nat.

(** The scheme and the remainder after its colon, when the input has one. *)
Fixpoint scan_scheme (acc l : list ascii) : option (list ascii * list ascii) :=
  match l with
  | [] => None
  | c :: l' =>
      if (nat_of_ascii c =? 58)%nat then Some (List.rev acc, l')
      else if is_scheme_char c then scan_scheme (c :: acc) l'
      else None
  end.

Definition split_scheme (url : string) : option (list ascii * list ascii) :=
  match url_input url with
  | c :: l => if is_alpha c then scan_scheme [c] l else None
  | [] => None
  end.

Definition has_scheme (url : string) : bool :=
  match split_scheme url with Some _ => true | None => false end.

(** ** The platform *)

Class Platform : Type := {
  (** [new URL(url).hostname], or [None] when the constructor throws. *)
  URL_hostname : string -> option string;
  (** Without a base URL the constructor throws on an input with no scheme. *)
  URL_hostname_scheme :
    forall url h, URL_hostname url = Some h -> has_scheme url = true;
  (** [String.prototype.toLowerCase] *)
  toLowerCase : string -> string;
  (** The value of [Date.now()] at the n-th reading of the clock, which is
      a time value a Date can hold. *)
  clock : nat -> Z;
  clock_valid : forall n, (Z.abs (clock n) <= 8640000000000000)%Z;
  (** The identifier drawn by the n-th call of [generateId]. *)
  random_id : nat -> string
}.

(** ** js/utils.js *)

Module StringUtils.
Section WithPlatform.
Context `{Platform}.

(** [extractDomain(url)]: the hostname when the URL constructor accepts
    [url]; the [catch] branch returns [url] itself. *)
Definition extractDomain (url : string) : string :=
  match URL_hostname url with
  | Some hostname => hostname
  | None => url
  end.

(** [generateId()]: [tick] counts the identifiers drawn so far. *)
Definition generateId (tick : nat) : string * nat :=
  (random_id tick, S tick).
End WithPlatform.
End StringUtils.

(** The property names that every object literal inherits from
    [Object.prototype]; each names a function, [__proto__] the prototype
    object itself. *)
Definition Object_prototype : list string :=
  [ "constructor"; "__defineGetter__"; "__defineSetter__"; "hasOwnProperty";
    "__lookupGetter__"; "__lookupSetter__"; "isPrototypeOf";
    "propertyIsEnumerable"; "toString"; "valueOf"; "__proto__";
    "toLocaleString" ].

Module ArrayUtils.
Section Unique.
Context {A : Type} `{EqDecision A}.

(** A JavaScript [Set], by its elements in insertion order. *)
Definition Set_has (seen : list A) (x : A) : bool := bool_decide (x ∈ seen).

Definition Set_add (seen : list A) (x : A) : list A :=
  if Set_has seen x then seen else seen ++ [x].

Definition new_Set (arr : list A) : list A := fold_left Set_add arr [].

(** [unique(arr)] with no key: [[...new Set(arr)]]. The argument is an
    array by its type, so the guard [!Array.isArray(arr)] never holds. *)
Definition unique (arr : list A) : list A := new_Set arr.
End Unique.

Section UniqueKey.
Context {A K : Type} `{EqDecision K}.

(** [unique(arr, key)]: the filter callback keeps an item when the value
    under [key] was not seen before, and records it. *)
Fixpoint unique_filter (key : A -> K) (seen : list K) (arr : list A)
  : list A :=
  match arr with
  | [] => []
  | item :: arr' =>
      let value := key item in
      if Set_has seen value then unique_filter key seen arr'
      else item :: unique_filter key (Set_add seen value) arr'
  end.

Definition unique_key (key : A -> K) (arr : list A) : list A :=
  unique_filter key [] arr.
End UniqueKey.

Section GroupBy.
Context {A : Type}.

(** The callback of [reduce]: [groups[groupKey]] sees an array of the
    object's own, a built-in inherited from [Object.prototype], or
    nothing; a built-in is truthy and has no [push]. *)
Definition group_step (key : A -> string) (groups : gmap string (list A))
    (item : A) : result (gmap string (list A)) :=
  let groupKey := key item in
  match groups !! groupKey with
  | Some items => Ok (<[groupKey := items ++ [item]]> groups)
  | None =>
      if bool_decide (groupKey ∈ Object_prototype)
      then Throw (TypeError "groups[groupKey].push is not a function")
      else Ok (<[groupKey := [item]]> groups)
  end.

(** [groupBy(arr, key)]: [key] gives the property name under which an
    item is filed. The order in which the groups are enumerated is not
    represented. *)
Definition groupBy (arr : list A) (key : A -> string)
  : result (gmap string (list A)) :=
  fold_left (fun groups item => let* groups := groups in
                                group_step key groups item)
    arr (Ok ∅).
End GroupBy.

Section SortBy.
Context {A : Type}.

(** The comparison function of [sortBy]. *)
Definition compare_by (key : A -> Z) (order : string) (a b : A) : Z :=
  let aVal := key a in
  let bVal := key b in
  if (aVal <? bVal)%Z then (if String.eqb order "asc" then -1 else 1)%Z
  else if (bVal <? aVal)%Z then (if String.eqb order "asc" then 1 else -1)%Z
  else 0%Z.

(** [arr.sort(compareFn)] for a consistent comparison function: the sort
    is stable, so the result is the one of insertion from the right. *)
Fixpoint sort_insert (compareFn : A -> A -> Z) (x : A) (l : list A)
  : list A :=
  match l with
  | [] => [x]
  | y :: l' =>
      if (0 <? compareFn x y)%Z then y :: sort_insert compareFn x l'
      else x :: l
  end.

Definition Array_sort (compareFn : A -> A -> Z) (arr : list A) : list A :=
  foldr (sort_insert compareFn) [] arr.

(** [sortBy(arr, key, order = 'asc')] on items whose value under [key] is
    an integer; the copy [[...arr]] is what is sorted. *)
Definition sortBy (arr : list A) (key : A -> Z) (order : string) : list A :=
  Array_sort (compare_by key order) arr.
End SortBy.
End ArrayUtils.

(** ** js/api.js: the records built by the parsers *)

(** A Date object, by its time value in milliseconds; [None] is an Invalid
    Date. [new Date(ms)] clips to the representable range. *)
Definition Date : Type := option Z.

Definition new_Date (ms : Z) : Date :=
  if (Z.abs ms <=? 8640000000000000)%Z then Some ms else None.

Record Bookmark : Type := mkBookmark {
  b_type : option string;        (* set by the markup parser only *)
  b_id : option string;
  b_title : string;
  b_url : string;
  b_folder : string;
  b_path : option string;        (* set by the markup parser only *)
  b_dateAdded : Date;
  b_description : string;
  b_tags : list string;
  b_domain : string
}.

(** A folder of the native-tree parser; its [children] receive bookmarks. *)
Record Folder : Type := mkFolder {
  f_id : option string;
  f_title : string;
  f_path : string;
  f_parentPath : string;
  f_children : list Bookmark
}.

(** A node of the browser's bookmark tree. An absent property is [None]. *)
#[warnings="-register-all"] Inductive BookmarkTreeNode : Type :=
  TreeNode (id : option string) (title : option string) (url : option string)
           (dateAdded : option Z) (children : option (list BookmarkTreeNode)).

Definition n_id (n : BookmarkTreeNode) := let 'TreeNode i _ _ _ _ := n in i.
Definition n_title (n : BookmarkTreeNode) := let 'TreeNode _ t _ _ _ := n in t.
Definition n_url (n : BookmarkTreeNode) := let 'TreeNode _ _ u _ _ := n in u.
Definition n_dateAdded (n : BookmarkTreeNode) :=
  let 'TreeNode _ _ _ d _ := n in d.
Definition n_children (n : BookmarkTreeNode) :=
  let 'TreeNode _ _ _ _ c := n in c.

(** The root sentinel and the two pseudo-root titles. *)
Definition ROOT_FOLDER : string := "根目录".
Definition UNTITLED : string := "无标题".
Definition BOOKMARK_BAR : string := "书签栏".
Definition OTHER_BOOKMARKS : string := "其他书签".

(** Template-literal conversion of a possibly undefined string. *)
Definition ToString (s : option string) : string := default "undefined" s.

(** Truthiness of a possibly undefined string. *)
Definition truthy (s : option string) : bool :=
  match s with Some s => truthy_string s | None => false end.

(** A JavaScript [Map], by its entries in key insertion order: [set] on a
    key already present replaces the value and keeps the position. *)
Section JSMap.
Context {K V : Type} `{EqDecision K}.

Fixpoint Map_set (k : K) (v : V) (m : list (K * V)) : list (K * V) :=
  match m with
  | [] => [(k, v)]
  | (k', v') :: m' =>
      if decide (k = k') then (k, v) :: m' else (k', v') :: Map_set k v m'
  end.

Definition Map_values (m : list (K * V)) : list V := List.map snd m.
End JSMap.

(** ** JavaScript values and JSON

    The values that flow through the import, export and query methods. An
    object is the list of its own properties in creation order. *)

#[warnings="-register-all"] Inductive Value : Type :=
  | VUndefined
  | VNull
  | VBool (b : bool)
  | VNumber (n : Z)
  | VString (s : string)
  | VDate (d : Date)
  | VArray (elements : list Value)
  | VObject (properties : list (string * Value)).

(** A JSON document, and a text handed to [JSON.parse]: either one that
    does not follow the JSON grammar, or the document a well-formed text
    denotes. Layout (indentation, escapes) is not represented. *)
#[warnings="-register-all"] Inductive JSON : Type :=
  | JNull
  | JBool (b : bool)
  | JNumber (n : Z)
  | JString (s : string)
  | JArray (elements : list JSON)
  | JObject (members : list (string * JSON)).

Inductive JSONText : Type :=
  | NotJSON (message : string)
  | JSONDoc (doc : JSON).

Definition truthy_value (v : Value) : bool :=
  match v with
  | VUndefined | VNull => false
  | VBool b => b
  | VNumber n => negb (n =? 0)%Z
  | VString s => truthy_string s
  | VDate _ | VArray _ | VObject _ => true
  end.

(** [a || b] on values. *)
Definition or_value (a b : Value) : Value := if truthy_value a then a else b.

Definition Array_isArray (v : Value) : bool :=
  match v with VArray _ => true | _ => false end.

Definition own_property (key : string) (properties : list (string * Value))
  : Value :=
  match List.find (fun kv => String.eqb (fst kv) key) properties with
  | Some kv => snd kv
  | None => VUndefined
  end.

(** The elements of a value known to be an array. *)
Definition elements_of (v : Value) : list Value :=
  match v with VArray elements => elements | _ => [] end.

(** [v.key], for the property names that BookmarkAPI reads; none of them is
    a built-in property of a primitive, an array or a Date. *)
Definition get (v : Value) (key : string) : result Value :=
  match v with
  | VUndefined =>
      Throw (TypeError
        ("Cannot read properties of undefined (reading '" +:+ key +:+ "')"))
  | VNull =>
      Throw (TypeError
        ("Cannot read properties of null (reading '" +:+ key +:+ "')"))
  | VObject properties => Ok (own_property key properties)
  | _ => Ok VUndefined
  end.

(** [v.name(...)] where [v] has no method [name]. *)
Definition no_method {A} (v : Value) (name : string) : result A :=
  match v with
  | VUndefined =>
      Throw (TypeError
        ("Cannot read properties of undefined (reading '" +:+ name +:+ "')"))
  | VNull =>
      Throw (TypeError
        ("Cannot read properties of null (reading '" +:+ name +:+ "')"))
  | _ => Throw (TypeError (name +:+ " is not a function"))
  end.

(** [Date.prototype.toISOString] *)
Fixpoint pad (width : nat) (n : Z) : string :=
  match width with
  | O => ""
  | S w => pad w (n / 10) +:+
           String (ascii_of_nat (48 + Z.to_nat (n mod 10))) ""
  end.

(** Year, month and day of a day number counted from 1970-01-01. *)
Definition civil_from_days (days : Z) : Z * Z * Z :=
  (let z := days + 719468 in
   let era := z / 146097 in
   let doe := z - era * 146097 in
   let yoe := (doe - doe / 1460 + doe / 36524 - doe / 146096) / 365 in
   let doy := doe - (365 * yoe + yoe / 4 - yoe / 100) in
   let mp := (5 * doy + 2) / 153 in
   let d := doy - (153 * mp + 2) / 5 + 1 in
   let m := if mp <? 10 then mp + 3 else mp - 9 in
   let y := yoe + era * 400 + (if m <=? 2 then 1 else 0) in
   (y, m, d))%Z.

Definition ISO_string (ms : Z) : string :=
  (let '(y, m, d) := civil_from_days (ms / 86400000) in
   let t := ms mod 86400000 in
   let year :=
     if (0 <=? y) && (y <=? 9999) then pad 4 y
     else (if y <? 0 then "-" else "+") +:+ pad 6 (Z.abs y) in
   year +:+ "-" +:+ pad 2 m +:+ "-" +:+ pad 2 d +:+ "T" +:+
   pad 2 (t / 3600000) +:+ ":" +:+ pad 2 (t / 60000 mod 60) +:+ ":" +:+
   pad 2 (t / 1000 mod 60) +:+ "." +:+ pad 3 (t mod 1000) +:+ "Z")%Z.

Definition toISOString (d : Date) : result string :=
  match d with
  | Some ms => Ok (ISO_string ms)
  | None => Throw (RangeError "Invalid time value")
  end.

(** [JSON.stringify]: the serialization of a property value, [None] where
    the algorithm yields [undefined]. A Date goes through its [toJSON]; a
    property whose value is undefined is left out of an object, an
    undefined element of an array becomes [null]. *)
Fixpoint SerializeJSONProperty (v : Value) : option JSON :=
  match v with
  | VUndefined => None
  | VNull => Some JNull
  | VBool b => Some (JBool b)
  | VNumber n => Some (JNumber n)
  | VString s => Some (JString s)
  | VDate (Some ms) => Some (JString (ISO_string ms))
  | VDate None => Some JNull
  | VArray elements =>
      Some (JArray
              (List.map (fun e => default JNull (SerializeJSONProperty e))
                 elements))
  | VObject properties =>
      Some (JObject
              ((fix members (ps : list (string * Value)) :=
                  match ps with
                  | [] => []
                  | (k, e) :: ps' =>
                      match SerializeJSONProperty e with
                      | Some j => (k, j) :: members ps'
                      | None => members ps'
                      end
                  end) properties))
  end.

(** [JSON.stringify(value, null, 2)]; [None] is the result [undefined]. *)
Definition JSON_stringify (v : Value) : option JSONText :=
  JSONDoc <$> SerializeJSONProperty v.

(** The value a document denotes. A member name that occurs again
    overwrites the property created at its first occurrence. *)
Fixpoint InternalizeJSON (j : JSON) : Value :=
  match j with
  | JNull => VNull
  | JBool b => VBool b
  | JNumber n => VNumber n
  | JString s => VString s
  | JArray elements => VArray (List.map InternalizeJSON elements)
  | JObject members =>
      VObject
        ((fix define (ms : list (string * JSON)) (acc : list (string * Value)) :=
            match ms with
            | [] => acc
            | (k, e) :: ms' => define ms' (Map_set k (InternalizeJSON e) acc)
            end) members [])
  end.

(** [JSON.parse(text)] *)
Definition JSON_parse (text : JSONText) : result Value :=
  match text with
  | NotJSON message => Throw (SyntaxError message)
  | JSONDoc doc => Ok (InternalizeJSON doc)
  end.

(** The object literals of the parsers, as values. *)
Definition optional_property (key : string) (v : option string)
  : list (string * Value) :=
  match v with Some s => [(key, VString s)] | None => [] end.

Definition string_or_undefined (v : option string) : Value :=
  match v with Some s => VString s | None => VUndefined end.

Definition Bookmark_value (b : Bookmark) : Value :=
  VObject
    (optional_property "type" (b_type b) ++
     [ ("id", string_or_undefined (b_id b));
       ("title", VString (b_title b));
       ("url", VString (b_url b));
       ("folder", VString (b_folder b)) ] ++
     optional_property "path" (b_path b) ++
     [ ("dateAdded", VDate (b_dateAdded b));
       ("description", VString (b_description b));
       ("tags", VArray (VString <$> b_tags b));
       ("domain", VString (b_domain b)) ]).

Definition Folder_value (f : Folder) : Value :=
  VObject
    [ ("id", string_or_undefined (f_id f));
      ("title", VString (f_title f));
      ("path", VString (f_path f));
      ("parentPath", VString (f_parentPath f));
      ("children", VArray (Bookmark_value <$> f_children f)) ].

(** ** The document that [DOMParser] hands to the markup parser

    An element carries its tag name in upper case and its attributes under
    lower-case names, as an HTML document has them. *)

#[warnings="-register-all"] Inductive DomNode : Type :=
  | TextNode (data : string)
  | Element (tagName : string) (attributes : list (string * string))
            (childNodes : list DomNode).

Definition tagName (n : DomNode) : string :=
  match n with Element tag _ _ => tag | TextNode _ => "" end.

Definition is_element (n : DomNode) : bool :=
  match n with Element _ _ _ => true | TextNode _ => false end.

(** [el.children]: the child nodes that are elements. *)
Definition children (n : DomNode) : list DomNode :=
  match n with
  | Element _ _ childNodes => List.filter is_element childNodes
  | TextNode _ => []
  end.

(** [el.firstElementChild] *)
Definition firstElementChild (n : DomNode) : option DomNode :=
  head (children n).

(** [el.textContent]: the text of all descendants, in document order. *)
Fixpoint textContent (n : DomNode) : string :=
  match n with
  | TextNode data => data
  | Element _ _ childNodes =>
      (fix concat (l : list DomNode) : string :=
         match l with
         | [] => ""
         | c :: l' => textContent c +:+ concat l'
         end) childNodes
  end.

(** [el.getAttribute(name)]: the name is matched in lower case. *)
Definition getAttribute (n : DomNode) (name : string) : option string :=
  match n with
  | Element _ attributes _ =>
      snd <$> List.find
                (fun kv => String.eqb (fst kv) (map_string ascii_lower name))
                attributes
  | TextNode _ => None
  end.

(** [doc.querySelector(tag)]: the first element with that tag name in
    document order. *)
Fixpoint querySelector (tag : string) (n : DomNode) : option DomNode :=
  match n with
  | TextNode _ => None
  | Element name _ childNodes =>
      if String.eqb name tag then Some n
      else
        (fix first (l : list DomNode) : option DomNode :=
           match l with
           | [] => None
           | c :: l' =>
               match querySelector tag c with
               | Some found => Some found
               | None => first l'
               end
           end) childNodes
  end.

(** [parseInt(s)]: leading white space, a sign, then the longest run of
    digits, hexadecimal after [0x]; [None] is NaN. *)
Definition digit_value (radix : nat) (c : ascii) : option Z :=
  let n := nat_of_ascii c in
  let d :=
    if ((48 <=? n) && (n <=? 57))%nat then Some (n - 48)%nat
    else if ((97 <=? n) && (n <=? 122))%nat then Some (n - 87)%nat
    else if ((65 <=? n) && (n <=? 90))%nat then Some (n - 55)%nat
    else None in
  match d with
  | Some d => if (d <? radix)%nat then Some (Z.of_nat d) else None
  | None => None
  end.

Fixpoint parse_digits (radix : nat) (acc : option Z) (s : string) : option Z :=
  match s with
  | EmptyString => acc
  | String c s' =>
      match digit_value radix c with
      | Some d =>
          parse_digits radix (Some (default 0 acc * Z.of_nat radix + d)%Z) s'
      | None => acc
      end
  end.

Definition parseInt (s : string) : option Z :=
  let s := trimStart s in
  let '(sign, s) :=
    match s with
    | String "-" s' => ((-1)%Z, s')
    | String "+" s' => (1%Z, s')
    | _ => (1%Z, s)
    end in
  let '(radix, s) :=
    match s with
    | String "0" (String "x" s') | String "0" (String "X" s') => (16, s')
    | _ => (10, s)
    end in
  Z.mul sign <$> parse_digits radix None s.

(** ** js/api.js: class BookmarkAPI, the native-tree parser *)

Module BookmarkAPI.

(** The locals of [parseBookmarkTree] that [traverse] closes over. A folder
    object is created once and pushed on [folders] at once, so its position
    in [folders] serves as its reference: [folderMap] maps a node id to such
    a position, and pushing a child updates [folders] in place. [tick] counts
    the readings of the clock. *)
Record ParseState : Type := mkState {
  bookmarks : list Bookmark;
  folders : list Folder;
  folderMap : list (option string * nat);
  tick : nat
}.

Definition push_child (bookmark : Bookmark) (f : Folder) : Folder :=
  {| f_id := f_id f; f_title := f_title f; f_path := f_path f;
     f_parentPath := f_parentPath f;
     f_children := f_children f ++ [bookmark] |}.

(** [tags.push(label)] under a condition. *)
Definition push_if (c : bool) (label : string) (tags : list string)
  : list string :=
  if c then tags ++ [label] else tags.

Section WithPlatform.
Context `{Platform}.

(** [new Date()] *)
Definition Date_now (t : nat) : Date * nat := (new_Date (clock t), S t).

Definition generateDescription (title : option string) (url : string)
  : string :=
  let domain := StringUtils.extractDomain url in
  "来自 " +:+ domain +:+ " 的书签".

(** The labels pushed by the domain rules, in rule order. *)
Definition domain_tags (domain : string) (tags : list string)
  : list string :=
  let tags := push_if (includes domain "github") "开发" tags in
  let tags := push_if (includes domain "stackoverflow") "编程" tags in
  let tags := push_if (includes domain "youtube") "视频" tags in
  let tags := push_if (includes domain "bilibili") "视频" tags in
  let tags := push_if (includes domain "zhihu") "问答" tags in
  let tags := push_if (includes domain "baidu" || includes domain "google")
                "搜索" tags in
  let tags := push_if (includes domain "taobao" || includes domain "jd")
                "购物" tags in
  let tags := push_if (includes domain "weibo" || includes domain "twitter")
                "社交" tags in
  tags.

(** The labels pushed by the title rules, in rule order. *)
Definition title_tags (titleLower : string) (tags : list string)
  : list string :=
  let tags := push_if (includes titleLower "doc"
                       || includes titleLower "文档") "文档" tags in
  let tags := push_if (includes titleLower "tutorial"
                       || includes titleLower "教程") "教程" tags in
  let tags := push_if (includes titleLower "news"
                       || includes titleLower "新闻") "新闻" tags in
  let tags := push_if (includes titleLower "blog"
                       || includes titleLower "博客") "博客" tags in
  tags.

(** [generateTags(title, url)]; [title.toLowerCase()] throws on an
    undefined title. *)
Definition generateTags (title : option string) (url : string)
  : result (list string) :=
  let tags := [] in
  let domain := StringUtils.extractDomain url in
  let tags := domain_tags domain tags in
  match title with
  | None =>
      Throw (TypeError
               "Cannot read properties of undefined (reading 'toLowerCase')")
  | Some title =>
      let titleLower := toLowerCase title in
      let tags := title_tags titleLower tags in
      Ok (ArrayUtils.unique tags)
  end.

(** The folder that [Array.from(folderMap.values()).find(f => f.path ===
    parentPath)] returns, by its reference. *)
Definition find_parentFolder (st : ParseState) (parentPath : string)
  : option nat :=
  List.find
    (fun r =>
       match folders st !! r with
       | Some f => bool_decide (f_path f = parentPath)
       | None => false
       end)
    (Map_values (folderMap st)).

(** The body of the [forEach] callback for a node with [children]. It
    returns the state and the path handed to the recursive call. *)
Definition enter_folder (id title : option string) (parentPath : string)
    (st : ParseState) : ParseState * option string :=
  let folderPath :=
    if truthy_string parentPath
    then Some (parentPath +:+ "/" +:+ ToString title)
    else title in
  match title with
  | Some t =>
      if truthy_string t
         && negb (bool_decide (t = BOOKMARK_BAR))
         && negb (bool_decide (t = OTHER_BOOKMARKS))
      then
        (* folderPath is a string here, since the title is one *)
        let folder :=
          {| f_id := id; f_title := t; f_path := default t folderPath;
             f_parentPath := parentPath; f_children := [] |} in
        ({| bookmarks := bookmarks st;
            folders := folders st ++ [folder];
            folderMap := Map_set id (length (folders st)) (folderMap st);
            tick := tick st |}, folderPath)
      else (st, folderPath)
  | None => (st, folderPath)
  end.

(** The body of the [forEach] callback for a node with a [url]. *)
Definition visit_bookmark (id title : option string) (url : string)
    (dateAdded : option Z) (parentPath : string) (st : ParseState)
  : result ParseState :=
  let '(date, t) :=
    match dateAdded with
    | Some ms => if (ms =? 0)%Z then Date_now (tick st)
                 else (new_Date ms, tick st)
    | None => Date_now (tick st)
    end in
  let description := generateDescription title url in
  let* tags := generateTags title url in
  let bookmark :=
    {| b_type := None;
       b_id := id;
       b_title := or_string (default "" title) UNTITLED;
       b_url := url;
       b_folder := or_string parentPath ROOT_FOLDER;
       b_path := None;
       b_dateAdded := date;
       b_description := description;
       b_tags := tags;
       b_domain := StringUtils.extractDomain url |} in
  let folders' :=
    match find_parentFolder st parentPath with
    | Some parentFolder => alter (push_child bookmark) parentFolder (folders st)
    | None => folders st
    end in
  Ok {| bookmarks := bookmarks st ++ [bookmark];
        folders := folders';
        folderMap := folderMap st;
        tick := t |}.

(** [traverse(nodes, parentPath)] is [traverse_nodes]; [traverse_node] is
    its [forEach] callback. A [parentPath] left undefined by the caller
    takes the default [''] of the parameter. *)
Fixpoint traverse_node (node : BookmarkTreeNode) (parentPath : string)
    (st : ParseState) {struct node} : result ParseState :=
  match node with
  | TreeNode id title url dateAdded children =>
      match children with
      | Some nodes =>
          let '(st, folderPath) := enter_folder id title parentPath st in
          let parentPath := default "" folderPath in
          (fix forEach (nodes : list BookmarkTreeNode) (st : ParseState)
             : result ParseState :=
             match nodes with
             | [] => Ok st
             | node :: nodes =>
                 let* st := traverse_node node parentPath st in
                 forEach nodes st
             end) nodes st
      | None =>
          match url with
          | Some u =>
              if truthy_string u
              then visit_bookmark id title u dateAdded parentPath st
              else Ok st
          | None => Ok st
          end
      end
  end.

Fixpoint traverse_nodes (nodes : list BookmarkTreeNode) (parentPath : string)
    (st : ParseState) : result ParseState :=
  match nodes with
  | [] => Ok st
  | node :: nodes =>
      let* st := traverse_node node parentPath st in
      traverse_nodes nodes parentPath st
  end.

Definition traverse := traverse_nodes.

(** [parseBookmarkTree(bookmarkTreeNodes)], the clock having been read
    [t] times before the call; the result is [{ bookmarks, folders }]. *)
Definition parseBookmarkTree (t : nat) (bookmarkTreeNodes : list BookmarkTreeNode)
  : result (list Bookmark * list Folder) :=
  let* st := traverse bookmarkTreeNodes ""
               {| bookmarks := []; folders := []; folderMap := [];
                  tick := t |} in
  Ok (bookmarks st, folders st).


(** *** The markup parser *)

(** An item of the tree that [walk] builds: a bookmark, or a folder with
    its [type], [id], [title], [path], [parentPath] and [children]. *)
#[warnings="-register-all"] Inductive Item : Type :=
  | BookmarkItem (bookmark : Bookmark)
  | FolderItem (id title path parentPath : string) (children : list Item).

(** The recursive call [walk(nodes[i + 1], folderPath)] of a child. *)
Definition Walker : Type := string -> nat -> result (list Item * nat).

(** The bookmark built from an anchor element. *)
Definition anchor_bookmark (firstChild : DomNode) (currentPath : string)
    (t : nat) : result (Bookmark * nat) :=
  let url :=
    trim (remove_backticks (default "" (getAttribute firstChild "HREF"))) in
  let '(id, t) := StringUtils.generateId t in
  let text := textContent firstChild in
  let '(date, t) :=
    match getAttribute firstChild "ADD_DATE" with
    | Some a =>
        if truthy_string a
        then (match parseInt a with
              | Some seconds => new_Date (seconds * 1000)
              | None => None
              end, t)
        else Date_now t
    | None => Date_now t
    end in
  let description := or_string (generateDescription (Some text) url) "" in
  let* tags := generateTags (Some text) url in
  Ok ({| b_type := Some "bookmark";
         b_id := Some id;
         b_title := or_string (trim text) UNTITLED;
         b_url := url;
         b_folder := or_string currentPath ROOT_FOLDER;
         b_path := Some (if truthy_string currentPath
                         then currentPath +:+ "/" +:+ trim text
                         else trim text);
         b_dateAdded := date;
         b_description := description;
         b_tags := tags;
         b_domain := StringUtils.extractDomain url |}, t).

(** The [for] loop of [walk] over [nodes], each paired with the recursive
    call on it; a folder entry followed by a [DL] consumes both. *)
Fixpoint walk_loop (nodes : list (DomNode * Walker)) (currentPath : string)
    (t : nat) : result (list Item * nat) :=
  match nodes with
  | [] => Ok ([], t)
  | (node, _) :: rest =>
      if String.eqb (tagName node) "DT" then
        match firstElementChild node with
        | None => walk_loop rest currentPath t
        | Some firstChild =>
            if String.eqb (tagName firstChild) "H3" then
              let title := trim (textContent firstChild) in
              let folderPath :=
                if truthy_string currentPath
                then currentPath +:+ "/" +:+ title
                else title in
              let '(id, t) := StringUtils.generateId t in
              match rest with
              | (next, walk_next) :: rest' =>
                  if String.eqb (tagName next) "DL" then
                    let* (children, t) := walk_next folderPath t in
                    let* (result, t) := walk_loop rest' currentPath t in
                    Ok (FolderItem id title folderPath currentPath children
                          :: result, t)
                  else
                    let* (result, t) := walk_loop rest currentPath t in
                    Ok (FolderItem id title folderPath currentPath []
                          :: result, t)
              | [] => Ok ([FolderItem id title folderPath currentPath []], t)
              end
            else if String.eqb (tagName firstChild) "A" then
              let* (bookmark, t) :=
                anchor_bookmark firstChild currentPath t in
              let* (result, t) := walk_loop rest currentPath t in
              Ok (BookmarkItem bookmark :: result, t)
            else walk_loop rest currentPath t
        end
      else walk_loop rest currentPath t
  end.

Definition is_DT_or_DL (el : DomNode) : bool :=
  String.eqb (tagName el) "DT" || String.eqb (tagName el) "DL".

(** [walk(dlElement, currentPath = '')]; [t] counts the identifiers and
    clock readings drawn so far. *)
Fixpoint walk (dlElement : DomNode) (currentPath : string) (t : nat)
    {struct dlElement} : result (list Item * nat) :=
  match dlElement with
  | TextNode _ => Ok ([], t)
  | Element _ _ childNodes =>
      let nodes :=
        List.filter (fun n => is_DT_or_DL (fst n))
          (List.filter (fun n => is_element (fst n))
             (List.map (fun c => (c, walk c)) childNodes)) in
      walk_loop nodes currentPath t
  end.

(** [flatten(items)]: bookmarks and folders in pre-order, appended to the
    two arrays. *)
Fixpoint flatten_item (item : Item) (acc : list Bookmark * list Item)
  : list Bookmark * list Item :=
  match item with
  | BookmarkItem bookmark => (fst acc ++ [bookmark], snd acc)
  | FolderItem _ _ _ _ children =>
      (fix each (items : list Item) (acc : list Bookmark * list Item) :=
         match items with
         | [] => acc
         | item :: items' => each items' (flatten_item item acc)
         end) children (fst acc, snd acc ++ [item])
  end.

Definition flatten (items : list Item) (acc : list Bookmark * list Item)
  : list Bookmark * list Item :=
  fold_left (fun acc item => flatten_item item acc) items acc.

Definition NO_ROOT_DL : string := "无效的书签文件：找不到根DL元素".

(** [parseHTMLBookmarks(htmlContent)] on the document parsed from the
    content: [{ tree, bookmarks, folders }]. *)
Definition parseHTMLBookmarks (doc : DomNode) (t : nat)
  : result (list Item * list Bookmark * list Item) :=
  match querySelector "DL" doc with
  | None => Throw (Error NO_ROOT_DL)
  | Some rootDL =>
      let* (tree, _) := walk rootDL "" t in
      let '(bookmarks, folders) := flatten tree ([], []) in
      Ok (tree, bookmarks, folders)
  end.

(** *** The JSON file parser *)

(** A value read as a bookmark-tree node: each property is absent or of
    the type the node has it. [None]: the value is not such a node. *)
Definition string_property (key : string) (ps : list (string * Value))
  : option (option string) :=
  match own_property key ps with
  | VUndefined => Some None
  | VString s => Some (Some s)
  | _ => None
  end.

Definition number_property (key : string) (ps : list (string * Value))
  : option (option Z) :=
  match own_property key ps with
  | VUndefined => Some None
  | VNumber n => Some (Some n)
  | _ => None
  end.

Fixpoint node_of_value (v : Value) : option BookmarkTreeNode :=
  match v with
  | VObject ps =>
      id ← string_property "id" ps;
      title ← string_property "title" ps;
      url ← string_property "url" ps;
      dateAdded ← number_property "dateAdded" ps;
      children ←
        (fix own (l : list (string * Value))
           : option (option (list BookmarkTreeNode)) :=
           match l with
           | [] => Some None
           | (k, child) :: l' =>
               if String.eqb k "children" then
                 match child with
                 | VUndefined => Some None
                 | VArray elements =>
                     Some <$>
                       (fix each (es : list Value)
                          : option (list BookmarkTreeNode) :=
                          match es with
                          | [] => Some []
                          | e :: es' =>
                              n ← node_of_value e;
                              ns ← each es';
                              Some (n :: ns)
                          end) elements
                 | _ => None
                 end
               else own l'
           end) ps;
      Some (TreeNode id title url dateAdded children)
  | _ => None
  end.

(** An element of the array handed to [parseBookmarkTree]: a node, or
    an undefined or null element, on which [node.children] throws. *)
Definition root_of_value (v : Value) : option (option BookmarkTreeNode) :=
  match v with
  | VUndefined | VNull => Some None
  | _ => Some <$> node_of_value v
  end.

(** [this.parseBookmarkTree(roots)] where an element may be undefined:
    the nodes before it are traversed, then reading [node.children]
    throws. *)
Fixpoint defined_prefix (roots : list (option BookmarkTreeNode))
  : list BookmarkTreeNode * bool :=
  match roots with
  | [] => ([], true)
  | Some n :: roots' =>
      let '(ns, all) := defined_prefix roots' in (n :: ns, all)
  | None :: _ => ([], false)
  end.

Definition parseBookmarkTree_roots (t : nat)
    (roots : list (option BookmarkTreeNode))
  : result (list Bookmark * list Folder) :=
  let '(nodes, all) := defined_prefix roots in
  let* parsed := parseBookmarkTree t nodes in
  if all then Ok parsed
  else Throw (TypeError
                "Cannot read properties of undefined (reading 'children')").

Definition UNRECOGNIZED : string := "无法识别的JSON书签格式".

(** The [try] block of [parseJSONBookmarks]. [None]: the roots are not
    bookmark-tree nodes, which this embedding leaves open. *)
Definition parseJSON_try (jsonContent : JSONText) (t : nat)
  : option (result (list Value * Value)) :=
  match JSON_parse jsonContent with
  | Throw e => Some (Throw e)
  | Ok data =>
      match get data "bookmarks" with
      | Throw e => Some (Throw e)
      | Ok bookmarks =>
          if truthy_value bookmarks && Array_isArray bookmarks then
            Some (let* folders := get data "folders" in
                  Ok (elements_of bookmarks, or_value folders (VArray [])))
          else
            match get data "roots" with
            | Throw e => Some (Throw e)
            | Ok roots =>
                if truthy_value roots then
                  match get roots "bookmark_bar", get roots "other",
                        get roots "synced" with
                  | Ok bar, Ok other, Ok synced =>
                      bar ← root_of_value bar;
                      other ← root_of_value other;
                      synced ← root_of_value synced;
                      Some (let* (bookmarks, folders) :=
                              parseBookmarkTree_roots t [bar; other; synced] in
                            Ok (Bookmark_value <$> bookmarks,
                                VArray (Folder_value <$> folders)))
                  | Throw e, _, _ | _, Throw e, _ | _, _, Throw e =>
                      Some (Throw e)
                  end
                else Some (Throw (Error UNRECOGNIZED))
            end
      end
  end.

(** [parseJSONBookmarks(jsonContent)]: an error is thrown again under a
    prefixed message. *)
Definition parseJSONBookmarks (jsonContent : JSONText) (t : nat)
  : option (result (list Value * Value)) :=
  r ← parseJSON_try jsonContent t;
  Some match r with
       | Ok parsed => Ok parsed
       | Throw error =>
           Throw (Error ("解析JSON文件失败: " +:+ message error))
       end.

(** *** The instance and its query and codec methods *)

(** The fields [this.bookmarks] and [this.folders]. The constructor, the
    parsers and [importBookmarks] only ever store an array in
    [this.bookmarks], which is kept by its elements. *)
Record t : Type := mkAPI {
  this_bookmarks : list Value;
  this_folders : Value
}.

Definition constructor : t :=
  {| this_bookmarks := []; this_folders := VArray [] |}.

(** [v.toLowerCase()] *)
Definition call_toLowerCase (v : Value) : result string :=
  match v with
  | VString s => Ok (toLowerCase s)
  | _ => no_method v "toLowerCase"
  end.

(** [arr.filter(callback)] on the elements of an array. *)
Fixpoint Array_filter (callback : Value -> result bool) (arr : list Value)
  : result (list Value) :=
  match arr with
  | [] => Ok []
  | x :: arr' =>
      let* keep := callback x in
      let* rest := Array_filter callback arr' in
      Ok (if keep then x :: rest else rest)
  end.

(** [arr.some(callback)] on the elements of an array. *)
Fixpoint Array_some (callback : Value -> result bool) (arr : list Value)
  : result bool :=
  match arr with
  | [] => Ok false
  | x :: arr' =>
      let* found := callback x in
      if found then Ok true else Array_some callback arr'
  end.

(** [targetBookmarks.filter(callback)] *)
Definition call_filter (targetBookmarks : Value)
    (callback : Value -> result bool) : result Value :=
  match targetBookmarks with
  | VArray arr => let* kept := Array_filter callback arr in Ok (VArray kept)
  | _ => no_method targetBookmarks "filter"
  end.

(** [bookmark.key.toLowerCase().includes(searchTerm)] *)
Definition field_includes (bookmark : Value) (key searchTerm : string)
  : result bool :=
  let* v := get bookmark key in
  let* lower := call_toLowerCase v in
  Ok (includes lower searchTerm).

(** [bookmark.tags.some(tag => tag.toLowerCase().includes(searchTerm))] *)
Definition tags_some (bookmark : Value) (searchTerm : string) : result bool :=
  let* tags := get bookmark "tags" in
  match tags with
  | VArray arr =>
      Array_some
        (fun tag =>
           let* lower := call_toLowerCase tag in
           Ok (includes lower searchTerm))
        arr
  | _ => no_method tags "some"
  end.

(** The filter callback of [searchBookmarks]; [||] evaluates its right
    operand only when the left one is false. *)
Definition search_callback (searchTerm : string) (bookmark : Value)
  : result bool :=
  let* m := field_includes bookmark "title" searchTerm in
  if m then Ok true else
  let* m := field_includes bookmark "url" searchTerm in
  if m then Ok true else
  let* m := field_includes bookmark "description" searchTerm in
  if m then Ok true else
  let* m := field_includes bookmark "folder" searchTerm in
  if m then Ok true else
  tags_some bookmark searchTerm.

(** [bookmarks || this.bookmarks] *)
Definition target (this : t) (bookmarks : Value) : Value :=
  or_value bookmarks (VArray (this_bookmarks this)).

(** [searchBookmarks(keyword, bookmarks = null)] *)
Definition searchBookmarks (this : t) (keyword : string) (bookmarks : Value)
  : result Value :=
  let targetBookmarks := target this bookmarks in
  if negb (truthy_string keyword) || negb (truthy_string (trim keyword))
  then Ok targetBookmarks
  else
    let searchTerm := trim (toLowerCase keyword) in
    call_filter targetBookmarks (search_callback searchTerm).

(** [bookmark.folder === folderName] *)
Definition folder_callback (folderName : string) (bookmark : Value)
  : result bool :=
  let* folder := get bookmark "folder" in
  Ok match folder with
     | VString s => bool_decide (s = folderName)
     | _ => false
     end.

(** [filterByFolder(folderName, bookmarks = null)] *)
Definition filterByFolder (this : t) (folderName : string)
    (bookmarks : Value) : result Value :=
  let targetBookmarks := target this bookmarks in
  if negb (truthy_string folderName) then Ok targetBookmarks
  else call_filter targetBookmarks (folder_callback folderName).

(** [bookmark.tags.includes(tag)]: membership in an array, containment
    in a string. *)
Definition tag_callback (tag : string) (bookmark : Value) : result bool :=
  let* tags := get bookmark "tags" in
  match tags with
  | VArray arr =>
      Ok (existsb
            (fun v => match v with
                      | VString s => bool_decide (s = tag)
                      | _ => false
                      end) arr)
  | VString s => Ok (includes s tag)
  | _ => no_method tags "includes"
  end.

(** [filterByTag(tag, bookmarks = null)] *)
Definition filterByTag (this : t) (tag : string) (bookmarks : Value)
  : result Value :=
  let targetBookmarks := target this bookmarks in
  if negb (truthy_string tag) then Ok targetBookmarks
  else call_filter targetBookmarks (tag_callback tag).

(** [exportBookmarks()], the clock having been read [n] times before. *)
Definition exportBookmarks (this : t) (n : nat) : result (option JSONText) :=
  let* exportDate := toISOString (fst (Date_now n)) in
  let exportData :=
    VObject
      [ ("version", VString "1.0");
        ("exportDate", VString exportDate);
        ("bookmarks", VArray (this_bookmarks this));
        ("folders", this_folders this);
        ("total", VNumber (Z.of_nat (length (this_bookmarks this)))) ] in
  Ok (JSON_stringify exportData).

(** What [importBookmarks] returns: [{ success: true, data: { bookmarks,
    folders, total } }] or [{ success: false, error }]. *)
Inductive Outcome : Type :=
  | Success (bookmarks : list Value) (folders : Value) (total : nat)
  | Failure (error : string).

Definition INVALID_FORMAT : string := "无效的书签数据格式".

(** The [try] block of [importBookmarks]: the new fields on completion. *)
Definition import_try (jsonData : JSONText) : result t :=
  let* data := JSON_parse jsonData in
  let* bookmarks := get data "bookmarks" in
  if negb (truthy_value bookmarks) || negb (Array_isArray bookmarks)
  then Throw (Error INVALID_FORMAT)
  else
    let* folders := get data "folders" in
    Ok {| this_bookmarks := elements_of bookmarks;
          this_folders := or_value folders (VArray []) |}.

(** [importBookmarks(jsonData)]: the instance after the call and the
    object returned. *)
Definition importBookmarks (this : t) (jsonData : JSONText) : t * Outcome :=
  match import_try jsonData with
  | Ok this' =>
      (this', Success (this_bookmarks this') (this_folders this')
                (length (this_bookmarks this')))
  | Throw error => (this, Failure (message error))
  end.

(** [getChromeBookmarks()], in the callback of [chrome.bookmarks.getTree]
    with no runtime error: the fields are set from the parsed tree. *)
Definition getChromeBookmarks (bookmarkTreeNodes : list BookmarkTreeNode)
    (n : nat) : result t :=
  let* (bookmarks, folders) := parseBookmarkTree n bookmarkTreeNodes in
  Ok {| this_bookmarks := Bookmark_value <$> bookmarks;
        this_folders := VArray (Folder_value <$> folders) |}.

End WithPlatform.
End BookmarkAPI.

(** ** A platform to compute with

    The hostname of the common [scheme://user@host:port/path] shape, in
    lower case; a URL of a special scheme needs a host, any other URL
    without [//] has the empty hostname. *)

Definition ascii_in (c : ascii) (codes : list nat) : bool :=
  existsb (Nat.eqb (nat_of_ascii c)) codes.

Fixpoint take_until (p : ascii -> bool) (l : list ascii) : list ascii :=
  match l with
  | [] => []
  | c :: l' => if p c then [] else c :: take_until p l'
  end.

(** What follows the last [@] of an authority. *)
Fixpoint after_userinfo (l : list ascii) : list ascii :=
  match l with
  | [] => []
  | c :: l' =>
      if existsb (fun d => ascii_in d [64]) l' then after_userinfo l'
      else if ascii_in c [64] then l' else l
  end.

Definition special_scheme (scheme : string) : bool :=
  bool_decide (scheme ∈ ["http"; "https"; "ws"; "wss"; "ftp"]).

Definition authority_host (l : list ascii) : string :=
  let authority := take_until (fun c => ascii_in c [47; 92; 63; 35]) l in
  let host := take_until (fun c => ascii_in c [58]) (after_userinfo authority) in
  map_string ascii_lower (string_of_list_ascii host).

Definition model_hostname (url : string) : option string :=
  match split_scheme url with
  | None => None
  | Some (scheme, rest) =>
      let scheme := map_string ascii_lower (string_of_list_ascii scheme) in
      if special_scheme scheme then
        let host :=
          authority_host (drop_while (fun c => ascii_in c [47; 92]) rest) in
        if truthy_string host then Some host else None
      else
        match rest with
        | c1 :: c2 :: rest' =>
            if ascii_in c1 [47] && ascii_in c2 [47]
            then Some (authority_host rest')
            else Some ""
        | _ => Some ""
        end
  end.

Definition model_clock (n : nat) : Z :=
  (1704067200000 + Z.min (Z.of_nat n) 1000000)%Z.

Definition model_platform : Platform.
Proof.
  refine {| URL_hostname := model_hostname;
            toLowerCase := map_string ascii_lower;
            clock := model_clock;
            random_id := fun n => "id" +:+ pad 6 (Z.of_nat n) |}.
  - intros url h. unfold model_hostname, has_scheme.
    destruct (split_scheme url); [reflexivity | discriminate].
  - intros n. unfold model_clock. lia.
Defined.

(** ** Definitions that follow the words of the specification *)

(** Deduplication that keeps the first occurrence of each entry: an entry
    stays, and its later occurrences are removed from what follows. *)
Fixpoint first_occurrences {A} `{EqDecision A} (l : list A) : list A :=
  match l with
  | [] => []
  | x :: l' => x :: filter (fun y => y <> x) (first_occurrences l')
  end.

(** A container title for which the native-tree parser creates a Folder:
    not empty, not absent, and none of the two pseudo-root titles. *)
Definition real_title (title : option string) : bool :=
  match title with
  | Some t => truthy_string t
              && negb (bool_decide (t = BOOKMARK_BAR))
              && negb (bool_decide (t = OTHER_BOOKMARKS))
  | None => false
  end.

(** Every container of the tree has such a title. *)
Fixpoint real_folders (node : BookmarkTreeNode) : bool :=
  match node with
  | TreeNode _ title _ _ (Some nodes) =>
      real_title title && forallb real_folders nodes
  | TreeNode _ _ _ _ None => true
  end.

(** The ids of the containers for which a Folder is created, in the order
    in which the traversal meets them. *)
Fixpoint created_ids (node : BookmarkTreeNode) : list (option string) :=
  match node with
  | TreeNode id title _ _ (Some nodes) =>
      (if real_title title then [id] else [])
      ++ concat (List.map created_ids nodes)
  | TreeNode _ _ _ _ None => []
  end.

(** The folder map holds every folder under its own id, in creation order;
    this is the case as long as no two folders share an id. *)
Definition synced (st : BookmarkAPI.ParseState) : Prop :=
  BookmarkAPI.folderMap st
  = zip (f_id <$> BookmarkAPI.folders st)
        (seq 0 (length (BookmarkAPI.folders st))).


(** A value that JSON represents as it is: no undefined, no Date, and
    objects whose property names are pairwise distinct. *)
Fixpoint json_plain (v : Value) : bool :=
  match v with
  | VUndefined | VDate _ => false
  | VNull | VBool _ | VNumber _ | VString _ => true
  | VArray elements => forallb json_plain elements
  | VObject properties =>
      bool_decide (NoDup properties.*1)
      && forallb (fun kv => json_plain (snd kv)) properties
  end.

(** What an array element has become after [JSON.stringify] and
    [JSON.parse]. *)
Definition JSON_image (v : Value) : Value :=
  InternalizeJSON (default JNull (SerializeJSONProperty v)).

(** The same for a property value, which is dropped when undefined. *)
Definition JSON_property_image (v : Value) : Value :=
  match SerializeJSONProperty v with
  | Some j => InternalizeJSON j
  | None => VUndefined
  end.

(** A bookmark record as the data model has it: string-valued title, url,
    description and folder, and an array of strings as tags. *)
Definition is_string (v : Value) : bool :=
  match v with VString _ => true | _ => false end.

Definition string_of (v : Value) : string :=
  match v with VString s => s | _ => "" end.

Definition field (bookmark : Value) (key : string) : Value :=
  match bookmark with
  | VObject properties => own_property key properties
  | _ => VUndefined
  end.

Definition is_bookmark (v : Value) : bool :=
  match v with
  | VObject _ =>
      is_string (field v "title") && is_string (field v "url")
      && is_string (field v "description") && is_string (field v "folder")
      && match field v "tags" with
         | VArray tags => forallb is_string tags
         | _ => false
         end
  | _ => false
  end.

(** The keyword is empty or consists of white space only. *)
Definition blank (keyword : string) : bool :=
  negb (truthy_string keyword) || negb (truthy_string (trim keyword)).

Section Queries.
Context `{Platform}.

(** The search term occurs in the lower-cased title, url, description or
    folder, or in a lower-cased tag. *)
Definition keyword_match (term : string) (bookmark : Value) : bool :=
  includes (toLowerCase (string_of (field bookmark "title"))) term
  || includes (toLowerCase (string_of (field bookmark "url"))) term
  || includes (toLowerCase (string_of (field bookmark "description"))) term
  || includes (toLowerCase (string_of (field bookmark "folder"))) term
  || existsb (fun tag => includes (toLowerCase (string_of tag)) term)
       (elements_of (field bookmark "tags")).

Definition folder_match (folderName : string) (bookmark : Value) : bool :=
  match field bookmark "folder" with
  | VString s => bool_decide (s = folderName)
  | _ => false
  end.

Definition tag_match (tag : string) (bookmark : Value) : bool :=
  existsb (fun v => match v with
                    | VString s => bool_decide (s = tag)
                    | _ => false
                    end)
    (elements_of (field bookmark "tags")).

(** One of the three filters with its argument, and a chain of them, the
    result of each being the collection of the next. *)
Inductive Query : Type :=
  | ByKeyword (keyword : string)
  | ByFolder (folderName : string)
  | ByTag (tag : string).

Definition apply_query (this : BookmarkAPI.t) (q : Query) (bookmarks : Value)
  : result Value :=
  match q with
  | ByKeyword keyword => BookmarkAPI.searchBookmarks this keyword bookmarks
  | ByFolder folderName => BookmarkAPI.filterByFolder this folderName bookmarks
  | ByTag tag => BookmarkAPI.filterByTag this tag bookmarks
  end.


(** The tags are strings up to the first one in which the term occurs. *)
Fixpoint strings_until_match (term : string) (tags : list Value) : bool :=
  match tags with
  | [] => true
  | VString s :: tags' =>
      includes (toLowerCase s) term || strings_until_match term tags'
  | _ :: _ => false
  end.

(** The fields that the search callback reads for this term are of the
    type it needs: it reads title, url, description, folder and the tags
    in this order and stops at the first in which the term occurs. *)
Definition searchable (term : string) (bookmark : Value) : bool :=
  match field bookmark "title" with
  | VString s =>
      includes (toLowerCase s) term ||
      match field bookmark "url" with
      | VString s =>
          includes (toLowerCase s) term ||
          match field bookmark "description" with
          | VString s =>
              includes (toLowerCase s) term ||
              match field bookmark "folder" with
              | VString s =>
                  includes (toLowerCase s) term ||
                  match field bookmark "tags" with
                  | VArray tags => strings_until_match term tags
                  | _ => false
                  end
              | _ => false
              end
          | _ => false
          end
      | _ => false
      end
  | _ => false
  end.

(** The bookmarks a query lets through. *)
Definition query_match (q : Query) (bookmark : Value) : bool :=
  match q with
  | ByKeyword keyword =>
      blank keyword || keyword_match (trim (toLowerCase keyword)) bookmark
  | ByFolder folderName =>
      negb (truthy_string folderName) || folder_match folderName bookmark
  | ByTag tag => negb (truthy_string tag) || tag_match tag bookmark
  end.
End Queries.

(** ** Notions used to state and prove the properties *)

Section Notions.
Context `{Platform}.
Import BookmarkAPI.

(** The paths of the folders created so far. *)
Definition paths (st : ParseState) : list string := f_path <$> folders st.

(** The parent path is that of a folder created before, or is empty. *)
Definition known (parentPath : string) (st : ParseState) : Prop :=
  parentPath = "" \/ parentPath ∈ paths st.

(** Every bookmark so far lies in the root or in a folder created so far. *)
Definition placed (st : ParseState) : Prop :=
  Forall (fun b => b_folder b = ROOT_FOLDER \/ b_folder b ∈ paths st)
    (bookmarks st).

(** The ids of the folders created so far. *)
Definition ids (st : ParseState) : list (option string) :=
  f_id <$> folders st.

(** A folder whose path an earlier folder has too holds no child. *)
Definition later_duplicates_empty (l : list Folder) : Prop :=
  forall i j fi fj,
    i < j -> l !! i = Some fi -> l !! j = Some fj ->
    f_path fi = f_path fj -> f_children fj = [].

(** The invariant of a traversal over nodes with distinct folder ids. *)
Definition in_step (st : ParseState) : Prop :=
  synced st /\ later_duplicates_empty (folders st).

(** The members that [SerializeJSONProperty] gives an object, and the
    properties that [InternalizeJSON] defines from members, as list
    functions. *)
Definition serialize_members (ps : list (string * Value))
  : list (string * JSON) :=
  omap (fun kv => (fun j => (fst kv, j)) <$> SerializeJSONProperty (snd kv)) ps.

Definition define_members (ms : list (string * JSON))
    (acc : list (string * Value)) : list (string * Value) :=
  fold_left (fun acc kv => Map_set (fst kv) (InternalizeJSON (snd kv)) acc)
    ms acc.

(** The fields after [importBookmarks(exportBookmarks())]. *)
Definition round_trip (this : t) : t :=
  {| this_bookmarks := JSON_image <$> this_bookmarks this;
     this_folders :=
       or_value (JSON_property_image (this_folders this)) (VArray []) |}.

(** The members of the exported document. *)
Definition export_members (this : t) (n : nat) : list (string * JSON) :=
  [ ("version", JString "1.0");
    ("exportDate", JString (ISO_string (clock n)));
    ("bookmarks",
     JArray ((fun e => default JNull (SerializeJSONProperty e))
               <$> this_bookmarks this)) ]
  ++ match SerializeJSONProperty (this_folders this) with
     | Some j => [("folders", j)]
     | None => []
     end
  ++ [ ("total", JNumber (Z.of_nat (length (this_bookmarks this)))) ].

(** A collection of bookmark records. *)
Definition bookmarks_only (c : list Value) : Prop :=
  Forall (fun v => is_bookmark v = true) c.

(** A text with one bookmark that has a url only. *)
Definition untitled_import : JSONText :=
  JSONDoc (JObject
             [("bookmarks",
               JArray [JObject [("url", JString "https://example.com")]])]).

(** What holds of a bookmark built from an anchor under [currentPath]. *)
Definition anchored (currentPath : string) (b : Bookmark) : Prop :=
  NoDup (b_tags b) /\
  b_domain b = StringUtils.extractDomain (b_url b) /\
  b_folder b = or_string currentPath ROOT_FOLDER.

(** An item of the tree under [currentPath]: its bookmarks are anchored
    there, those of a folder under the path of the folder. *)
#[warnings="-register-all"] Inductive item_ok : string -> Item -> Prop :=
  | bookmark_ok currentPath b :
      anchored currentPath b -> item_ok currentPath (BookmarkItem b)
  | folder_ok currentPath id title path parentPath items :
      Forall (item_ok path) items ->
      item_ok currentPath (FolderItem id title path parentPath items).

(** A recursive call of [walk] that yields such items only. *)
Definition walker_ok (w : Walker) : Prop :=
  forall path t items t',
    w path t = Ok (items, t') -> Forall (item_ok path) items.

Definition item_path (item : Item) : option string :=
  match item with
  | FolderItem _ _ path _ _ => Some path
  | BookmarkItem _ => None
  end.

(** The paths of the folders of the flat list. *)
Definition item_paths (folders : list Item) : list string :=
  omap item_path folders.

(** The invariant of [flatten] on its two arrays. *)
Definition flat_ok (acc : list Bookmark * list Item) : Prop :=
  Forall (fun b => NoDup (b_tags b) /\
                   b_domain b = StringUtils.extractDomain (b_url b) /\
                   (b_folder b = ROOT_FOLDER \/
                    b_folder b ∈ item_paths (snd acc)))
    (fst acc).
End Notions.

(** ** Sample inputs *)

Definition leaf (id title url : string) : BookmarkTreeNode :=
  TreeNode (Some id) (Some title) (Some url) None None.

Definition container (id title : string) (nodes : list BookmarkTreeNode)
  : BookmarkTreeNode :=
  TreeNode (Some id) (Some title) None None (Some nodes).

(** Two sibling folders of the same title, each with one bookmark. *)
Definition twin_folders : list BookmarkTreeNode :=
  [ container "1" "A" [leaf "2" "x" "http://x.example"];
    container "3" "A" [leaf "4" "y" "http://y.example"] ].

(** The state in which the leaf "4" of [twin_folders] is visited. *)
Definition twin_state : BookmarkAPI.ParseState :=
  BookmarkAPI.mkState []
    [ mkFolder (Some "1") "A" "A" "" []; mkFolder (Some "3") "A" "A" "" [] ]
    [ (Some "1", 0); (Some "3", 1) ] 0.


(** A real folder with a bookmark. *)
Definition docs_tree : list BookmarkTreeNode :=
  [ container "1" "Docs"
      [ leaf "2" "MDN Web Docs" "https://developer.mozilla.org";
        leaf "3" "Video blog" "https://www.youtube.com/bilibili" ] ].

(** The root node of the browser, which has an empty title. *)
Definition untitled_root : BookmarkTreeNode :=
  container "0" "" [ leaf "2" "x" "http://x.example"; container "5" "Docs" [] ].

(** A bookmark with the date it was added. *)
Definition dated_tree : list BookmarkTreeNode :=
  [ TreeNode (Some "1") (Some "MDN") (Some "https://developer.mozilla.org")
      (Some 1704067200000%Z) None ].

Definition dated_model : BookmarkAPI.t :=
  BookmarkAPI.mkAPI
    [ VObject
        [ ("id", VString "1"); ("title", VString "MDN");
          ("url", VString "https://developer.mozilla.org");
          ("folder", VString ROOT_FOLDER);
          ("dateAdded", VDate (Some 1704067200000%Z));
          ("description", VString "来自 developer.mozilla.org 的书签");
          ("tags", VArray []);
          ("domain", VString "developer.mozilla.org") ] ]
    (VArray []).

(** The first bookmark of the demonstration data, its date as a string. *)
Definition github : Value :=
  VObject
    [ ("id", VString "1"); ("title", VString "GitHub");
      ("url", VString "https://github.com");
      ("folder", VString "开发工具");
      ("dateAdded", VString "2024-01-01T00:00:00.000Z");
      ("description", VString "全球最大的代码托管平台");
      ("tags", VArray [VString "开发"; VString "代码"]);
      ("domain", VString "github.com") ].

Definition mdn : Value :=
  VObject
    [ ("id", VString "3"); ("title", VString "MDN Web Docs");
      ("url", VString "https://developer.mozilla.org");
      ("folder", VString "文档");
      ("dateAdded", VString "2024-01-03T00:00:00.000Z");
      ("description", VString "Web开发文档");
      ("tags", VArray [VString "文档"; VString "开发"]);
      ("domain", VString "developer.mozilla.org") ].

Definition plain_model : BookmarkAPI.t :=
  BookmarkAPI.mkAPI [github; mdn]
    (VArray
       [ VObject
           [ ("id", VString "f1"); ("title", VString "开发工具");
             ("path", VString "开发工具"); ("parentPath", VString "");
             ("children", VArray [github]) ] ]).

(** A bookmark that a JSON file passes through: no domain, a tag twice. *)
Definition raw_bookmark : JSON :=
  JObject [ ("title", JString "t");
            ("tags", JArray [JString "a"; JString "a"]) ].

(** A markup document: a folder with one link, and a link without HREF. *)
Definition sample_document : DomNode :=
  Element "HTML" []
    [ Element "BODY" []
        [ Element "DL" []
            [ Element "DT" [] [Element "H3" [] [TextNode "Work"]];
              Element "DL" []
                [ Element "DT" []
                    [ Element "A" [("href", "https://github.com/x")]
                        [TextNode "Repo"] ] ];
              Element "DT" [] [Element "A" [] [TextNode "nowhere"]] ] ] ].

(** ** Further notions: the native-tree parser *)

(** Every leaf that the traversal turns into a bookmark has a title
    property. *)
Fixpoint titled_leaves (node : BookmarkTreeNode) : bool :=
  match node with
  | TreeNode _ _ _ _ (Some nodes) => forallb titled_leaves nodes
  | TreeNode _ title url _ None =>
      negb (truthy url) || bool_decide (is_Some title)
  end.

(** The leaves with a non-empty url, in document order, each by its id,
    the title its bookmark is given, and its url. *)
Fixpoint leaves (node : BookmarkTreeNode)
  : list (option string * string * string) :=
  match node with
  | TreeNode id title url _ children =>
      match children with
      | Some nodes => concat (List.map leaves nodes)
      | None =>
          match url with
          | Some u =>
              if truthy_string u
              then [(id, or_string (default "" title) UNTITLED, u)] else []
          | None => []
          end
      end
  end.

(** The containers for which a Folder is created, in document order, each
    by its id and title. *)
Fixpoint created (node : BookmarkTreeNode) : list (option string * string) :=
  match node with
  | TreeNode id title _ _ (Some nodes) =>
      (if real_title title then [(id, default "" title)] else [])
      ++ concat (List.map created nodes)
  | TreeNode _ _ _ _ None => []
  end.

(** What [title.toLowerCase()] throws on an undefined title. *)
Definition NO_TITLE : Exn :=
  TypeError "Cannot read properties of undefined (reading 'toLowerCase')".

(** A folder is consistent with a list of bookmarks: its title and path
    are not empty, the path is built from the parent path and the title,
    and each of its children is one of the bookmarks and names the
    folder's path as its folder. *)
Definition folder_sound (bs : list Bookmark) (f : Folder) : Prop :=
  f_title f <> "" /\ f_path f <> "" /\
  f_path f = (if truthy_string (f_parentPath f)
              then f_parentPath f +:+ "/" +:+ f_title f else f_title f) /\
  Forall (fun b => b ∈ bs /\ b_folder b = f_path f) (f_children f).

(** The children of a folder are the bookmarks that name its path, in the
    order of the flat list. *)
Definition folder_complete (bs : list Bookmark) (f : Folder) : Prop :=
  f_children f = filter (fun b => b_folder b = f_path f) bs.

Section FurtherNotions.
Context `{Platform}.
Import BookmarkAPI.

(** The folders of the second state are those of the first, by id and
    path, followed by more. *)
Definition extends (st st' : ParseState) : Prop :=
  exists more,
    (fun f => (f_id f, f_path f)) <$> folders st'
    = ((fun f => (f_id f, f_path f)) <$> folders st) ++ more.

(** No two folders share an id or a path, and none has the root sentinel
    as its path. *)
Definition distinct_folders (fs : list Folder) : Prop :=
  NoDup (f_id <$> fs) /\ NoDup (f_path <$> fs) /\
  (ROOT_FOLDER ∉ f_path <$> fs).

(** The invariant of a traversal under [distinct_folders]. *)
Definition complete (st : ParseState) : Prop :=
  in_step st /\ placed st /\ ("" ∉ paths st) /\
  Forall (folder_complete (bookmarks st)) (folders st).
End FurtherNotions.

(** ** Further notions: the markup parser *)

(** The bookmarks and the folders of an item of the tree, in document
    order. *)
Fixpoint item_bookmarks (item : BookmarkAPI.Item) : list Bookmark :=
  match item with
  | BookmarkAPI.BookmarkItem b => [b]
  | BookmarkAPI.FolderItem _ _ _ _ items =>
      concat (List.map item_bookmarks items)
  end.

Fixpoint item_folders (item : BookmarkAPI.Item) : list BookmarkAPI.Item :=
  match item with
  | BookmarkAPI.BookmarkItem _ => []
  | BookmarkAPI.FolderItem _ _ _ _ items =>
      item :: concat (List.map item_folders items)
  end.

(** An item lies under [currentPath]: a bookmark names it as its folder
    (the root sentinel for the empty path); a folder has it as its parent
    path, its own path adds a slash and the title (the title alone at the
    top), and its items lie under the folder's path. *)
#[warnings="-register-all"] Inductive nested : string -> BookmarkAPI.Item -> Prop :=
  | nested_bookmark currentPath b :
      b_folder b = or_string currentPath ROOT_FOLDER ->
      nested currentPath (BookmarkAPI.BookmarkItem b)
  | nested_folder currentPath id title items :
      Forall (nested (if truthy_string currentPath
                      then currentPath +:+ "/" +:+ title else title)) items ->
      nested currentPath
        (BookmarkAPI.FolderItem id title
           (if truthy_string currentPath
            then currentPath +:+ "/" +:+ title else title)
           currentPath items).

(** A recursive call of [walk] that returns, and yields nested items. *)
Definition walker_total (w : BookmarkAPI.Walker) : Prop :=
  forall path t, returns (w path t).

Definition walker_nested (w : BookmarkAPI.Walker) : Prop :=
  forall path t items t',
    w path t = Ok (items, t') -> Forall (nested path) items.

(** ** js/api.js: loading from a file, outside the extension *)

Module FileLoader.
Import BookmarkAPI.

(** [s.endsWith(suffix)] *)
Definition endsWith (s suffix : string) : bool :=
  String.prefix (rev_string suffix) (rev_string s).

(** A file of the file dialog that FileReader reads without error: its
    name, and its content as [DOMParser] and as [JSON.parse] take it. *)
Record File : Type := mkFile {
  file_name : string;
  file_document : DomNode;
  file_json : JSONText
}.

(** What the file dialog reports: [oncancel], or [onchange] with no file
    or with a file. *)
Inductive Selection : Type :=
  | Cancelled
  | NoFile
  | Selected (file : File).

Definition NO_FILE : string := "未选择文件".
Definition CANCELLED : string := "用户取消了文件选择".
Definition UNSUPPORTED_FORMAT : string :=
  "不支持的文件格式，请选择HTML或JSON文件".

(** A folder or bookmark object of the markup parser, as a value. *)
Fixpoint Item_value (item : Item) : Value :=
  match item with
  | BookmarkItem bookmark => Bookmark_value bookmark
  | FolderItem id title path parentPath children =>
      VObject
        [ ("type", VString "folder"); ("id", VString id);
          ("title", VString title); ("path", VString path);
          ("parentPath", VString parentPath);
          ("children", VArray (List.map Item_value children)) ]
  end.

Section WithPlatform.
Context `{Platform}.

(** The [try] block of the [onchange] handler up to [result]: its
    [bookmarks] and [folders]. *)
Definition parse_file (file : File) (n : nat)
  : option (result (list Value * Value)) :=
  if endsWith (file_name file) ".html" then
    Some (let* (tree, bookmarks, folders) :=
            parseHTMLBookmarks (file_document file) n in
          Ok (Bookmark_value <$> bookmarks, VArray (Item_value <$> folders)))
  else if endsWith (file_name file) ".json" then
    parseJSONBookmarks (file_json file) n
  else Some (Throw (Error UNSUPPORTED_FORMAT)).

(** [getBookmarksFromFile()]: the instance when the promise is resolved,
    or the error it is rejected with. *)
Definition getBookmarksFromFile (this : t) (selection : Selection) (n : nat)
  : option (result t) :=
  match selection with
  | Cancelled => Some (Throw (Error CANCELLED))
  | NoFile => Some (Throw (Error NO_FILE))
  | Selected file =>
      r ← parse_file file n;
      Some (let* (bookmarks, folders) := r in
            Ok {| this_bookmarks := bookmarks; this_folders := folders |})
  end.

(** [getBookmarks()] where [isSupported] is false: the instance after the
    call and the object returned. *)
Definition getBookmarks (this : t) (selection : Selection) (n : nat)
  : option (t * Outcome) :=
  r ← getBookmarksFromFile this selection n;
  Some match r with
       | Ok this' =>
           (this', Success (this_bookmarks this') (this_folders this')
                     (length (this_bookmarks this')))
       | Throw error => (this, Failure (message error))
       end.
End WithPlatform.
End FileLoader.

(** ** js/utils.js: Storage *)

Module Storage.

(** [localStorage]: the text stored under each key. *)
Abbreviation Store := (gmap string JSONText).

(** The text [String(JSON.stringify(value))]; for a value that
    [JSON.stringify] maps to undefined it is the word undefined, which
    [JSON.parse] rejects. *)
Definition text_of (value : Value) : JSONText :=
  default (NotJSON "Unexpected token u in JSON at position 0")
    (JSON_stringify value).

Section WithQuota.
(** Whether [localStorage.setItem] stores the item, or throws because the
    quota is exceeded: the browser decides. *)
Variable accepts : Store -> string -> JSONText -> bool.

(** [Storage.set(key, value)]: a failure is logged and nothing else. *)
Definition set (key : string) (value : Value) (store : Store) : Store :=
  let text := text_of value in
  if accepts store key text then <[key := text]> store else store.
End WithQuota.

(** [Storage.get(key, defaultValue)]: an absent item is falsy, and the
    [catch] branch returns the default as well. *)
Definition get (key : string) (defaultValue : Value) (store : Store)
  : Value :=
  match store !! key with
  | Some item =>
      match JSON_parse item with
      | Ok value => value
      | Throw _ => defaultValue
      end
  | None => defaultValue
  end.

(** [Storage.remove(key)] *)
Definition remove (key : string) (store : Store) : Store := delete key store.
End Storage.

(** ** The application: class BookmarkManager

    The fields that the methods assign, and the methods up to their calls
    into the page (rendering, notifications), which read these fields and
    assign none of them. *)

Module BookmarkManager.

Record t : Type := mkManager {
  bookmarkAPI : BookmarkAPI.t;
  currentBookmarks : list Value;
  currentFolders : Value;
  filteredBookmarks : list Value;
  selectedFolder : option string;     (* [None] is null *)
  searchKeyword : string
}.

(** The assignments of the constructor. *)
Definition constructor : t :=
  {| bookmarkAPI := BookmarkAPI.constructor;
     currentBookmarks := []; currentFolders := VArray [];
     filteredBookmarks := []; selectedFolder := None; searchKeyword := "" |}.

(** [loadStoredData()]. [Throw]: the stored value has no [length] to
    read. [None]: the stored value has a positive [length] and is no
    array, which this embedding leaves open. *)
Definition loadStoredData (store : Storage.Store) (this : t)
  : option (result t) :=
  let storedBookmarks := Storage.get "bookmarks" (VArray []) store in
  let storedFolders := Storage.get "folders" (VArray []) store in
  match storedBookmarks with
  | VArray elements =>
      Some (Ok (if (0 <? length elements)%nat
                then {| bookmarkAPI := bookmarkAPI this;
                        currentBookmarks := elements;
                        currentFolders := storedFolders;
                        filteredBookmarks := elements;
                        selectedFolder := selectedFolder this;
                        searchKeyword := searchKeyword this |}
                else this))
  | VUndefined | VNull => Some (no_method storedBookmarks "length")
  | VString s => if truthy_string s then None else Some (Ok this)
  | VObject properties =>
      match own_property "length" properties with
      | VNumber n => if (0 <? n)%Z then None else Some (Ok this)
      | VUndefined | VNull | VBool false => Some (Ok this)
      | _ => None
      end
  | _ => Some (Ok this)
  end.

Section WithPlatform.
Context `{Platform}.


(** [exportBookmarks()]: the content handed to [FileUtils.download], or
    [None] when the guard returns first. The name of the file is not
    represented. *)
Definition exportBookmarks (this : t) (n : nat)
  : option (result (option JSONText)) :=
  if (length (currentBookmarks this) =? 0)%nat then None
  else Some (BookmarkAPI.exportBookmarks (bookmarkAPI this) n).
End WithPlatform.

Section WithQuota.
Variable accepts : Storage.Store -> string -> JSONText -> bool.

(** The [try] block of [importBookmarks()], [content] being the text read
    from the chosen file: the fields and the store afterwards. *)
Definition importBookmarks (content : JSONText) (this : t)
    (store : Storage.Store) : t * Storage.Store :=
  let '(api, result) :=
    BookmarkAPI.importBookmarks (bookmarkAPI this) content in
  match result with
  | BookmarkAPI.Success bookmarks folders _ =>
      let store :=
        Storage.set accepts "bookmarks" (VArray bookmarks) store in
      let store := Storage.set accepts "folders" folders store in
      ({| bookmarkAPI := api;
          currentBookmarks := bookmarks;
          currentFolders := folders;
          filteredBookmarks := bookmarks;
          selectedFolder := selectedFolder this;
          searchKeyword := searchKeyword this |}, store)
  | BookmarkAPI.Failure _ =>
      ({| bookmarkAPI := api;
          currentBookmarks := currentBookmarks this;
          currentFolders := currentFolders this;
          filteredBookmarks := filteredBookmarks this;
          selectedFolder := selectedFolder this;
          searchKeyword := searchKeyword this |}, store)
  end.
End WithQuota.
End BookmarkManager.

(** ** js/utils.js: TimeUtils and Throttle *)

Module TimeUtils.

(** The decimal numeral that a template literal gives a positive
    integer. *)
Definition decimal (n : Z) : string :=
  NilZero.string_of_uint (N.to_uint (Z.to_N n)).

Section WithPlatform.
Context `{Platform}.

(** [relative(date)], the clock having been read [t] times before;
    [date] is given as the Date that [new Date(date)] makes of it. The
    difference of an Invalid Date is NaN, which is greater than nothing;
    [Math.floor] of a quotient of integers is their integer quotient. *)
Definition relative (t : nat) (date : Date) : string :=
  let now := fst (BookmarkAPI.Date_now t) in
  match now, date with
  | Some now, Some target =>
      (let diff := now - target in
       let seconds := diff / 1000 in
       let minutes := seconds / 60 in
       let hours := minutes / 60 in
       let days := hours / 24 in
       if 0 <? days then decimal days +:+ "天前"
       else if 0 <? hours then decimal hours +:+ "小时前"
       else if 0 <? minutes then decimal minutes +:+ "分钟前"
       else "刚刚")%Z
  | _, _ => "刚刚"
  end.
End WithPlatform.
End TimeUtils.

Module Throttle.

(** One call of the function that [throttle(func, delay)] returns, at the
    time [now] that [Date.now()] reports: the new [lastCall], and whether
    [func] is applied. [lastCall] is assigned before [func] runs, so an
    exception of [func] does not change it. *)
Definition call (delay lastCall now : Z) : Z * bool :=
  if (delay <=? now - lastCall)%Z then (now, true) else (lastCall, false).

(** The times at which [func] is applied, of the calls made at [times] in
    this order. *)
Fixpoint applied (delay lastCall : Z) (times : list Z) : list Z :=
  match times with
  | [] => []
  | now :: times' =>
      let '(lastCall', run) := call delay lastCall now in
      if run then now :: applied delay lastCall' times'
      else applied delay lastCall' times'
  end.

(** [throttle(func, delay)]: [lastCall] starts at 0. *)
Definition throttle (delay : Z) (times : list Z) : list Z :=
  applied delay 0 times.
End Throttle.

(** ** js/api.js: class AIOrganizeAPI *)

Module AIOrganizeAPI.

(** The table [tagSuggestions]. *)
Definition tagSuggestions : list (string * list string) :=
  [ ("github.com", ["开源"; "代码"; "Git"]);
    ("stackoverflow.com", ["问答"; "编程"; "技术"]);
    ("developer.mozilla.org", ["文档"; "Web"; "API"]);
    ("vuejs.org", ["Vue"; "前端"; "框架"]);
    ("reactjs.org", ["React"; "前端"; "组件"]) ].

(** [table[key]] of an object literal: an own property, a built-in
    inherited from [Object.prototype], or undefined. *)
Inductive Slot (V : Type) : Type :=
  | Own (v : V)
  | Inherited
  | Undefined.
Arguments Own {V} v.
Arguments Inherited {V}.
Arguments Undefined {V}.

Definition read {V} (table : list (string * V)) (key : string) : Slot V :=
  match List.find (fun kv => String.eqb (fst kv) key) table with
  | Some kv => Own (snd kv)
  | None =>
      if bool_decide (key ∈ Object_prototype) then Inherited else Undefined
  end.

Section WithPlatform.
Context `{Platform}.

(** The labels pushed by the title rules, in rule order. *)
Definition title_tags (titleLower : string) (newTags : list string)
  : list string :=
  let newTags :=
    BookmarkAPI.push_if (includes titleLower "tutorial") "教程" newTags in
  let newTags :=
    BookmarkAPI.push_if (includes titleLower "guide") "指南" newTags in
  let newTags :=
    BookmarkAPI.push_if (includes titleLower "api") "API" newTags in
  let newTags :=
    BookmarkAPI.push_if (includes titleLower "doc") "文档" newTags in
  newTags.

(** [optimizeTags(title, url, existingTags)] for a string title and an
    array of tags; spreading a built-in into [push] throws. *)
Definition optimizeTags (title url : string) (existingTags : list string)
  : result (list string) :=
  let newTags := existingTags in
  let domain := StringUtils.extractDomain url in
  let titleLower := toLowerCase title in
  let* newTags :=
    match read tagSuggestions domain with
    | Own suggestions => Ok (newTags ++ suggestions)
    | Inherited =>
        Throw (TypeError
                 "Spread syntax requires ...iterable[Symbol.iterator] to be a function")
    | Undefined => Ok newTags
    end in
  let newTags := title_tags titleLower newTags in
  Ok (ArrayUtils.unique newTags).
End WithPlatform.

(** [optimizeTitle(title)]. The regular expressions count and match
    UTF-16 code units, so the title is taken as the list of its code
    units. *)
Definition CodeUnits : Type := list N.

(** What [\s] matches and [trim] removes: WhiteSpace and LineTerminator. *)
Definition is_space (c : N) : bool :=
  bool_decide (c ∈ [9; 10; 11; 12; 13; 32; 160; 5760; 8192; 8193; 8194;
                    8195; 8196; 8197; 8198; 8199; 8200; 8201; 8202; 8232;
                    8233; 8239; 8287; 12288; 65279]%N).

(** What [.] does not match: the line terminators. *)
Definition is_line_terminator (c : N) : bool :=
  bool_decide (c ∈ [10; 13; 8232; 8233]%N).

(** [s.replace(/\s+/g, ' ')]: [in_run] tells that the code unit before
    was white space. *)
Fixpoint replace_spaces (in_run : bool) (s : CodeUnits) : CodeUnits :=
  match s with
  | [] => []
  | c :: s' =>
      if is_space c
      then (if in_run then replace_spaces true s'
            else 32%N :: replace_spaces true s')
      else c :: replace_spaces false s'
  end.

Fixpoint drop_spaces (s : CodeUnits) : CodeUnits :=
  match s with
  | [] => []
  | c :: s' => if is_space c then drop_spaces s' else s
  end.

(** What is left when the white space at the end is removed. *)
Fixpoint trim_end (s : CodeUnits) : CodeUnits :=
  match s with
  | [] => []
  | c :: s' =>
      match trim_end s' with
      | [] => if is_space c then [] else [c]
      | rest => c :: rest
      end
  end.

(** [s.trim()] *)
Definition trim_units (s : CodeUnits) : CodeUnits :=
  trim_end (drop_spaces s).

Fixpoint drop_line (s : CodeUnits) : CodeUnits :=
  match s with
  | [] => []
  | c :: s' => if is_line_terminator c then s else drop_line s'
  end.

(** [s.replace(/^(.{50}).*/, '$1...')]: the expression matches at the
    start when the first 50 code units hold no line terminator, and then
    up to the next line terminator. *)
Definition cut (s : CodeUnits) : CodeUnits :=
  if (50 <=? length s)%nat
     && forallb (fun c => negb (is_line_terminator c)) (take 50 s)
  then take 50 s ++ [46; 46; 46]%N ++ drop_line (drop 50 s)
  else s.

Definition optimizeTitle (title : CodeUnits) : CodeUnits :=
  cut (trim_units (replace_spaces false title)).
End AIOrganizeAPI.

(** ** Further notions: sorting *)

(** The order that [sortBy] establishes between an item and a later one:
    ascending for the order 'asc', descending for every other order. *)
Definition sorted_by {A} (key : A -> Z) (order : string) (x y : A) : Prop :=
  if String.eqb order "asc" then (key x <= key y)%Z else (key y <= key x)%Z.

(** ** Further notions: titles *)

(** The white space of a title consists of single spaces: [spaced] tells
    that a space comes just before. *)
Fixpoint tidy (spaced : bool) (s : AIOrganizeAPI.CodeUnits) : bool :=
  match s with
  | [] => true
  | c :: s' =>
      if AIOrganizeAPI.is_space c
      then (c =? 32)%N && negb spaced && tidy true s'
      else tidy false s'
  end.

(** The title does not begin with white space. *)
Definition starts_clean (s : AIOrganizeAPI.CodeUnits) : bool :=
  match s with
  | [] => true
  | c :: _ => negb (AIOrganizeAPI.is_space c)
  end.

(** * Properties *)

(** ** Utilities *)

Section Unique.
Context {A : Type} `{EqDecision A}.
Implicit Types l seen : list A.

Lemma Set_add_fold l seen :
  fold_left ArrayUtils.Set_add l seen
  = seen ++ filter (fun y => y ∉ seen) (first_occurrences l).
Proof.
  revert seen. induction l as [|x l IH]; intros seen; simpl.
  { by rewrite filter_nil, app_nil_r. }
  rewrite IH. unfold ArrayUtils.Set_add, ArrayUtils.Set_has.
  case_bool_decide as Hx.
  - rewrite filter_cons_False by (intros Hn; by apply Hn).
    f_equal. rewrite list_filter_filter. apply list_filter_iff.
    intros y. split; [|by intros [??]]. intros Hy. split; [done|]. by intros ->.
  - rewrite filter_cons_True by done.
    rewrite <- app_assoc. simpl. do 2 f_equal.
    rewrite list_filter_filter. apply list_filter_iff.
    intros y. rewrite not_elem_of_app, list_elem_of_singleton. naive_solver.
Qed.

Lemma unique_first_occurrences l :
  ArrayUtils.unique l = first_occurrences l.
Proof.
  unfold ArrayUtils.unique, ArrayUtils.new_Set. rewrite Set_add_fold. simpl.
  induction (first_occurrences l) as [|y k IH]; [done|].
  rewrite filter_cons_True by apply not_elem_of_nil. by rewrite IH.
Qed.

Lemma first_occurrences_elem_of l x : x ∈ first_occurrences l ↔ x ∈ l.
Proof.
  induction l as [|y l IH]; simpl; [done|].
  rewrite !elem_of_cons, list_elem_of_filter, IH.
  destruct (decide (x = y)); tauto.
Qed.

Lemma first_occurrences_NoDup l : NoDup (first_occurrences l).
Proof.
  induction l as [|y l IH]; simpl; [constructor|].
  apply NoDup_cons. split.
  - rewrite list_elem_of_filter. by intros [Hy _].
  - by apply NoDup_filter.
Qed.

Lemma first_occurrences_sublist l : first_occurrences l `sublist_of` l.
Proof.
  induction l as [|y l IH]; simpl; [done|].
  apply sublist_skip. etrans; [apply sublist_filter|done].
Qed.

Lemma unique_NoDup l : NoDup (ArrayUtils.unique l).
Proof. rewrite unique_first_occurrences. apply first_occurrences_NoDup. Qed.

Lemma unique_elem_of l x : x ∈ ArrayUtils.unique l ↔ x ∈ l.
Proof. rewrite unique_first_occurrences. apply first_occurrences_elem_of. Qed.
End Unique.

Section Utilities.
Context `{Platform}.

Lemma extractDomain_parsed url hostname :
  URL_hostname url = Some hostname ->
  StringUtils.extractDomain url = hostname.
Proof. unfold StringUtils.extractDomain. by intros ->. Qed.

Lemma extractDomain_failed url :
  URL_hostname url = None -> StringUtils.extractDomain url = url.
Proof. unfold StringUtils.extractDomain. by intros ->. Qed.

Lemma extractDomain_no_scheme url :
  has_scheme url = false -> StringUtils.extractDomain url = url.
Proof.
  intros Hs. apply extractDomain_failed.
  destruct (URL_hostname url) as [h|] eqn:Hh; [|done].
  apply URL_hostname_scheme in Hh. congruence.
Qed.

(** C6. Domain extraction is a total function of its input: where the URL
    constructor accepts the input the result is the hostname, where it
    throws the result is the input itself; an input with no scheme, such
    as "not a url", is always of the second kind. *)
Theorem extractDomain_safe (url : string) :
  (forall hostname, URL_hostname url = Some hostname ->
                    StringUtils.extractDomain url = hostname) /\
  (URL_hostname url = None -> StringUtils.extractDomain url = url) /\
  (has_scheme url = false -> StringUtils.extractDomain url = url) /\
  StringUtils.extractDomain "not a url" = "not a url".
Proof.
  split; [apply extractDomain_parsed|].
  split; [apply extractDomain_failed|].
  split; [apply extractDomain_no_scheme|].
  by apply extractDomain_no_scheme.
Qed.

Lemma generateTags_defined title url :
  BookmarkAPI.generateTags (Some title) url
  = Ok (first_occurrences
          (BookmarkAPI.title_tags (toLowerCase title)
             (BookmarkAPI.domain_tags (StringUtils.extractDomain url) []))).
Proof.
  unfold BookmarkAPI.generateTags. by rewrite unique_first_occurrences.
Qed.

Lemma generateTags_NoDup title url tags :
  BookmarkAPI.generateTags title url = Ok tags -> NoDup tags.
Proof.
  destruct title as [title|]; [|done].
  rewrite generateTags_defined. intros [= <-].
  apply first_occurrences_NoDup.
Qed.
End Utilities.

(** ** The native-tree parser *)

Lemma BookmarkTreeNode_nested_ind (P : BookmarkTreeNode -> Prop) :
  (forall id title url dateAdded, P (TreeNode id title url dateAdded None)) ->
  (forall id title url dateAdded nodes,
      Forall P nodes -> P (TreeNode id title url dateAdded (Some nodes))) ->
  forall node, P node.
Proof.
  intros Hleaf Hfolder. fix IH 1. intros [id title url dateAdded [nodes|]].
  - apply Hfolder. induction nodes as [|n nodes IHnodes]; constructor.
    + apply IH.
    + apply IHnodes.
  - apply Hleaf.
Qed.

Section NativeTree.
Context `{Platform}.
Import BookmarkAPI.

Lemma traverse_node_folder id title url dateAdded nodes parentPath st :
  traverse_node (TreeNode id title url dateAdded (Some nodes)) parentPath st
  = traverse nodes
      (default "" (snd (enter_folder id title parentPath st)))
      (fst (enter_folder id title parentPath st)).
Proof.
  simpl. destruct (enter_folder id title parentPath st) as [st1 folderPath].
  simpl. generalize (default "" folderPath). intros p.
  revert st1. induction nodes as [|n nodes IH]; intros st1; [done|].
  simpl. destruct (traverse_node n p st1); simpl; [apply IH|done].
Qed.

Lemma traverse_node_leaf id title url dateAdded parentPath st :
  traverse_node (TreeNode id title url dateAdded None) parentPath st
  = match url with
    | Some u =>
        if truthy_string u
        then visit_bookmark id title u dateAdded parentPath st
        else Ok st
    | None => Ok st
    end.
Proof. done. Qed.

Lemma traverse_cons node nodes parentPath st :
  traverse (node :: nodes) parentPath st
  = let* st := traverse_node node parentPath st in
    traverse nodes parentPath st.
Proof. done. Qed.

Lemma traverse_app nodes1 nodes2 parentPath st :
  traverse (nodes1 ++ nodes2) parentPath st
  = let* st := traverse nodes1 parentPath st in
    traverse nodes2 parentPath st.
Proof.
  revert st. induction nodes1 as [|n nodes1 IH]; intros st; [done|].
  rewrite <- app_comm_cons, !traverse_cons.
  destruct (traverse_node n parentPath st); simpl; [apply IH|done].
Qed.



(** What a visited leaf adds. *)
Lemma visit_bookmark_Ok id title url dateAdded parentPath st st' :
  visit_bookmark id title url dateAdded parentPath st = Ok st' ->
  exists b,
    bookmarks st' = bookmarks st ++ [b] /\
    folders st'
    = match find_parentFolder st parentPath with
      | Some parentFolder => alter (push_child b) parentFolder (folders st)
      | None => folders st
      end /\
    folderMap st' = folderMap st /\
    b_url b = url /\
    b_folder b = or_string parentPath ROOT_FOLDER /\
    b_domain b = StringUtils.extractDomain url /\
    generateTags title url = Ok (b_tags b).
Proof.
  unfold visit_bookmark.
  destruct (match dateAdded with
            | Some ms => if (ms =? 0)%Z then Date_now (tick st)
                         else (new_Date ms, tick st)
            | None => Date_now (tick st)
            end) as [date t].
  destruct (generateTags title url) as [tags|e]; simpl; [|done].
  intros [= <-]. simpl. eexists. repeat split; reflexivity.
Qed.

Lemma enter_folder_bookmarks id title parentPath st :
  bookmarks (fst (enter_folder id title parentPath st)) = bookmarks st.
Proof.
  unfold enter_folder. destruct title as [t|]; [|done].
  by destruct (_ && _).
Qed.

(** A property of every bookmark that a visit adds holds of every bookmark
    of the result. *)
Lemma traverse_bookmarks_Forall (Q : Bookmark -> Prop) :
  (forall id title url dateAdded parentPath st st' b,
      truthy_string url = true ->
      visit_bookmark id title url dateAdded parentPath st = Ok st' ->
      bookmarks st' = bookmarks st ++ [b] -> Q b) ->
  forall nodes parentPath st st',
    traverse nodes parentPath st = Ok st' ->
    Forall Q (bookmarks st) -> Forall Q (bookmarks st').
Proof.
  intros Hvisit.
  assert (Hnode : forall node parentPath st st',
             traverse_node node parentPath st = Ok st' ->
             Forall Q (bookmarks st) -> Forall Q (bookmarks st')).
  { induction node as [id title url d|id title url d nodes IH]
      using BookmarkTreeNode_nested_ind; intros parentPath st st'.
    - rewrite traverse_node_leaf.
      destruct url as [u|]; [|by intros [= <-]].
      destruct (truthy_string u) eqn:Hu; [|by intros [= <-]].
      intros Hv HQ.
      destruct (visit_bookmark_Ok _ _ _ _ _ _ _ Hv) as (b & Hb & _).
      rewrite Hb. apply Forall_app. split; [done|].
      constructor; [|constructor]. eapply Hvisit; eauto.
    - rewrite traverse_node_folder.
      rewrite <- (enter_folder_bookmarks id title parentPath st).
      generalize (default "" (snd (enter_folder id title parentPath st))).
      generalize (fst (enter_folder id title parentPath st)).
      clear st. intros st p. revert st.
      induction IH as [|n nodes Hn _ IHnodes]; intros st.
      + by intros [= <-].
      + rewrite traverse_cons.
        destruct (traverse_node n p st) as [st1|e] eqn:H1; simpl; [|done].
        intros Hrest HQ. eapply IHnodes; eauto. }
  induction nodes as [|n nodes IH]; intros parentPath st st'.
  - by intros [= <-].
  - rewrite traverse_cons.
    destruct (traverse_node n parentPath st) as [st1|e] eqn:H1; simpl;
      [|done].
    intros Hrest HQ. eapply IH; eauto.
Qed.

Lemma parseBookmarkTree_Forall (Q : Bookmark -> Prop) :
  (forall id title url dateAdded parentPath st st' b,
      truthy_string url = true ->
      visit_bookmark id title url dateAdded parentPath st = Ok st' ->
      bookmarks st' = bookmarks st ++ [b] -> Q b) ->
  forall t nodes bs fs,
    parseBookmarkTree t nodes = Ok (bs, fs) -> Forall Q bs.
Proof.
  intros Hvisit t nodes bs fs. unfold parseBookmarkTree.
  destruct (traverse nodes "" _) as [st|e] eqn:Ht; simpl; [|done].
  intros [= <- <-].
  eapply traverse_bookmarks_Forall; [exact Hvisit|exact Ht|constructor].
Qed.

(** The tags, domain and url of the bookmarks of the native-tree parser. *)
Lemma parseBookmarkTree_bookmarks t nodes bs fs :
  parseBookmarkTree t nodes = Ok (bs, fs) ->
  Forall (fun b => NoDup (b_tags b) /\
                   b_domain b = StringUtils.extractDomain (b_url b) /\
                   truthy_string (b_url b) = true) bs.
Proof.
  apply parseBookmarkTree_Forall.
  intros id title url d parentPath st st' b Hu Hv Hb.
  destruct (visit_bookmark_Ok _ _ _ _ _ _ _ Hv)
    as (b' & Hb' & _ & _ & Hurl & _ & Hdom & Htags).
  rewrite Hb' in Hb. apply app_inj_tail in Hb as [_ ->].
  rewrite Hurl. eauto using generateTags_NoDup.
Qed.

(** *** Folders and the folder field *)

Lemma enter_folder_real id title parentPath st :
  real_title title = true ->
  exists t,
    title = Some t /\
    enter_folder id title parentPath st
    = ({| bookmarks := bookmarks st;
          folders := folders st
                     ++ [ {| f_id := id; f_title := t;
                             f_path := if truthy_string parentPath
                                       then parentPath +:+ "/" +:+ t else t;
                             f_parentPath := parentPath;
                             f_children := [] |} ];
          folderMap := Map_set id (length (folders st)) (folderMap st);
          tick := tick st |},
       Some (if truthy_string parentPath
             then parentPath +:+ "/" +:+ t else t)).
Proof.
  destruct title as [t|]; [|done]. simpl. intros Hreal.
  exists t. split; [done|]. unfold enter_folder. rewrite Hreal.
  by destruct (truthy_string parentPath).
Qed.

Lemma enter_folder_pseudo id title parentPath st :
  real_title title = false ->
  fst (enter_folder id title parentPath st) = st.
Proof.
  unfold enter_folder. destruct title as [t|]; [|done]. simpl.
  by intros ->.
Qed.

Lemma fmap_alter_push_child {B} (proj : Folder -> B) b i (l : list Folder) :
  (forall f, proj (push_child b f) = proj f) ->
  proj <$> alter (push_child b) i l = proj <$> l.
Proof.
  intros Hproj. rewrite (list_fmap_alter proj (push_child b) id).
  - by apply list_alter_id.
  - apply Forall_forall. intros f _. apply Hproj.
Qed.

Lemma visit_bookmark_fmap {B} (proj : Folder -> B)
    id title url dateAdded parentPath st st' :
  (forall b f, proj (push_child b f) = proj f) ->
  visit_bookmark id title url dateAdded parentPath st = Ok st' ->
  proj <$> folders st' = proj <$> folders st.
Proof.
  intros Hproj Hv.
  destruct (visit_bookmark_Ok _ _ _ _ _ _ _ Hv) as (b & _ & -> & _).
  destruct (find_parentFolder st parentPath); [|done].
  by apply fmap_alter_push_child.
Qed.

Lemma placed_mono st st' :
  bookmarks st' = bookmarks st ->
  (forall p, p ∈ paths st -> p ∈ paths st') ->
  placed st -> placed st'.
Proof.
  unfold placed. intros -> Hsub Hp. eapply Forall_impl; [exact Hp|].
  intros b [?|?]; auto.
Qed.




(** *** The lookup of the parent folder *)

Lemma Map_set_fresh {K V} `{EqDecision K} (k : K) (v : V) m :
  k ∉ m.*1 -> Map_set k v m = m ++ [(k, v)].
Proof.
  induction m as [|[k' v'] m IH]; simpl; [done|].
  rewrite not_elem_of_cons. intros [Hk Hm].
  rewrite decide_False by done. by rewrite IH.
Qed.

Lemma find_seq_lookup parentPath (l1 l2 : list Folder) :
  List.find
    (fun r => match (l1 ++ l2) !! r with
              | Some f => bool_decide (f_path f = parentPath)
              | None => false
              end)
    (seq (length l1) (length l2))
  = (fun x => length l1 + fst x)
      <$> list_find (fun f => f_path f = parentPath) l2.
Proof.
  revert l1. induction l2 as [|f l2 IH]; intros l1; [done|].
  simpl seq. simpl List.find. rewrite list_lookup_middle by done.
  simpl list_find. case_bool_decide as Hf.
  - rewrite decide_True by done. simpl. f_equal. lia.
  - rewrite decide_False by done.
    specialize (IH (l1 ++ [f])). rewrite <- app_assoc in IH. simpl in IH.
    rewrite length_app in IH. simpl in IH.
    replace (length l1 + 1) with (S (length l1)) in IH by lia.
    rewrite IH. destruct (list_find _ l2) as [[i g]|]; simpl; [|done].
    f_equal. lia.
Qed.

Lemma find_parentFolder_synced st parentPath :
  synced st ->
  find_parentFolder st parentPath
  = fst <$> list_find (fun f => f_path f = parentPath) (folders st).
Proof.
  unfold synced, find_parentFolder, Map_values. intros ->.
  change (List.map snd ?l) with (l.*2).
  rewrite snd_zip by (by rewrite length_fmap, length_seq).
  pose proof (find_seq_lookup parentPath [] (folders st)) as Hfind.
  simpl in Hfind. rewrite Hfind.
  by destruct (list_find _ (folders st)) as [[i g]|].
Qed.

(** C3, as the code has it. When a leaf is visited in a state whose
    folder map holds every folder in creation order (no two folders share
    an id), the bookmark is pushed on the children of the first-added
    folder whose path equals the parent path, whatever folders with the
    same path were added later; with no such folder, no folder changes. *)
Theorem bookmark_attached_to_first_match
    id title url dateAdded parentPath st st' :
  synced st ->
  visit_bookmark id title url dateAdded parentPath st = Ok st' ->
  exists b,
    bookmarks st' = bookmarks st ++ [b] /\
    (forall i f,
        folders st !! i = Some f -> f_path f = parentPath ->
        (forall j g, folders st !! j = Some g -> j < i ->
                     f_path g <> parentPath) ->
        folders st' = alter (push_child b) i (folders st)) /\
    ((forall f, f ∈ folders st -> f_path f <> parentPath) ->
     folders st' = folders st).
Proof.
  intros Hsync Hv.
  destruct (visit_bookmark_Ok _ _ _ _ _ _ _ Hv) as (b & Hb & Hf & _).
  exists b. split; [done|]. rewrite Hf, (find_parentFolder_synced _ _ Hsync).
  split.
  - intros i f Hi Hpath Hfirst.
    assert (Hfind : list_find (fun f => f_path f = parentPath) (folders st)
                    = Some (i, f)).
    { apply list_find_Some. split; [done|]. split; [done|].
      intros j g Hj Hlt. by apply (Hfirst j g). }
    by rewrite Hfind.
  - intros Hnone.
    assert (Hfind : list_find (fun f => f_path f = parentPath) (folders st)
                    = None).
    { apply list_find_None, Forall_forall. intros f Hin. by apply Hnone. }
    by rewrite Hfind.
Qed.

(** *** The folder map stays in step with the folders *)

Lemma later_duplicates_empty_snoc l f :
  later_duplicates_empty l -> f_children f = [] ->
  later_duplicates_empty (l ++ [f]).
Proof.
  intros Hl Hf i j fi fj Hij Hi Hj Hpath.
  apply lookup_app_Some in Hj as [Hj|[Hlen Hj]].
  - apply lookup_app_Some in Hi as [Hi|[Hlen _]].
    + by eapply (Hl i j).
    + apply lookup_lt_Some in Hj. lia.
  - apply list_lookup_singleton_Some in Hj as [_ <-]. done.
Qed.

Lemma later_duplicates_empty_alter l b i f :
  later_duplicates_empty l ->
  list_find (fun g => f_path g = f_path f) l = Some (i, f) ->
  later_duplicates_empty (alter (push_child b) i l).
Proof.
  intros Hl Hfind i1 j fi fj Hij Hi Hj Hpath.
  apply list_find_Some in Hfind as (Hif & _ & Hfirst).
  destruct (decide (j = i)) as [->|Hne].
  - (* the altered folder is the first of its path *)
    rewrite list_lookup_alter_eq, Hif in Hj. simpl in Hj.
    injection Hj as <-.
    rewrite list_lookup_alter_ne in Hi by lia.
    exfalso. by apply (Hfirst i1 fi).
  - rewrite list_lookup_alter_ne in Hj by done.
    destruct (decide (i1 = i)) as [->|Hne1].
    + rewrite list_lookup_alter_eq, Hif in Hi. simpl in Hi.
      injection Hi as <-. by eapply (Hl i j f fj).
    + rewrite list_lookup_alter_ne in Hi by done. by eapply (Hl i1 j).
Qed.

Lemma visit_bookmark_in_step id title url dateAdded parentPath st st' :
  visit_bookmark id title url dateAdded parentPath st = Ok st' ->
  in_step st -> in_step st' /\ ids st' = ids st.
Proof.
  intros Hv [Hsync Hdup].
  assert (Hids : ids st' = ids st) by (by eapply visit_bookmark_fmap).
  destruct (visit_bookmark_Ok _ _ _ _ _ _ _ Hv) as (b & _ & Hf & Hmap & _).
  split; [split|done].
  - unfold synced. unfold ids in Hids. rewrite Hmap, Hids, Hsync.
    do 2 f_equal. rewrite <- !(length_fmap f_id). by rewrite Hids.
  - rewrite Hf, (find_parentFolder_synced _ _ Hsync).
    destruct (list_find _ (folders st)) as [[i f]|] eqn:Hfind; [|done].
    simpl. eapply later_duplicates_empty_alter; [done|].
    pose proof Hfind as (_ & <- & _)%list_find_Some. exact Hfind.
Qed.

Lemma enter_folder_in_step id title parentPath st :
  in_step st ->
  NoDup (ids st ++ (if real_title title then [id] else [])) ->
  in_step (fst (enter_folder id title parentPath st)) /\
  ids (fst (enter_folder id title parentPath st))
  = ids st ++ (if real_title title then [id] else []).
Proof.
  intros [Hsync Hdup] Hfresh.
  destruct (real_title title) eqn:Hreal.
  - destruct (enter_folder_real id title parentPath st Hreal)
      as (t & -> & ->). simpl.
    assert (Hid : id ∉ ids st).
    { apply NoDup_app in Hfresh as (_ & Hdisj & _).
      intros Hin. apply (Hdisj id Hin). by left. }
    split; [split|].
    + unfold synced. simpl. rewrite Map_set_fresh.
      * rewrite Hsync, length_app, fmap_app. simpl.
        rewrite Nat.add_1_r, seq_S. simpl.
        rewrite zip_with_app by (by rewrite length_fmap, length_seq).
        done.
      * rewrite Hsync, fst_zip by (by rewrite length_fmap, length_seq).
        done.
    + simpl. by apply later_duplicates_empty_snoc.
    + unfold ids. simpl. by rewrite fmap_app.
  - rewrite enter_folder_pseudo by done. by rewrite app_nil_r.
Qed.

Lemma traverse_node_in_step node :
  forall parentPath st st',
    traverse_node node parentPath st = Ok st' ->
    NoDup (ids st ++ created_ids node) -> in_step st ->
    in_step st' /\ ids st' = ids st ++ created_ids node.
Proof.
  induction node as [id title url d|id title url d nodes IH]
    using BookmarkTreeNode_nested_ind; intros parentPath st st'.
  - rewrite traverse_node_leaf. simpl. rewrite app_nil_r.
    destruct url as [u|]; [|by intros [= <-]].
    destruct (truthy_string u); [|by intros [= <-]].
    intros Hv _ Hstep. by eapply visit_bookmark_in_step.
  - rewrite traverse_node_folder. simpl created_ids.
    intros Htr Hfresh Hstep.
    destruct (enter_folder_in_step id title parentPath st Hstep)
      as [Hstep1 Hids1].
    { rewrite app_assoc in Hfresh. by apply NoDup_app in Hfresh as [? _]. }
    rewrite app_assoc, <- Hids1. rewrite app_assoc, <- Hids1 in Hfresh.
    revert Htr Hfresh Hstep1.
    generalize (default "" (snd (enter_folder id title parentPath st))).
    generalize (fst (enter_folder id title parentPath st)).
    intros st1 p. revert st1.
    induction IH as [|n nodes Hn _ IHnodes]; intros st1.
    + intros [= <-] _ Hstep1. simpl. by rewrite app_nil_r.
    + rewrite traverse_cons. simpl concat.
      destruct (traverse_node n p st1) as [st2|e] eqn:H2; simpl; [|done].
      intros Hrest Hfresh Hstep1. rewrite app_assoc in Hfresh.
      destruct (Hn p st1 st2 H2) as [Hstep2 Hids2]; [|done|].
      { by apply NoDup_app in Hfresh as [? _]. }
      rewrite app_assoc, <- Hids2. apply IHnodes; [done| |done].
      by rewrite Hids2.
Qed.

Lemma traverse_in_step nodes :
  forall parentPath st st',
    traverse nodes parentPath st = Ok st' ->
    NoDup (ids st ++ concat (List.map created_ids nodes)) -> in_step st ->
    in_step st' /\ ids st' = ids st ++ concat (List.map created_ids nodes).
Proof.
  induction nodes as [|n nodes IH]; intros parentPath st st'.
  - intros [= <-] _ Hstep. simpl. by rewrite app_nil_r.
  - rewrite traverse_cons. simpl concat.
    destruct (traverse_node n parentPath st) as [st1|e] eqn:H1; simpl;
      [|done].
    intros Hrest Hfresh Hstep. rewrite app_assoc in Hfresh.
    destruct (traverse_node_in_step n _ _ _ H1) as [Hstep1 Hids1]; [|done|].
    { by apply NoDup_app in Hfresh as [? _]. }
    rewrite app_assoc, <- Hids1. eapply IH; [done| |done].
    by rewrite Hids1.
Qed.

(** With pairwise distinct folder ids, every state of a parse has its
    folder map in step, and in the result a folder that repeats the path
    of an earlier folder has received no bookmark. *)
Lemma parseBookmarkTree_first_match t nodes bs fs :
  NoDup (concat (List.map created_ids nodes)) ->
  parseBookmarkTree t nodes = Ok (bs, fs) ->
  later_duplicates_empty fs.
Proof.
  intros Hfresh. unfold parseBookmarkTree.
  destruct (traverse nodes "" _) as [st|e] eqn:Ht; simpl; [|done].
  intros [= <- <-].
  apply traverse_in_step in Ht as [[_ Hdup] _]; [done|done|].
  split; [done|]. intros i j fi fj _ Hi. done.
Qed.
End NativeTree.

(** ** JSON *)

Lemma Value_nested_ind (P : Value -> Prop) :
  P VUndefined -> P VNull -> (forall b, P (VBool b)) ->
  (forall n, P (VNumber n)) -> (forall s, P (VString s)) ->
  (forall d, P (VDate d)) ->
  (forall elements, Forall P elements -> P (VArray elements)) ->
  (forall properties,
      Forall (fun kv => P (snd kv)) properties -> P (VObject properties)) ->
  forall v, P v.
Proof.
  intros Hu Hn Hb Hz Hs Hd Ha Ho. fix IH 1.
  intros [| |b|n|s|d|l|ps];
    [apply Hu|apply Hn|apply Hb|apply Hz|apply Hs|apply Hd|..].
  - apply Ha. induction l as [|x l IHl]; constructor; [apply IH|apply IHl].
  - apply Ho. induction ps as [|[k x] ps IHps]; constructor;
      [apply IH|apply IHps].
Qed.

Lemma SerializeJSONProperty_array l :
  SerializeJSONProperty (VArray l)
  = Some (JArray ((fun e => default JNull (SerializeJSONProperty e)) <$> l)).
Proof. done. Qed.

Lemma InternalizeJSON_array l :
  InternalizeJSON (JArray l) = VArray (InternalizeJSON <$> l).
Proof. done. Qed.

Lemma JSON_image_array l :
  InternalizeJSON (default JNull (SerializeJSONProperty (VArray l)))
  = VArray (JSON_image <$> l).
Proof.
  rewrite SerializeJSONProperty_array. simpl default.
  rewrite InternalizeJSON_array. f_equal.
  by rewrite <- list_fmap_compose.
Qed.

Lemma SerializeJSONProperty_object ps :
  SerializeJSONProperty (VObject ps) = Some (JObject (serialize_members ps)).
Proof.
  simpl. do 2 f_equal. induction ps as [|[k e] ps IH]; [done|].
  unfold serialize_members. simpl. rewrite IH.
  by destruct (SerializeJSONProperty e).
Qed.

Lemma InternalizeJSON_object ms :
  InternalizeJSON (JObject ms) = VObject (define_members ms []).
Proof.
  simpl. f_equal. unfold define_members. generalize (@nil (string * Value)).
  induction ms as [|[k e] ms IH]; intros acc; [done|]. simpl. apply IH.
Qed.

Lemma define_members_fresh ms acc :
  NoDup (acc.*1 ++ ms.*1) ->
  define_members ms acc
  = acc ++ ((fun kv => (fst kv, InternalizeJSON (snd kv))) <$> ms).
Proof.
  revert acc. induction ms as [|[k e] ms IH]; intros acc Hnd; simpl.
  { by rewrite app_nil_r. }
  unfold define_members in *. simpl. rewrite Map_set_fresh.
  - rewrite IH.
    + by rewrite <- app_assoc.
    + rewrite fmap_app. simpl. by rewrite <- app_assoc.
  - apply NoDup_app in Hnd as (_ & Hdisj & _). intros Hin.
    apply (Hdisj k Hin). simpl. by left.
Qed.

(** A plain value comes back from serialization as it went in. *)
Lemma json_plain_round_trip v :
  json_plain v = true ->
  exists j, SerializeJSONProperty v = Some j /\ InternalizeJSON j = v.
Proof.
  induction v as [| |b|n|s|d|l IH|ps IH] using Value_nested_ind;
    try done; try (by intros _; eexists).
  - (* arrays *)
    simpl json_plain. intros Hl. eexists. split; [reflexivity|].
    change (InternalizeJSON
              (default JNull (SerializeJSONProperty (VArray l))) = VArray l).
    rewrite JSON_image_array. f_equal.
    induction IH as [|x l Hx _ IHl]; [done|].
    simpl in Hl. apply andb_prop in Hl as [Hpx Hpl].
    rewrite fmap_cons. f_equal; [|by apply IHl].
    destruct (Hx Hpx) as (j & Hj & Hback). unfold JSON_image. by rewrite Hj.
  - (* objects *)
    simpl json_plain. intros Hps. apply andb_prop in Hps as [Hnd Hps].
    apply bool_decide_eq_true in Hnd.
    rewrite SerializeJSONProperty_object. eexists. split; [reflexivity|].
    rewrite InternalizeJSON_object.
    assert (Hmembers :
              (serialize_members ps).*1 = ps.*1 /\
              (fun kv => (fst kv, InternalizeJSON (snd kv)))
                <$> serialize_members ps = ps).
    { clear Hnd. induction IH as [|[k x] ps Hx _ IHps]; [done|].
      simpl in Hps. apply andb_prop in Hps as [Hpx Hpps].
      destruct (Hx Hpx) as (j & Hj & Hback). simpl in Hj, Hback.
      unfold serialize_members. simpl. rewrite Hj. simpl.
      destruct (IHps Hpps) as [Hk Hv]. unfold serialize_members in Hk, Hv.
      split; f_equal; [done|by rewrite Hback|done]. }
    destruct Hmembers as [Hk Hv].
    rewrite define_members_fresh by (simpl; by rewrite Hk).
    simpl. by rewrite Hv.
Qed.

Lemma json_plain_image v : json_plain v = true -> JSON_image v = v.
Proof.
  intros (j & Hj & Hback)%json_plain_round_trip.
  unfold JSON_image. by rewrite Hj.
Qed.

Lemma json_plain_property_image v :
  json_plain v = true -> JSON_property_image v = v.
Proof.
  intros (j & Hj & Hback)%json_plain_round_trip.
  unfold JSON_property_image. by rewrite Hj.
Qed.

(** ** Import and export *)

Section Codec.
Context `{Platform}.
Import BookmarkAPI.

Lemma serialize_members_cons k e ps :
  serialize_members ((k, e) :: ps)
  = match SerializeJSONProperty e with
    | Some j => (k, j) :: serialize_members ps
    | None => serialize_members ps
    end.
Proof.
  unfold serialize_members. simpl. by destruct (SerializeJSONProperty e).
Qed.

Lemma Date_now_valid n : fst (Date_now n) = Some (clock n).
Proof.
  unfold Date_now, new_Date. simpl.
  pose proof (clock_valid n). by rewrite (proj2 (Z.leb_le _ _)).
Qed.

Lemma keys_NoDup (keys : list string) :
  bool_decide (NoDup keys) = true -> NoDup keys.
Proof. apply bool_decide_eq_true. Qed.

Lemma exportBookmarks_text this n :
  exportBookmarks this n
  = Ok (Some (JSONDoc (JObject (export_members this n)))).
Proof.
  unfold exportBookmarks. rewrite Date_now_valid.
  cbv beta iota delta [bind toISOString].
  unfold JSON_stringify. rewrite SerializeJSONProperty_object.
  rewrite !serialize_members_cons, SerializeJSONProperty_array.
  unfold export_members.
  by destruct (SerializeJSONProperty (this_folders this)).
Qed.

Lemma import_exported this0 this n :
  importBookmarks this0 (JSONDoc (JObject (export_members this n)))
  = (round_trip this,
     Success (this_bookmarks (round_trip this))
       (this_folders (round_trip this))
       (length (this_bookmarks this))).
Proof.
  unfold importBookmarks, import_try, JSON_parse.
  rewrite InternalizeJSON_object.
  unfold export_members, round_trip, JSON_property_image.
  destruct (SerializeJSONProperty (this_folders this)) as [j|].
  - rewrite define_members_fresh by (by apply keys_NoDup).
    rewrite app_nil_l. cbn [app fmap list_fmap fst snd].
    rewrite InternalizeJSON_array, <- list_fmap_compose.
    cbn [bind get own_property List.find fst snd String.eqb Ascii.eqb
         Bool.eqb truthy_value Array_isArray negb orb elements_of
         this_bookmarks this_folders].
    by rewrite !length_fmap.
  - rewrite define_members_fresh by (by apply keys_NoDup).
    rewrite app_nil_l. cbn [app fmap list_fmap fst snd].
    rewrite InternalizeJSON_array, <- list_fmap_compose.
    cbn [bind get own_property List.find fst snd String.eqb Ascii.eqb
         Bool.eqb truthy_value Array_isArray negb orb elements_of
         this_bookmarks this_folders].
    by rewrite !length_fmap.
Qed.

End Codec.

(** ** The query engine *)

Section QueryEngine.
Context `{Platform}.
Import BookmarkAPI.
Implicit Types c : list Value.

Lemma Array_filter_total callback (p : Value -> bool) c :
  Forall (fun v => callback v = Ok (p v)) c ->
  Array_filter callback c = Ok (List.filter p c).
Proof.
  induction 1 as [|v c Hv _ IH]; [done|].
  simpl. rewrite Hv, IH. simpl. by destruct (p v).
Qed.

Lemma Array_filter_throws callback c v e :
  v ∈ c -> callback v = Throw e -> throws (Array_filter callback c).
Proof.
  induction 1 as [v c|v w c _ IH]; intros Hv; simpl.
  - rewrite Hv. by eexists.
  - destruct (callback w); simpl; [|by eexists].
    destruct (IH Hv) as [e' ->]. by eexists.
Qed.

Lemma Array_some_strings term tags :
  forallb is_string tags = true ->
  Array_some
    (fun tag => let* lower := call_toLowerCase tag in
                Ok (includes lower term)) tags
  = Ok (existsb (fun tag => includes (toLowerCase (string_of tag)) term)
          tags).
Proof.
  induction tags as [|tag tags IH]; [done|]. simpl.
  intros [Htag Htags]%andb_prop. destruct tag; try done. simpl.
  destruct (includes _ term); [done|]. by apply IH.
Qed.

Lemma search_callback_bookmark term v :
  is_bookmark v = true ->
  search_callback term v = Ok (keyword_match term v).
Proof.
  destruct v as [| | | | | | |ps]; try done. unfold is_bookmark.
  intros ((((Ht & Hu)%andb_prop & Hd)%andb_prop & Hf)%andb_prop
          & Htags)%andb_prop.
  unfold search_callback, keyword_match, field_includes, tags_some, get.
  unfold field in *.
  destruct (own_property "title" ps); try done.
  destruct (own_property "url" ps); try done.
  destruct (own_property "description" ps); try done.
  destruct (own_property "folder" ps); try done.
  destruct (own_property "tags" ps) as [| | | | | |tags|]; try done.
  simpl. rewrite (Array_some_strings term tags Htags).
  repeat (destruct (includes _ term); [done|]; simpl). done.
Qed.

Lemma folder_callback_object folderName v :
  is_bookmark v = true ->
  folder_callback folderName v = Ok (folder_match folderName v).
Proof. by destruct v. Qed.

Lemma tag_callback_bookmark tag v :
  is_bookmark v = true -> tag_callback tag v = Ok (tag_match tag v).
Proof.
  destruct v as [| | | | | | |ps]; try done. unfold is_bookmark.
  intros [_ Htags]%andb_prop.
  unfold tag_callback, tag_match, get, field in *.
  by destruct (own_property "tags" ps).
Qed.

Lemma filter_true c : List.filter (fun _ => true) c = c.
Proof. induction c as [|v c IH]; [done|]. simpl. by rewrite IH. Qed.

Lemma filter_orb_true (b : bool) (p : Value -> bool) c :
  List.filter (fun v => b || p v) c = if b then c else List.filter p c.
Proof. destruct b; [apply filter_true|done]. Qed.

(** On bookmark records each query returns, and returns the bookmarks
    that it lets through, in their order. *)
Lemma apply_query_bookmarks this q c :
  bookmarks_only c ->
  apply_query this q (VArray c) = Ok (VArray (List.filter (query_match q) c)).
Proof.
  intros Hc. destruct q as [keyword|folderName|tag];
    unfold apply_query, query_match.
  - unfold searchBookmarks, target. simpl or_value.
    rewrite filter_orb_true. fold (blank keyword).
    destruct (blank keyword); [done|]. simpl.
    rewrite (Array_filter_total _ (keyword_match (trim (toLowerCase keyword))));
      [done|].
    eapply Forall_impl; [exact Hc|]. intros v. apply search_callback_bookmark.
  - unfold filterByFolder, target. simpl or_value.
    rewrite filter_orb_true.
    destruct (negb (truthy_string folderName)); [done|]. simpl.
    rewrite (Array_filter_total _ (folder_match folderName)); [done|].
    eapply Forall_impl; [exact Hc|]. intros v. apply folder_callback_object.
  - unfold filterByTag, target. simpl or_value.
    rewrite filter_orb_true.
    destruct (negb (truthy_string tag)); [done|]. simpl.
    rewrite (Array_filter_total _ (tag_match tag)); [done|].
    eapply Forall_impl; [exact Hc|]. intros v. apply tag_callback_bookmark.
Qed.

Lemma bookmarks_only_filter p c :
  bookmarks_only c -> bookmarks_only (List.filter p c).
Proof.
  unfold bookmarks_only. rewrite !Forall_forall. intros Hc v Hv.
  apply Hc. apply list_elem_of_In in Hv. apply filter_In in Hv as [Hv _].
  by apply list_elem_of_In.
Qed.



Lemma List_filter_sublist (p : Value -> bool) c :
  List.filter p c `sublist_of` c.
Proof.
  induction c as [|v c IH]; [done|]. simpl.
  destruct (p v); [by apply sublist_skip|by apply sublist_cons].
Qed.

Lemma no_method_throws {A} v name : throws (@no_method A v name).
Proof. destruct v; by eexists. Qed.

Lemma throws_not_returns {A} (r : result A) : throws r -> ~ returns r.
Proof. intros [e ->] [a Ha]. discriminate. Qed.

Lemma returns_Ok {A} (a : A) : returns (Ok a).
Proof. by eexists. Qed.

Lemma Array_filter_returns callback c :
  returns (Array_filter callback c) <->
  Forall (fun v => returns (callback v)) c.
Proof.
  induction c as [|v c IH]; simpl.
  - split; [constructor|intros _; apply returns_Ok].
  - rewrite Forall_cons, <- IH.
    destruct (callback v) as [keep|e]; simpl.
    + destruct (Array_filter callback c) as [rest|e]; simpl.
      * split; [intros _; split; apply returns_Ok|intros _; apply returns_Ok].
      * split; [by intros [? ?]|by intros [_ [? ?]]].
    + split; [by intros [? ?]|by intros [[? ?] _]].
Qed.

Lemma Array_some_returns term tags :
  returns
    (Array_some
       (fun tag => let* lower := call_toLowerCase tag in
                   Ok (includes lower term)) tags)
  <-> strings_until_match term tags = true.
Proof.
  induction tags as [|tag tags IH]; simpl.
  - split; [done|intros _; apply returns_Ok].
  - destruct tag; simpl;
      try (split; [by intros [? ?]|done]).
    destruct (includes _ term); simpl; [|exact IH].
    split; [done|intros _; apply returns_Ok].
Qed.

(** The search callback returns exactly on the searchable values. *)
Lemma search_callback_returns term v :
  returns (search_callback term v) <-> searchable term v = true.
Proof.
  assert (Hno : forall A o name, ~ returns (@no_method A o name)).
  { intros A o name. apply throws_not_returns, no_method_throws. }
  unfold search_callback, searchable, field_includes, tags_some.
  destruct v as [| | | | | | |ps]; simpl;
    try (split; [by intros [? ?]|done]).
  destruct (own_property "title" ps); simpl;
    try (split; [by intros [? ?]|done]).
  destruct (includes _ term); simpl; [split; [done|intros _; apply returns_Ok]|].
  destruct (own_property "url" ps); simpl;
    try (split; [by intros [? ?]|done]).
  destruct (includes _ term); simpl; [split; [done|intros _; apply returns_Ok]|].
  destruct (own_property "description" ps); simpl;
    try (split; [by intros [? ?]|done]).
  destruct (includes _ term); simpl; [split; [done|intros _; apply returns_Ok]|].
  destruct (own_property "folder" ps); simpl;
    try (split; [by intros [? ?]|done]).
  destruct (includes _ term); simpl; [split; [done|intros _; apply returns_Ok]|].
  destruct (own_property "tags" ps) as [| | | | | |tags|]; simpl;
    try (split; [by intros [? ?]|done]).
  apply Array_some_returns.
Qed.

Lemma is_bookmark_searchable term v :
  is_bookmark v = true -> searchable term v = true.
Proof.
  intros Hv. apply search_callback_returns.
  rewrite search_callback_bookmark by done. apply returns_Ok.
Qed.

(** A search with a keyword that is not blank returns exactly when every
    element of the collection is searchable for its term. *)
Lemma searchBookmarks_returns this keyword c :
  blank keyword = false ->
  returns (searchBookmarks this keyword (VArray c)) <->
  Forall (fun v => searchable (trim (toLowerCase keyword)) v = true) c.
Proof.
  intros Hblank. unfold searchBookmarks. fold (blank keyword).
  rewrite Hblank. change (target this (VArray c)) with (VArray c).
  unfold call_filter.
  etrans; [|apply Forall_iff; intros v; apply search_callback_returns].
  rewrite <- Array_filter_returns.
  destruct (Array_filter _ c); simpl.
  - split; intros _; apply returns_Ok.
  - split; by intros [? ?].
Qed.

(** Without a collection the methods work on [this.bookmarks]. *)
Lemma searchBookmarks_default this keyword :
  searchBookmarks this keyword VNull
  = searchBookmarks this keyword (VArray (this_bookmarks this)).
Proof. done. Qed.

Lemma search_callback_no_title term v :
  is_string (field v "title") = false -> throws (search_callback term v).
Proof.
  unfold search_callback, field_includes, throws.
  destruct v as [| | | | | | |ps]; simpl; try (by eexists).
  destruct (own_property "title" ps); simpl; try done; by eexists.
Qed.

Lemma Bookmark_value_is_bookmark b : is_bookmark (Bookmark_value b) = true.
Proof.
  assert (Htags : forallb is_string (VString <$> b_tags b) = true).
  { induction (b_tags b) as [|tag tags IH]; [done|]. apply IH. }
  unfold is_bookmark, Bookmark_value, field.
  destruct (b_type b), (b_path b); simpl; exact Htags.
Qed.

(** C5, as the code has it. On an empty or white-space keyword the search
    returns the collection it was given. Otherwise, on a collection of
    bookmark records, it returns exactly the bookmarks for which the
    keyword, lower-cased and then trimmed, occurs in the lower-cased
    title, url, description or folder or in a lower-cased tag; they come
    in the order of the collection. *)
Theorem searchBookmarks_spec this keyword c :
  (blank keyword = true ->
   searchBookmarks this keyword (VArray c) = Ok (VArray c)) /\
  (blank keyword = false -> bookmarks_only c ->
   searchBookmarks this keyword (VArray c)
   = Ok (VArray
           (List.filter (keyword_match (trim (toLowerCase keyword))) c)) /\
   List.filter (keyword_match (trim (toLowerCase keyword))) c
     `sublist_of` c).
Proof.
  split.
  - intros Hblank. unfold searchBookmarks. fold (blank keyword).
    by rewrite Hblank.
  - intros Hblank Hc. split; [|apply List_filter_sublist].
    pose proof (apply_query_bookmarks this (ByKeyword keyword) c Hc) as Hq.
    simpl in Hq. rewrite Hq. unfold query_match. by rewrite Hblank.
Qed.


(** C9. A search returns on every collection of bookmark records; it
    throws, for every keyword that is not blank, as soon as one element
    of the collection has no string-valued title; there is a text
    that [importBookmarks] accepts, its bookmark having neither title nor
    description nor tags, after which every such search throws; and for a
    keyword that is not blank the search returns exactly when the fields
    that its callback reads, up to the first match, are strings (an array
    of strings for the tags). *)
Theorem search_needs_bookmark_records :
  (forall this keyword c,
      bookmarks_only c -> returns (searchBookmarks this keyword (VArray c))) /\
  (forall this keyword c v,
      blank keyword = false -> v ∈ c ->
      is_string (field v "title") = false ->
      throws (searchBookmarks this keyword (VArray c))) /\
  (exists text, forall this,
      exists this' bookmarks folders total,
        importBookmarks this text
        = (this', Success bookmarks folders total) /\
        forall keyword,
          blank keyword = false ->
          throws (searchBookmarks this' keyword VNull)) /\
  (forall this keyword c,
      blank keyword = false ->
      returns (searchBookmarks this keyword (VArray c)) <->
      Forall (fun v => searchable (trim (toLowerCase keyword)) v = true) c).
Proof.
  assert (Hthrows : forall this keyword c v,
             blank keyword = false -> v ∈ c ->
             is_string (field v "title") = false ->
             throws (searchBookmarks this keyword (VArray c))).
  { intros this keyword c v Hblank Hv Htitle.
    unfold searchBookmarks. fold (blank keyword). rewrite Hblank.
    change (target this (VArray c)) with (VArray c). unfold call_filter.
    destruct (search_callback_no_title (trim (toLowerCase keyword)) v Htitle)
      as [e He].
    destruct (Array_filter_throws _ c v e Hv He) as [e' ->].
    by eexists. }
  split; [|split; [exact Hthrows|split; [|apply searchBookmarks_returns]]].
  - intros this keyword c Hc.
    pose proof (apply_query_bookmarks this (ByKeyword keyword) c Hc) as Hq.
    simpl in Hq. rewrite Hq. by eexists.
  - exists untitled_import. intros this. do 4 eexists.
    split; [reflexivity|]. intros keyword Hblank.
    rewrite searchBookmarks_default.
    apply (Hthrows _ keyword _
             (VObject [("url", VString "https://example.com")]));
      [done|by left|done].
Qed.
End QueryEngine.

Section ImportExport.
Context `{Platform}.
Import BookmarkAPI.

(** C4. When the parsed text has a [bookmarks] value that is not an
    array, whatever it is, [importBookmarks] returns the failure with the
    invalid-format message and the fields of the instance are what they
    were; such is the text [{"bookmarks": "not-an-array"}]. More
    generally no failed import changes the instance. *)
Theorem importBookmarks_atomic this text :
  (forall data v,
      JSON_parse text = Ok data -> get data "bookmarks" = Ok v ->
      Array_isArray v = false ->
      importBookmarks this text = (this, Failure INVALID_FORMAT)) /\
  (forall this' error,
      importBookmarks this text = (this', Failure error) -> this' = this) /\
  importBookmarks this
    (JSONDoc (JObject [("bookmarks", JString "not-an-array")]))
  = (this, Failure INVALID_FORMAT).
Proof.
  split; [|split; [|done]].
  - intros data v Hparse Hget Harray.
    unfold importBookmarks, import_try. rewrite Hparse. simpl.
    rewrite Hget. simpl. by rewrite Harray, orb_true_r.
  - intros this' error. unfold importBookmarks.
    destruct (import_try text); [done|]. by intros [= <- _].
Qed.

Lemma round_trip_plain_fields this :
  forallb json_plain (this_bookmarks this) = true ->
  json_plain (this_folders this) = true ->
  Array_isArray (this_folders this) = true ->
  round_trip this = this.
Proof.
  destruct this as [bs fs]. unfold round_trip. simpl.
  intros Hbs Hfs Harray. f_equal.
  - induction bs as [|b bs IH]; [done|].
    simpl in Hbs. apply andb_prop in Hbs as [Hb Hbs].
    rewrite fmap_cons, json_plain_image by done. f_equal. by apply IH.
  - rewrite json_plain_property_image by done. by destruct fs.
Qed.

(** C1, as the code has it. A model whose bookmarks and folders are
    values that JSON represents as they are (no Date, no undefined
    property) is exported to a text whose import, into any instance,
    yields the same bookmarks and folders arrays, in the same order and
    with every field value. *)
Theorem import_export_plain this0 this n :
  forallb json_plain (this_bookmarks this) = true ->
  json_plain (this_folders this) = true ->
  Array_isArray (this_folders this) = true ->
  exists text,
    exportBookmarks this n = Ok (Some text) /\
    importBookmarks this0 text
    = (this, Success (this_bookmarks this) (this_folders this)
               (length (this_bookmarks this))).
Proof.
  intros Hbs Hfs Harray. eexists. split; [apply exportBookmarks_text|].
  rewrite import_exported.
  by rewrite (round_trip_plain_fields this Hbs Hfs Harray).
Qed.
End ImportExport.

(** ** The markup parser *)

Lemma DomNode_nested_ind (P : DomNode -> Prop) :
  (forall data, P (TextNode data)) ->
  (forall tag attributes childNodes,
      Forall P childNodes -> P (Element tag attributes childNodes)) ->
  forall n, P n.
Proof.
  intros Htext Helement. fix IH 1. intros [data|tag attributes childNodes].
  - apply Htext.
  - apply Helement.
    induction childNodes as [|c l IHl]; constructor; [apply IH|apply IHl].
Qed.

Lemma Item_nested_ind (P : BookmarkAPI.Item -> Prop) :
  (forall b, P (BookmarkAPI.BookmarkItem b)) ->
  (forall id title path parentPath items,
      Forall P items ->
      P (BookmarkAPI.FolderItem id title path parentPath items)) ->
  forall item, P item.
Proof.
  intros Hb Hf. fix IH 1. intros [b|id title path parentPath items].
  - apply Hb.
  - apply Hf.
    induction items as [|c l IHl]; constructor; [apply IH|apply IHl].
Qed.

Section Markup.
Context `{Platform}.
Import BookmarkAPI.

Lemma anchor_bookmark_ok firstChild currentPath t b t' :
  anchor_bookmark firstChild currentPath t = Ok (b, t') ->
  anchored currentPath b.
Proof.
  unfold anchor_bookmark.
  destruct (StringUtils.generateId t) as [id t1].
  destruct (match getAttribute firstChild "ADD_DATE" with
            | Some a => _ | None => _ end) as [date t2].
  rewrite generateTags_defined. simpl. intros [= <- _].
  split; [apply first_occurrences_NoDup|done].
Qed.

Lemma walk_loop_ok n :
  forall nodes currentPath t items t',
    length nodes <= n ->
    Forall (fun node => walker_ok (snd node)) nodes ->
    walk_loop nodes currentPath t = Ok (items, t') ->
    Forall (item_ok currentPath) items.
Proof.
  induction n as [|n IH]; intros nodes currentPath t items t' Hlen Hnodes.
  { destruct nodes; [|simpl in Hlen; lia]. by intros [= <- _]. }
  destruct nodes as [|[node w] rest]; [by intros [= <- _]|].
  simpl in Hlen. apply Forall_cons in Hnodes as [_ Hrest].
  assert (Hskip : forall t items t',
             walk_loop rest currentPath t = Ok (items, t') ->
             Forall (item_ok currentPath) items).
  { intros t0 items0 t0'. apply IH; [lia|done]. }
  simpl. destruct (String.eqb (tagName node) "DT"); [|apply Hskip].
  destruct (firstElementChild node) as [firstChild|]; [|apply Hskip].
  destruct (String.eqb (tagName firstChild) "H3").
  - destruct rest as [|[next walk_next] rest'].
    + intros [= <- _]. repeat constructor.
    + destruct (String.eqb (tagName next) "DL").
      * destruct (walk_next _ _) as [[children t2]|e] eqn:Hnext; simpl;
          [|done].
        destruct (walk_loop rest' currentPath t2) as [[result t3]|e]
          eqn:Hloop; simpl; [|done].
        intros [= <- _]. apply Forall_cons in Hrest as [Hw Hrest'].
        constructor.
        -- constructor. by eapply Hw.
        -- eapply IH; [|exact Hrest'|exact Hloop]. simpl in Hlen. lia.
      * destruct (walk_loop _ currentPath _) as [[result t3]|e] eqn:Hloop;
          simpl; [|done].
        intros [= <- _]. constructor; [by repeat constructor|].
        by eapply Hskip.
  - destruct (String.eqb (tagName firstChild) "A"); [|apply Hskip].
    destruct (anchor_bookmark firstChild currentPath t) as [[b t1]|e]
      eqn:Hb; simpl; [|done].
    destruct (walk_loop rest currentPath t1) as [[result t2]|e] eqn:Hloop;
      simpl; [|done].
    intros [= <- _]. constructor.
    + constructor. by eapply anchor_bookmark_ok.
    + by eapply Hskip.
Qed.

Lemma walk_ok dlElement : walker_ok (walk dlElement).
Proof.
  induction dlElement as [data|tag attributes childNodes IH]
    using DomNode_nested_ind; intros path t items t'.
  - by intros [= <- _].
  - simpl. apply (walk_loop_ok _ _ _ _ _ _ (Nat.le_refl _)).
    apply Forall_forall. intros [c w] Hin.
    apply list_elem_of_In in Hin.
    apply filter_In in Hin as [Hin _]. apply filter_In in Hin as [Hin _].
    apply in_map_iff in Hin as (c' & [= <- <-] & Hin). simpl.
    apply list_elem_of_In in Hin.
    by apply (proj1 (Forall_forall _ _) IH).
Qed.

Lemma flat_ok_mono bs fs fs' :
  (forall p, p ∈ item_paths fs -> p ∈ item_paths fs') ->
  flat_ok (bs, fs) -> flat_ok (bs, fs').
Proof.
  unfold flat_ok. simpl. intros Hsub Hok.
  eapply Forall_impl; [exact Hok|]. intros b (? & ? & [?|?]); auto.
Qed.

Lemma flatten_item_fold id title path parentPath items acc :
  flatten_item (FolderItem id title path parentPath items) acc
  = flatten items
      (fst acc, snd acc ++ [FolderItem id title path parentPath items]).
Proof.
  simpl. unfold flatten.
  generalize (fst acc, snd acc ++ [FolderItem id title path parentPath items]).
  induction items as [|c l IH]; intros acc'; [done|]. simpl. apply IH.
Qed.

Lemma flatten_item_ok item :
  forall currentPath acc,
    item_ok currentPath item ->
    currentPath = "" \/ currentPath ∈ item_paths (snd acc) ->
    flat_ok acc ->
    flat_ok (flatten_item item acc) /\
    (forall p, p ∈ item_paths (snd acc) ->
               p ∈ item_paths (snd (flatten_item item acc))).
Proof.
  induction item as [b|id title path parentPath items IH]
    using Item_nested_ind; intros currentPath [bs fs] Hitem Hknown Hacc.
  - inversion Hitem as [? ? (Htags & Hdomain & Hfolder)|]; subst.
    simpl. split; [|done]. unfold flat_ok. simpl.
    apply Forall_app. split; [done|]. constructor; [|constructor].
    split; [done|]. split; [done|]. rewrite Hfolder.
    destruct Hknown as [->|Hin]; [by left|].
    unfold or_string. destruct (truthy_string currentPath); auto.
  - inversion Hitem as [|? ? ? ? ? ? Hitems]; subst.
    rewrite flatten_item_fold. simpl fst. simpl snd.
    set (item := FolderItem id title path parentPath items).
    assert (Hsub : forall p, p ∈ item_paths fs -> p ∈ item_paths (fs ++ [item])).
    { intros p Hp. unfold item_paths. rewrite omap_app.
      apply elem_of_app. by left. }
    assert (Hpath : path ∈ item_paths (fs ++ [item])).
    { unfold item_paths. rewrite omap_app. apply elem_of_app. right.
      simpl. by left. }
    assert (Hacc1 : flat_ok (bs, fs ++ [item])) by (by eapply flat_ok_mono).
    clearbody item. revert Hsub Hpath Hacc1.
    generalize (fs ++ [item]). generalize bs. clear Hacc Hknown Hitem.
    unfold flatten.
    induction IH as [|c l Hc _ IHl]; intros bs1 fs1 Hsub Hpath Hacc1.
    + simpl. auto.
    + apply Forall_cons in Hitems as [Hcok Hlok]. simpl fold_left.
      destruct (Hc path (bs1, fs1) Hcok (or_intror Hpath) Hacc1)
        as [Hacc2 Hsub2].
      destruct (flatten_item c (bs1, fs1)) as [bs2 fs2]. simpl in *.
      apply IHl; auto.
Qed.

Lemma flatten_ok items :
  forall acc,
    Forall (item_ok "") items -> flat_ok acc -> flat_ok (flatten items acc).
Proof.
  unfold flatten.
  induction items as [|c l IH]; intros acc Hitems Hacc; [done|].
  apply Forall_cons in Hitems as [Hc Hl]. simpl.
  apply IH; [done|]. by apply (flatten_item_ok c "" acc Hc (or_introl eq_refl)).
Qed.

(** The bookmarks of the markup parser: their tags, domain and folder. *)
Lemma parseHTMLBookmarks_bookmarks doc t tree bs fs :
  parseHTMLBookmarks doc t = Ok (tree, bs, fs) ->
  Forall (fun b => NoDup (b_tags b) /\
                   b_domain b = StringUtils.extractDomain (b_url b) /\
                   (b_folder b = ROOT_FOLDER \/ b_folder b ∈ item_paths fs))
    bs.
Proof.
  unfold parseHTMLBookmarks.
  destruct (querySelector "DL" doc) as [rootDL|]; [|done].
  destruct (walk rootDL "" t) as [[items t']|e] eqn:Hwalk; simpl; [|done].
  destruct (flatten items ([], [])) as [bs' fs'] eqn:Hflat.
  intros [= <- <- <-].
  pose proof (flatten_ok items ([], []) (walk_ok _ _ _ _ _ Hwalk)) as Hok.
  rewrite Hflat in Hok. apply Hok. constructor.
Qed.
End Markup.

(** ** What the parsers guarantee *)

Section Parsers.
Context `{Platform}.
Import BookmarkAPI.

(** C7. The tag generator returns, for a title and a url, the labels
    pushed by the rules in rule order with every label kept at its first
    occurrence only, hence without duplicates; and so the tags of every
    bookmark of the native-tree parser and of the markup parser have no
    duplicates. *)
Theorem tags_have_no_duplicates :
  (forall title url, exists tags,
      generateTags (Some title) url = Ok tags /\
      NoDup tags /\
      tags = first_occurrences
               (title_tags (toLowerCase title)
                  (domain_tags (StringUtils.extractDomain url) []))) /\
  (forall (tags : list string),
      ArrayUtils.unique tags = first_occurrences tags /\
      NoDup (ArrayUtils.unique tags) /\
      (forall tag, tag ∈ ArrayUtils.unique tags <-> tag ∈ tags)) /\
  (forall t nodes bs fs,
      parseBookmarkTree t nodes = Ok (bs, fs) ->
      Forall (fun b => NoDup (b_tags b)) bs) /\
  (forall doc t tree bs fs,
      parseHTMLBookmarks doc t = Ok (tree, bs, fs) ->
      Forall (fun b => NoDup (b_tags b)) bs).
Proof.
  split; [|split; [|split]].
  - intros title url. eexists. split; [apply generateTags_defined|].
    split; [apply first_occurrences_NoDup|done].
  - intros tags. split; [apply unique_first_occurrences|].
    split; [apply unique_NoDup|apply unique_elem_of].
  - intros t nodes bs fs Hparse.
    eapply Forall_impl; [by eapply parseBookmarkTree_bookmarks|].
    by intros b [? _].
  - intros doc t tree bs fs Hparse.
    eapply Forall_impl; [by eapply parseHTMLBookmarks_bookmarks|].
    by intros b [? _].
Qed.


End Parsers.

(** ** The properties at sample inputs *)

Section Samples.
#[local] Existing Instance model_platform.
Import BookmarkAPI.

Lemma extractDomain_safe_witness :
  URL_hostname "https://github.com/x" = Some "github.com" /\
  StringUtils.extractDomain "https://github.com/x" = "github.com" /\
  has_scheme "not a url" = false /\
  StringUtils.extractDomain "not a url" = "not a url".
Proof.
  destruct (extractDomain_safe "https://github.com/x") as (Hparsed & _).
  destruct (extractDomain_safe "not a url") as (_ & _ & Hscheme & _).
  split; [reflexivity|]. split; [apply Hparsed; reflexivity|].
  split; [reflexivity|]. apply Hscheme. reflexivity.
Defined.

Lemma tags_have_no_duplicates_witness :
  generateTags (Some "Video blog") "https://www.youtube.com/bilibili"
  = Ok ["视频"; "博客"] /\
  (exists bs fs,
      parseBookmarkTree 0 docs_tree = Ok (bs, fs) /\
      Forall (fun b => NoDup (b_tags b)) bs) /\
  (exists tree bs fs,
      parseHTMLBookmarks sample_document 0 = Ok (tree, bs, fs) /\
      Forall (fun b => NoDup (b_tags b)) bs).
Proof.
  destruct tags_have_no_duplicates as (Hgen & _ & Hnative & Hmarkup).
  split; [|split].
  - destruct (Hgen "Video blog" "https://www.youtube.com/bilibili")
      as (tags & Hg & _ & Ht).
    etrans; [exact Hg|]. f_equal. etrans; [exact Ht|].
    vm_compute. reflexivity.
  - do 2 eexists. split; [vm_compute; reflexivity|].
    eapply (Hnative 0 docs_tree). vm_compute. reflexivity.
  - do 3 eexists. split; [vm_compute; reflexivity|].
    eapply (Hmarkup sample_document 0). vm_compute. reflexivity.
Defined.


Lemma first_match_witness :
  synced twin_state /\
  exists st' b,
    visit_bookmark (Some "4") (Some "y") "http://y.example" None "A" twin_state
    = Ok st' /\
    bookmarks st' = [b] /\
    folders st' = alter (push_child b) 0 (folders twin_state).
Proof.
  split; [reflexivity|].
  assert (Hvisit : exists st',
             visit_bookmark (Some "4") (Some "y") "http://y.example" None "A"
               twin_state = Ok st') by (eexists; vm_compute; reflexivity).
  destruct Hvisit as [st' Hvisit].
  assert (Hsync : synced twin_state) by reflexivity.
  destruct (bookmark_attached_to_first_match _ _ _ _ _ _ _ Hsync Hvisit)
    as (b & Hb & Hfirst & _).
  exists st', b. split; [exact Hvisit|]. split; [exact Hb|].
  apply (Hfirst 0 (mkFolder (Some "1") "A" "A" "" [])); [reflexivity..|].
  intros j g _ Hj. lia.
Defined.


Lemma importBookmarks_atomic_witness :
  JSON_parse (JSONDoc (JObject [("bookmarks", JNumber 5)]))
  = Ok (VObject [("bookmarks", VNumber 5)]) /\
  get (VObject [("bookmarks", VNumber 5)]) "bookmarks" = Ok (VNumber 5) /\
  Array_isArray (VNumber 5) = false /\
  importBookmarks plain_model (JSONDoc (JObject [("bookmarks", JNumber 5)]))
  = (plain_model, Failure INVALID_FORMAT).
Proof.
  do 3 (split; [reflexivity|]).
  apply (proj1 (importBookmarks_atomic plain_model _)
           (VObject [("bookmarks", VNumber 5)]) (VNumber 5));
    reflexivity.
Defined.

Lemma import_export_plain_witness :
  forallb json_plain (this_bookmarks plain_model) = true /\
  json_plain (this_folders plain_model) = true /\
  Array_isArray (this_folders plain_model) = true /\
  exists text,
    exportBookmarks plain_model 0 = Ok (Some text) /\
    importBookmarks constructor text
    = (plain_model, Success [github; mdn] (this_folders plain_model) 2).
Proof.
  do 3 (split; [reflexivity|]).
  exact (import_export_plain constructor plain_model 0 eq_refl eq_refl eq_refl).
Defined.

Lemma searchBookmarks_spec_witness :
  blank "Docs" = false /\
  bookmarks_only [github; mdn] /\
  searchBookmarks constructor "Docs" (VArray [github; mdn]) = Ok (VArray [mdn]).
Proof.
  assert (Hc : bookmarks_only [github; mdn]) by (by repeat constructor).
  split; [reflexivity|]. split; [exact Hc|].
  destruct (proj2 (searchBookmarks_spec constructor "Docs" [github; mdn])
              eq_refl Hc) as [-> _].
  vm_compute. reflexivity.
Defined.


Lemma search_needs_bookmark_records_witness :
  bookmarks_only [github; mdn] /\
  returns (searchBookmarks constructor "git" (VArray [github; mdn])) /\
  blank "git" = false /\
  is_string (field (VObject [("url", VString "https://example.com")]) "title")
  = false /\
  throws (searchBookmarks constructor "git"
            (VArray [github; VObject [("url", VString "https://example.com")]])).
Proof.
  assert (Hc : bookmarks_only [github; mdn]) by (by repeat constructor).
  destruct search_needs_bookmark_records as (Hreturns & Hthrows & _).
  split; [exact Hc|]. split; [by apply Hreturns|].
  split; [reflexivity|]. split; [reflexivity|].
  apply (Hthrows _ _ _ (VObject [("url", VString "https://example.com")]));
    [reflexivity| |reflexivity].
  apply list_elem_of_In. simpl. auto.
Defined.

(** The model parsed from [dated_tree] holds a Date; exported and imported
    again it holds a string in its place, so the bookmarks array is not the
    one that was exported. *)
Lemma round_trip_changes_dates :
  getChromeBookmarks dated_tree 0 = Ok dated_model /\
  exists text,
    exportBookmarks dated_model 0 = Ok (Some text) /\
    (fun b => field b "dateAdded")
      <$> this_bookmarks (fst (importBookmarks dated_model text))
    = [VString "2024-01-01T00:00:00.000Z"] /\
    (fun b => field b "dateAdded") <$> this_bookmarks dated_model
    = [VDate (Some 1704067200000%Z)] /\
    this_bookmarks (fst (importBookmarks dated_model text))
    <> this_bookmarks dated_model.
Proof.
  split; [vm_compute; reflexivity|].
  eexists. split; [vm_compute; reflexivity|].
  split; [vm_compute; reflexivity|]. split; [reflexivity|].
  vm_compute. intros Heq. discriminate Heq.
Qed.


(** Of two folders with the path "A", the first-added one receives the
    bookmark of the last-added one as well, which stays empty. *)
Lemma attached_to_first_not_last :
  exists bs first last,
    parseBookmarkTree 0 twin_folders = Ok (bs, [first; last]) /\
    f_id first = Some "1" /\ f_path first = "A" /\
    f_id last = Some "3" /\ f_path last = "A" /\
    b_id <$> f_children first = [Some "2"; Some "4"] /\
    f_children last = [].
Proof.
  do 3 eexists. split; [vm_compute; reflexivity|].
  repeat split; reflexivity.
Qed.

(** After the import of a bookmark with a title and a url only, a search
    for a term that neither contains reads its description and throws. *)
Lemma search_throws_without_description :
  exists this',
    fst (importBookmarks constructor
           (JSONDoc
              (JObject
                 [("bookmarks",
                   JArray [JObject [("title", JString "GitHub");
                                    ("url", JString "https://github.com")]])])))
    = this' /\
    searchBookmarks this' "docs" VNull
    = Throw (TypeError
               "Cannot read properties of undefined (reading 'toLowerCase')").
Proof. eexists. split; vm_compute; reflexivity. Qed.

(** The keyword " git" finds the bookmark titled GitHub, although
    lower-cased it occurs in none of its fields: it is trimmed first. *)
Lemma search_trims_the_keyword :
  blank " git" = false /\
  searchBookmarks constructor " git" (VArray [github]) = Ok (VArray [github]) /\
  List.filter (keyword_match (toLowerCase " git")) [github] = [].
Proof.
  split; [reflexivity|]. split; vm_compute; reflexivity.
Qed.

(** The two parser examples of the specification, the native tree given
    as the array that [parseBookmarkTree] iterates over. *)
Example native_tree_example :
  exists b,
    parseBookmarkTree 0
      [ TreeNode None None None None
          (Some [ TreeNode None (Some "Docs") None None
                    (Some [ TreeNode None (Some "MDN")
                              (Some "https://developer.mozilla.org")
                              None None ]) ]) ]
    = Ok ([b], [mkFolder None "Docs" "Docs" "" [b]]) /\
    b_folder b = "Docs" /\ b_domain b = "developer.mozilla.org".
Proof. eexists. split; [vm_compute; reflexivity|]. split; reflexivity. Qed.

Example markup_example :
  exists tree bs fs,
    parseHTMLBookmarks sample_document 0 = Ok (tree, bs, fs) /\
    b_title <$> bs = ["Repo"; "nowhere"] /\
    b_url <$> bs = ["https://github.com/x"; ""] /\
    b_folder <$> bs = ["Work"; ROOT_FOLDER] /\
    b_domain <$> bs = ["github.com"; ""] /\
    b_tags <$> bs = [["开发"]; []] /\
    item_paths fs = ["Work"].
Proof.
  do 3 eexists. split; [vm_compute; reflexivity|]. repeat split; reflexivity.
Qed.
End Samples.

(** * Further properties of the code *)

(** ** The native-tree parser: failure, order and nesting *)

Section NativeTreeMore.
Context `{Platform}.
Import BookmarkAPI.

(** Induction over a traversal that returns: a relation between the node
    or the nodes, the parent path and the states before and after holds
    when it holds of each step. *)
Lemma traverse_rel_ind
    (P : BookmarkTreeNode -> string -> ParseState -> ParseState -> Prop)
    (Q : list BookmarkTreeNode -> string -> ParseState -> ParseState -> Prop) :
  (forall id title url d pp st,
      truthy url = false -> P (TreeNode id title url d None) pp st st) ->
  (forall id title u d pp st st',
      truthy_string u = true ->
      visit_bookmark id title u d pp st = Ok st' ->
      P (TreeNode id title (Some u) d None) pp st st') ->
  (forall id title url d nodes pp st st',
      Q nodes (default "" (snd (enter_folder id title pp st)))
        (fst (enter_folder id title pp st)) st' ->
      P (TreeNode id title url d (Some nodes)) pp st st') ->
  (forall pp st, Q [] pp st st) ->
  (forall n nodes pp st st1 st',
      P n pp st st1 -> Q nodes pp st1 st' -> Q (n :: nodes) pp st st') ->
  (forall node pp st st', traverse_node node pp st = Ok st' -> P node pp st st')
  /\ (forall nodes pp st st', traverse nodes pp st = Ok st' -> Q nodes pp st st').
Proof.
  intros Hskip Hvisit Hfolder Hnil Hcons.
  assert (Hlist : forall nodes,
             Forall (fun n => forall pp st st',
                         traverse_node n pp st = Ok st' -> P n pp st st') nodes ->
             forall pp st st', traverse nodes pp st = Ok st' -> Q nodes pp st st').
  { induction 1 as [|n nodes Hn _ IH]; intros pp st st'.
    - intros [= <-]. apply Hnil.
    - rewrite traverse_cons.
      destruct (traverse_node n pp st) as [st1|e] eqn:H1; simpl; [|done].
      intros Hrest. eapply Hcons; [apply Hn, H1|apply IH, Hrest]. }
  assert (Hnode : forall node pp st st',
             traverse_node node pp st = Ok st' -> P node pp st st').
  { induction node as [id title url d|id title url d nodes IH]
      using BookmarkTreeNode_nested_ind; intros pp st st'.
    - rewrite traverse_node_leaf. destruct url as [u|].
      + destruct (truthy_string u) eqn:Hu.
        * by apply Hvisit.
        * intros [= <-]. by apply Hskip.
      + intros [= <-]. by apply Hskip.
    - rewrite traverse_node_folder. intros Htr.
      apply Hfolder. by apply Hlist. }
  split; [exact Hnode|].
  intros nodes. apply Hlist, Forall_forall. intros n _. apply Hnode.
Qed.

Lemma visit_bookmark_titled id title url dateAdded parentPath st :
  match title with
  | Some _ => returns (visit_bookmark id title url dateAdded parentPath st)
  | None => visit_bookmark id title url dateAdded parentPath st = Throw NO_TITLE
  end.
Proof.
  unfold visit_bookmark.
  destruct (match dateAdded with
            | Some ms => if (ms =? 0)%Z then Date_now (tick st)
                         else (new_Date ms, tick st)
            | None => Date_now (tick st)
            end) as [date t].
  destruct title as [title|]; simpl; [|done]. by eexists.
Qed.

Lemma traverse_node_titled node :
  forall parentPath st,
    if titled_leaves node
    then returns (traverse_node node parentPath st)
    else traverse_node node parentPath st = Throw NO_TITLE.
Proof.
  induction node as [id title url d|id title url d nodes IH]
    using BookmarkTreeNode_nested_ind; intros parentPath st.
  - rewrite traverse_node_leaf. simpl.
    destruct url as [u|]; simpl; [|by eexists].
    destruct (truthy_string u); simpl; [|by eexists].
    pose proof (visit_bookmark_titled id title u d parentPath st) as Hv.
    by destruct title as [title|].
  - rewrite traverse_node_folder. simpl titled_leaves.
    generalize (default "" (snd (enter_folder id title parentPath st))).
    generalize (fst (enter_folder id title parentPath st)).
    clear st. intros st p. revert st.
    induction IH as [|n nodes Hn _ IHnodes]; intros st; simpl forallb.
    + by eexists.
    + rewrite traverse_cons. specialize (Hn p st).
      destruct (titled_leaves n); simpl.
      * destruct Hn as [st1 ->]. simpl. apply IHnodes.
      * by rewrite Hn.
Qed.

Lemma traverse_titled nodes :
  forall parentPath st,
    if forallb titled_leaves nodes
    then returns (traverse nodes parentPath st)
    else traverse nodes parentPath st = Throw NO_TITLE.
Proof.
  induction nodes as [|n nodes IH]; intros parentPath st; simpl forallb.
  - by eexists.
  - rewrite traverse_cons.
    pose proof (traverse_node_titled n parentPath st) as Hn.
    destruct (titled_leaves n); simpl.
    + destruct Hn as [st1 ->]. simpl. apply IH.
    + by rewrite Hn.
Qed.

(** X1. The native-tree parser returns exactly when every leaf with a
    non-empty url has a title property (an empty title will do); on any
    other tree it throws the TypeError of [title.toLowerCase()], whatever
    the rest of the tree holds. *)
Theorem parseBookmarkTree_returns_iff t nodes :
  (returns (parseBookmarkTree t nodes)
   <-> forallb titled_leaves nodes = true) /\
  (parseBookmarkTree t nodes = Throw NO_TITLE
   <-> forallb titled_leaves nodes = false).
Proof.
  unfold parseBookmarkTree.
  pose proof (traverse_titled nodes ""
                {| bookmarks := []; folders := []; folderMap := [];
                   tick := t |}) as Ht.
  destruct (forallb titled_leaves nodes).
  - destruct Ht as [st ->]. simpl. split; split; try done.
    intros _. by eexists.
  - rewrite Ht. simpl. split; split; try done. by intros [? ?].
Qed.

Lemma enter_folder_created id title parentPath st :
  (fun f => (f_id f, f_title f))
    <$> folders (fst (enter_folder id title parentPath st))
  = ((fun f => (f_id f, f_title f)) <$> folders st)
    ++ (if real_title title then [(id, default "" title)] else []).
Proof.
  destruct (real_title title) eqn:Hreal.
  - destruct (enter_folder_real id title parentPath st Hreal)
      as (t & -> & ->). simpl. by rewrite fmap_app.
  - rewrite enter_folder_pseudo by done. by rewrite app_nil_r.
Qed.

Lemma traverse_listing nodes parentPath st st' :
  traverse nodes parentPath st = Ok st' ->
  (fun b => (b_id b, b_title b, b_url b)) <$> bookmarks st'
  = ((fun b => (b_id b, b_title b, b_url b)) <$> bookmarks st)
    ++ concat (List.map leaves nodes) /\
  (fun f => (f_id f, f_title f)) <$> folders st'
  = ((fun f => (f_id f, f_title f)) <$> folders st)
    ++ concat (List.map created nodes).
Proof.
  revert nodes parentPath st st'.
  apply (traverse_rel_ind
    (fun node _ st st' =>
       (fun b => (b_id b, b_title b, b_url b)) <$> bookmarks st'
       = ((fun b => (b_id b, b_title b, b_url b)) <$> bookmarks st)
         ++ leaves node /\
       (fun f => (f_id f, f_title f)) <$> folders st'
       = ((fun f => (f_id f, f_title f)) <$> folders st) ++ created node)
    (fun nodes _ st st' =>
       (fun b => (b_id b, b_title b, b_url b)) <$> bookmarks st'
       = ((fun b => (b_id b, b_title b, b_url b)) <$> bookmarks st)
         ++ concat (List.map leaves nodes) /\
       (fun f => (f_id f, f_title f)) <$> folders st'
       = ((fun f => (f_id f, f_title f)) <$> folders st)
         ++ concat (List.map created nodes))).
  - intros id title url d pp st Hu. simpl.
    destruct url as [u|]; simpl in *; [rewrite Hu|]; by rewrite !app_nil_r.
  - intros id title u d pp st st' Hu Hv. simpl. rewrite Hu, app_nil_r.
    split; [|by eapply visit_bookmark_fmap].
    unfold visit_bookmark in Hv.
    destruct (match d with
              | Some ms => if (ms =? 0)%Z then Date_now (tick st)
                           else (new_Date ms, tick st)
              | None => Date_now (tick st)
              end) as [date t].
    destruct (generateTags title u) as [tags|e]; simpl in Hv; [|done].
    injection Hv as <-. simpl. by rewrite fmap_app.
  - intros id title url d nodes pp st st' [Hb Hf]. simpl.
    rewrite Hb, Hf, enter_folder_bookmarks, enter_folder_created.
    by rewrite <- app_assoc.
  - intros pp st. simpl. by rewrite !app_nil_r.
  - intros n nodes pp st st1 st' [Hb1 Hf1] [Hb Hf]. simpl.
    rewrite Hb, Hf, Hb1, Hf1. by rewrite <- !app_assoc.
Qed.

(** X2. The flat lists of the native-tree parser list the tree in
    document order with nothing lost: the bookmarks are the leaves with a
    non-empty url (a leaf with an empty title is kept, under the title
    "无标题"), and the folders are the containers with a title other
    than the two pseudo-root titles, empty containers included. *)
Theorem parseBookmarkTree_document_order t nodes bs fs :
  parseBookmarkTree t nodes = Ok (bs, fs) ->
  (fun b => (b_id b, b_title b, b_url b)) <$> bs
  = concat (List.map leaves nodes) /\
  (fun f => (f_id f, f_title f)) <$> fs = concat (List.map created nodes).
Proof.
  unfold parseBookmarkTree.
  destruct (traverse nodes "" _) as [st|e] eqn:Ht; simpl; [|done].
  intros [= <- <-]. by apply traverse_listing in Ht.
Qed.

Lemma folder_sound_mono bs bs' f :
  (forall b, b ∈ bs -> b ∈ bs') -> folder_sound bs f -> folder_sound bs' f.
Proof.
  intros Hsub (Ht & Hne & Hpath & Hc). repeat split; [done..|].
  eapply Forall_impl; [exact Hc|]. intros b [? ?]. auto.
Qed.

Lemma append_nonempty (s t : string) : t <> "" -> s +:+ t <> "".
Proof. destruct s; simpl; [done|]. intros _. discriminate. Qed.

Lemma truthy_string_nonempty (s : string) :
  truthy_string s = true <-> s <> "".
Proof. by destruct s. Qed.

Lemma traverse_folder_sound nodes parentPath st st' :
  traverse nodes parentPath st = Ok st' ->
  Forall (folder_sound (bookmarks st)) (folders st) ->
  Forall (folder_sound (bookmarks st')) (folders st').
Proof.
  revert nodes parentPath st st'.
  apply (traverse_rel_ind
    (fun _ _ st st' =>
       Forall (folder_sound (bookmarks st)) (folders st) ->
       Forall (folder_sound (bookmarks st')) (folders st'))
    (fun _ _ st st' =>
       Forall (folder_sound (bookmarks st)) (folders st) ->
       Forall (folder_sound (bookmarks st')) (folders st'))); try done.
  - intros id title u d pp st st' _ Hv Hs.
    destruct (visit_bookmark_Ok _ _ _ _ _ _ _ Hv)
      as (b & Hb & Hf & _ & _ & Hfolder & _).
    rewrite Hb, Hf.
    assert (Hs' : Forall (folder_sound (bookmarks st ++ [b])) (folders st)).
    { eapply Forall_impl; [exact Hs|]. intros f. apply folder_sound_mono.
      intros b' Hin. apply elem_of_app. by left. }
    unfold find_parentFolder.
    destruct (List.find _ _) as [i|] eqn:Hfind; [|done].
    apply find_some in Hfind as [_ Hi].
    destruct (folders st !! i) as [f|] eqn:Hlook; [|done].
    apply bool_decide_eq_true_1 in Hi.
    apply Forall_lookup. intros j g. destruct (decide (j = i)) as [->|Hne].
    + rewrite list_lookup_alter_eq, Hlook. simpl. intros [= <-].
      destruct (proj1 (Forall_lookup _ _) Hs' i f Hlook)
        as (Ht & Hn & Hp & Hc).
      repeat split; [done..|]. simpl. apply Forall_app. split; [done|].
      constructor; [|constructor]. split.
      * apply elem_of_app. right. by apply list_elem_of_singleton.
      * rewrite Hfolder. subst pp. unfold or_string.
        by rewrite (proj2 (truthy_string_nonempty _) Hn).
    + rewrite list_lookup_alter_ne by done.
      apply (proj1 (Forall_lookup _ _) Hs').
  - intros id title url d nodes pp st st' Hrest Hs. apply Hrest.
    rewrite enter_folder_bookmarks.
    destruct (real_title title) eqn:Hreal.
    + destruct (enter_folder_real id title pp st Hreal) as (t & -> & ->).
      simpl. apply Forall_app. split; [done|].
      constructor; [|constructor]. simpl in Hreal.
      apply andb_prop in Hreal as [Hreal _].
      apply andb_prop in Hreal as [Ht _].
      apply truthy_string_nonempty in Ht.
      repeat split; simpl; [done| |constructor].
      destruct (truthy_string pp); [|done].
      by apply append_nonempty, append_nonempty.
    + by rewrite enter_folder_pseudo.
  - intros n nodes pp st st1 st' H1 Hrest Hs. auto.
Qed.

(** X3. In every result of the native-tree parser each folder has a
    non-empty title and a non-empty path, which is its title at the top
    level and its parent path, a slash and its title below, and each child
    of a folder is one of the bookmarks of the flat list and names the
    folder's path as its folder. *)
Theorem parseBookmarkTree_folders_sound t nodes bs fs :
  parseBookmarkTree t nodes = Ok (bs, fs) ->
  Forall (folder_sound bs) fs.
Proof.
  unfold parseBookmarkTree.
  destruct (traverse nodes "" _) as [st|e] eqn:Ht; simpl; [|done].
  intros [= <- <-]. apply traverse_folder_sound in Ht; [done|constructor].
Qed.
End NativeTreeMore.

Section NativeTreeComplete.
Context `{Platform}.
Import BookmarkAPI.

Lemma extends_refl st : extends st st.
Proof. exists []. by rewrite app_nil_r. Qed.

Lemma extends_trans st1 st2 st3 :
  extends st1 st2 -> extends st2 st3 -> extends st1 st3.
Proof.
  intros [m1 H1] [m2 H2]. exists (m1 ++ m2). by rewrite H2, H1, app_assoc.
Qed.

Lemma extends_enter_folder id title parentPath st :
  extends st (fst (enter_folder id title parentPath st)).
Proof.
  destruct (real_title title) eqn:Hreal.
  - destruct (enter_folder_real id title parentPath st Hreal)
      as (t & -> & ->). unfold extends. simpl. eexists. by rewrite fmap_app.
  - rewrite enter_folder_pseudo by done. apply extends_refl.
Qed.

Lemma extends_paths st st' :
  extends st st' -> exists more, paths st' = paths st ++ more.
Proof.
  intros [more Hm]. exists (more.*2). unfold paths.
  apply (f_equal (fmap snd)) in Hm.
  rewrite fmap_app, <- !list_fmap_compose in Hm. exact Hm.
Qed.

Lemma extends_ids st st' :
  extends st st' -> exists more, ids st' = ids st ++ more.
Proof.
  intros [more Hm]. exists (more.*1). unfold ids.
  apply (f_equal (fmap fst)) in Hm.
  rewrite fmap_app, <- !list_fmap_compose in Hm. exact Hm.
Qed.

Lemma distinct_folders_extends st st' :
  extends st st' ->
  distinct_folders (folders st') -> distinct_folders (folders st).
Proof.
  intros Hext (Hids & Hpaths & Hroot).
  destruct (extends_paths _ _ Hext) as [mp Hmp].
  destruct (extends_ids _ _ Hext) as [mi Hmi].
  unfold paths in Hmp. unfold ids in Hmi. rewrite Hmp in Hpaths, Hroot.
  rewrite Hmi in Hids.
  apply NoDup_app in Hids as [? _]. apply NoDup_app in Hpaths as [? _].
  repeat split; [done..|]. intros Hin. apply Hroot, elem_of_app. by left.
Qed.

Lemma known_extends parentPath st st' :
  extends st st' -> known parentPath st -> known parentPath st'.
Proof.
  intros Hext [->|Hin]; [by left|right].
  destruct (extends_paths _ _ Hext) as [more ->]. apply elem_of_app. by left.
Qed.

Lemma filter_snoc_folder (p : string) bs b :
  filter (fun b => b_folder b = p) (bs ++ [b])
  = filter (fun b => b_folder b = p) bs
    ++ (if decide (b_folder b = p) then [b] else []).
Proof.
  by rewrite filter_app.
Qed.

Lemma filter_none {A} (P : A -> Prop) `{forall x, Decision (P x)} (l : list A) :
  Forall (fun x => ~ P x) l -> filter P l = [].
Proof.
  induction 1 as [|x l Hx _ IH]; [done|].
  by rewrite filter_cons, decide_False.
Qed.

Lemma visit_bookmark_complete id title url dateAdded parentPath st st' :
  visit_bookmark id title url dateAdded parentPath st = Ok st' ->
  distinct_folders (folders st) -> known parentPath st ->
  complete st -> complete st'.
Proof.
  intros Hv (_ & Hpaths & Hroot) Hknown (Hstep & Hplaced & Hne & Hc).
  destruct (visit_bookmark_in_step _ _ _ _ _ _ _ Hv Hstep) as [Hstep' _].
  assert (Hp : paths st' = paths st).
  { unfold paths. by eapply visit_bookmark_fmap. }
  destruct (visit_bookmark_Ok _ _ _ _ _ _ _ Hv)
    as (b & Hb & Hf & _ & _ & Hfolder & _).
  split; [done|]. split; [|split].
  - unfold placed. rewrite Hb, Hp. apply Forall_app. split; [done|].
    constructor; [|constructor]. rewrite Hfolder.
    destruct Hknown as [->|Hin]; [by left|].
    unfold or_string. destruct (truthy_string parentPath); auto.
  - by rewrite Hp.
  - rewrite Hb, Hf, (find_parentFolder_synced _ _ (proj1 Hstep)).
    destruct (list_find _ (folders st)) as [[i f]|] eqn:Hfind; simpl.
    + apply list_find_Some in Hfind as (Hi & Hpath & _).
      assert (Hpp : parentPath <> "").
      { intros ->. apply Hne. unfold paths. rewrite <- Hpath.
        apply list_elem_of_fmap. exists f. split; [done|].
        by eapply list_elem_of_lookup_2. }
      assert (Hbf : b_folder b = parentPath).
      { rewrite Hfolder. unfold or_string.
        by rewrite (proj2 (truthy_string_nonempty _) Hpp). }
      apply Forall_lookup. intros j g.
      destruct (decide (j = i)) as [->|Hji].
      * rewrite list_lookup_alter_eq, Hi. simpl. intros [= <-].
        unfold folder_complete. simpl.
        rewrite filter_snoc_folder, decide_True by congruence.
        f_equal. apply (proj1 (Forall_lookup _ _) Hc i f Hi).
      * rewrite list_lookup_alter_ne by done. intros Hj.
        unfold folder_complete.
        rewrite filter_snoc_folder, decide_False, app_nil_r.
        { apply (proj1 (Forall_lookup _ _) Hc j g Hj). }
        rewrite Hbf, <- Hpath. intros Heq. apply Hji.
        eapply (NoDup_lookup _ j i (f_path g) Hpaths).
        -- by rewrite list_lookup_fmap, Hj.
        -- rewrite list_lookup_fmap, Hi. simpl. by rewrite Heq.
    + apply list_find_None in Hfind.
      apply Forall_forall. intros g Hg. unfold folder_complete.
      rewrite filter_snoc_folder, decide_False, app_nil_r.
      { apply (proj1 (Forall_forall _ _) Hc g Hg). }
      rewrite Hfolder. unfold or_string.
      destruct (truthy_string parentPath).
      * intros Heq. by apply (proj1 (Forall_forall _ _) Hfind g Hg).
      * intros Heq. apply Hroot. rewrite Heq.
        apply list_elem_of_fmap. by exists g.
Qed.

Lemma enter_folder_complete id title parentPath st :
  real_title title = true ->
  distinct_folders (folders (fst (enter_folder id title parentPath st))) ->
  known parentPath st -> complete st ->
  complete (fst (enter_folder id title parentPath st)) /\
  known (default "" (snd (enter_folder id title parentPath st)))
    (fst (enter_folder id title parentPath st)).
Proof.
  intros Hreal Hd Hknown (Hstep & Hplaced & Hne & Hc).
  destruct (enter_folder_in_step id title parentPath st Hstep) as [Hstep1 _].
  { rewrite Hreal. destruct Hd as (Hids & _).
    destruct (enter_folder_real id title parentPath st Hreal)
      as (t & -> & Heq). rewrite Heq in Hids. simpl in Hids.
    by rewrite fmap_app in Hids. }
  revert Hd Hstep1.
  destruct (enter_folder_real id title parentPath st Hreal)
    as (t & -> & ->). simpl.
  set (p := if truthy_string parentPath
            then parentPath +:+ "/" +:+ t else t).
  intros (_ & Hpaths & Hroot) Hstep1.
  rewrite fmap_app in Hpaths, Hroot. simpl in Hpaths, Hroot.
  apply NoDup_app in Hpaths as (_ & Hfresh & _).
  assert (Hp : p <> "").
  { simpl in Hreal. apply andb_prop in Hreal as [Hreal _].
    apply andb_prop in Hreal as [Ht _].
    apply truthy_string_nonempty in Ht. unfold p.
    destruct (truthy_string parentPath); [|done].
    by apply append_nonempty, append_nonempty. }
  split; [split; [done|split; [|split]]|].
  - apply (placed_mono st); [done| |done].
    intros q Hq. unfold paths. simpl. rewrite fmap_app.
    apply elem_of_app. by left.
  - unfold paths. simpl. rewrite fmap_app. intros Hin.
    apply elem_of_app in Hin as [Hin|Hin]; [done|].
    apply list_elem_of_singleton in Hin. done.
  - simpl. apply Forall_app. split; [done|].
    constructor; [|constructor]. unfold folder_complete. simpl.
    symmetry. apply filter_none, Forall_forall. intros b Hb Hbp.
    destruct (proj1 (Forall_forall _ _) Hplaced b Hb) as [Hr|Hin].
    + apply Hroot. rewrite <- Hr, Hbp. apply elem_of_app. right.
      by apply list_elem_of_singleton.
    + apply (Hfresh p); [by rewrite <- Hbp|].
      by apply list_elem_of_singleton.
  - right. unfold paths. simpl. rewrite fmap_app. apply elem_of_app.
    right. by apply list_elem_of_singleton.
Qed.

Lemma traverse_complete nodes parentPath st st' :
  traverse nodes parentPath st = Ok st' ->
  extends st st' /\
  (forallb real_folders nodes = true ->
   distinct_folders (folders st') -> known parentPath st ->
   complete st -> complete st').
Proof.
  revert nodes parentPath st st'.
  apply (traverse_rel_ind
    (fun node pp st st' =>
       extends st st' /\
       (real_folders node = true ->
        distinct_folders (folders st') -> known pp st ->
        complete st -> complete st'))
    (fun nodes pp st st' =>
       extends st st' /\
       (forallb real_folders nodes = true ->
        distinct_folders (folders st') -> known pp st ->
        complete st -> complete st'))).
  - intros id title url d pp st _. split; [apply extends_refl|done].
  - intros id title u d pp st st' _ Hv.
    assert (Hext : extends st st').
    { exists []. rewrite app_nil_r. by eapply visit_bookmark_fmap. }
    split; [done|]. intros _ Hd Hk Hc.
    eapply visit_bookmark_complete; eauto.
    apply (distinct_folders_extends st st'); [done|].
    assert (Hsame : (fun f => (f_id f, f_path f)) <$> folders st'
                    = (fun f => (f_id f, f_path f)) <$> folders st)
      by (by eapply visit_bookmark_fmap).
    done.
  - intros id title url d nodes pp st st' [Hext Hrest].
    split.
    { eapply extends_trans; [apply extends_enter_folder|exact Hext]. }
    simpl. intros Hreal Hd Hk Hc. apply andb_prop in Hreal as [Ht Hn].
    destruct (enter_folder_complete id title pp st Ht) as [Hc1 Hk1];
      [|done|done|].
    { by apply (distinct_folders_extends _ st'). }
    by apply Hrest.
  - intros pp st. split; [apply extends_refl|done].
  - intros n nodes pp st st1 st' [Hext1 H1] [Hext Hrest].
    split; [by eapply extends_trans|].
    simpl. intros Hreal Hd Hk Hc. apply andb_prop in Hreal as [Hn Hnodes].
    apply Hrest; [done|done|by eapply known_extends|].
    apply H1; [done| |done|done].
    by apply (distinct_folders_extends _ st').
Qed.

(** X4. When every container of the tree has a title other than the empty
    one and the two pseudo-root titles, and the folders of the result have
    pairwise distinct ids and pairwise distinct paths, none of them the
    root sentinel, then the children of each folder are exactly the
    bookmarks of the flat list that name its path as their folder, in the
    same order. *)
Theorem parseBookmarkTree_children_complete t nodes bs fs :
  parseBookmarkTree t nodes = Ok (bs, fs) ->
  forallb real_folders nodes = true ->
  distinct_folders fs ->
  Forall (folder_complete bs) fs.
Proof.
  unfold parseBookmarkTree.
  destruct (traverse nodes "" _) as [st|e] eqn:Ht; simpl; [|done].
  intros [= <- <-] Hreal Hd.
  apply traverse_complete in Ht as [_ Hc].
  apply Hc; [done|done|by left|].
  split; [|split; [|split]].
  - split; [done|]. intros i j fi fj _ Hi. done.
  - constructor.
  - apply not_elem_of_nil.
  - constructor.
Qed.
End NativeTreeComplete.

Section NativeTreeSamples.
#[local] Existing Instance model_platform.
Import BookmarkAPI.

Lemma document_order_witness :
  exists bs fs,
    parseBookmarkTree 0 [untitled_root] = Ok (bs, fs) /\
    (fun b => (b_id b, b_title b, b_url b)) <$> bs
    = [(Some "2", "x", "http://x.example")] /\
    (fun f => (f_id f, f_title f)) <$> fs = [(Some "5", "Docs")].
Proof.
  do 2 eexists. split; [vm_compute; reflexivity|].
  apply (parseBookmarkTree_document_order 0 [untitled_root]).
  vm_compute. reflexivity.
Defined.

Lemma folders_sound_witness :
  exists bs fs,
    parseBookmarkTree 0 docs_tree = Ok (bs, fs) /\ Forall (folder_sound bs) fs.
Proof.
  do 2 eexists. split; [vm_compute; reflexivity|].
  apply (parseBookmarkTree_folders_sound 0 docs_tree).
  vm_compute. reflexivity.
Defined.

Lemma children_complete_witness :
  exists bs fs,
    parseBookmarkTree 0 docs_tree = Ok (bs, fs) /\
    forallb real_folders docs_tree = true /\
    distinct_folders fs /\
    Forall (folder_complete bs) fs.
Proof.
  do 2 eexists. split; [vm_compute; reflexivity|].
  split; [reflexivity|].
  split.
  - repeat split; simpl; [apply NoDup_singleton..|].
    intros Hin. apply list_elem_of_singleton in Hin. discriminate Hin.
  - apply (parseBookmarkTree_children_complete 0 docs_tree);
      [vm_compute; reflexivity|reflexivity|].
    repeat split; simpl; [apply NoDup_singleton..|].
    intros Hin. apply list_elem_of_singleton in Hin. discriminate Hin.
Defined.
End NativeTreeSamples.

(** ** The markup parser: totality, nesting and the flat lists *)

Section MarkupMore.
Context `{Platform}.
Import BookmarkAPI.

Lemma anchor_bookmark_returns firstChild currentPath t :
  exists b t',
    anchor_bookmark firstChild currentPath t = Ok (b, t') /\
    b_folder b = or_string currentPath ROOT_FOLDER.
Proof.
  unfold anchor_bookmark.
  destruct (StringUtils.generateId t) as [id t1].
  destruct (match getAttribute firstChild "ADD_DATE" with
            | Some a => _ | None => _ end) as [date t2].
  rewrite generateTags_defined. simpl. by do 2 eexists.
Qed.

Lemma walk_loop_total n :
  forall nodes currentPath t,
    length nodes <= n ->
    Forall (fun node => walker_total (snd node)) nodes ->
    returns (walk_loop nodes currentPath t).
Proof.
  induction n as [|n IH]; intros nodes currentPath t Hlen Hnodes.
  { destruct nodes; [|simpl in Hlen; lia]. by eexists. }
  destruct nodes as [|[node w] rest]; [by eexists|].
  simpl in Hlen. apply Forall_cons in Hnodes as [_ Hrest].
  assert (Hskip : forall t, returns (walk_loop rest currentPath t)).
  { intros t0. apply IH; [lia|done]. }
  simpl. destruct (String.eqb (tagName node) "DT"); [|apply Hskip].
  destruct (firstElementChild node) as [firstChild|]; [|apply Hskip].
  destruct (String.eqb (tagName firstChild) "H3").
  - destruct rest as [|[next walk_next] rest']; [by eexists|].
    destruct (String.eqb (tagName next) "DL").
    + apply Forall_cons in Hrest as [Hw Hrest'].
      destruct (Hw (if truthy_string currentPath
                    then currentPath +:+ "/" +:+ trim (textContent firstChild)
                    else trim (textContent firstChild)) (S t))
        as [[children t2] Hnext].
      simpl in Hnext. rewrite Hnext. simpl.
      destruct (IH rest' currentPath t2) as [[result t3] ->];
        [simpl in Hlen; lia|done|]. simpl. by eexists.
    + destruct (Hskip (S t)) as [[result t3] ->]. simpl. by eexists.
  - destruct (String.eqb (tagName firstChild) "A"); [|apply Hskip].
    destruct (anchor_bookmark_returns firstChild currentPath t)
      as (b & t1 & -> & _). simpl.
    destruct (Hskip t1) as [[result t2] ->]. simpl. by eexists.
Qed.

Lemma walk_total dlElement : walker_total (walk dlElement).
Proof.
  induction dlElement as [data|tag attributes childNodes IH]
    using DomNode_nested_ind; intros path t.
  - by eexists.
  - simpl. apply (walk_loop_total _ _ _ _ (Nat.le_refl _)).
    apply Forall_forall. intros [c w] Hin.
    apply list_elem_of_In in Hin.
    apply filter_In in Hin as [Hin _]. apply filter_In in Hin as [Hin _].
    apply in_map_iff in Hin as (c' & [= <- <-] & Hin). simpl.
    apply list_elem_of_In in Hin.
    by apply (proj1 (Forall_forall _ _) IH).
Qed.

(** X5. The markup parser fails on one condition only: a document with
    no [DL] element gives the error "无效的书签文件：找不到根DL元素";
    on every document that has one it returns, whatever else the document
    holds. *)
Theorem parseHTMLBookmarks_total doc t :
  match querySelector "DL" doc with
  | None => parseHTMLBookmarks doc t = Throw (Error NO_ROOT_DL)
  | Some _ => returns (parseHTMLBookmarks doc t)
  end.
Proof.
  unfold parseHTMLBookmarks.
  destruct (querySelector "DL" doc) as [rootDL|]; [|done].
  destruct (walk_total rootDL "" t) as [[tree t'] ->]. simpl.
  destruct (flatten tree ([], [])). by eexists.
Qed.

Lemma flatten_item_listing item :
  forall acc,
    flatten_item item acc
    = (fst acc ++ item_bookmarks item, snd acc ++ item_folders item).
Proof.
  induction item as [b|id title path parentPath items IH]
    using Item_nested_ind; intros acc; [simpl; by rewrite app_nil_r|].
  rewrite flatten_item_fold. simpl item_bookmarks. simpl item_folders.
  set (item := FolderItem id title path parentPath items).
  replace (snd acc ++ item :: concat (List.map item_folders items))
    with ((snd acc ++ [item]) ++ concat (List.map item_folders items))
    by (by rewrite <- app_assoc).
  generalize (snd acc ++ [item]). generalize (fst acc). clear acc.
  unfold flatten.
  induction IH as [|c l Hc _ IHl]; intros bs fs; simpl.
  - by rewrite !app_nil_r.
  - rewrite Hc, IHl. simpl. by rewrite <- !app_assoc.
Qed.

Lemma flatten_listing items :
  forall acc,
    flatten items acc
    = (fst acc ++ concat (List.map item_bookmarks items),
       snd acc ++ concat (List.map item_folders items)).
Proof.
  unfold flatten.
  induction items as [|c l IH]; intros acc; simpl.
  - destruct acc. simpl. by rewrite !app_nil_r.
  - rewrite IH, flatten_item_listing. simpl. by rewrite <- !app_assoc.
Qed.

(** X6. The two flat lists that the markup parser returns beside the tree
    are the tree listed in document order: every bookmark of the tree
    once, and every folder of the tree once, a folder before the folders
    nested in it and with its nested items in place. *)
Theorem parseHTMLBookmarks_flat_lists doc t tree bs fs :
  parseHTMLBookmarks doc t = Ok (tree, bs, fs) ->
  bs = concat (List.map item_bookmarks tree) /\
  fs = concat (List.map item_folders tree).
Proof.
  unfold parseHTMLBookmarks.
  destruct (querySelector "DL" doc) as [rootDL|]; [|done].
  destruct (walk rootDL "" t) as [[items t']|e]; simpl; [|done].
  rewrite flatten_listing. simpl. by intros [= <- <- <-].
Qed.

Lemma walk_loop_nested n :
  forall nodes currentPath t items t',
    length nodes <= n ->
    Forall (fun node => walker_nested (snd node)) nodes ->
    walk_loop nodes currentPath t = Ok (items, t') ->
    Forall (nested currentPath) items.
Proof.
  induction n as [|n IH]; intros nodes currentPath t items t' Hlen Hnodes.
  { destruct nodes; [|simpl in Hlen; lia]. by intros [= <- _]. }
  destruct nodes as [|[node w] rest]; [by intros [= <- _]|].
  simpl in Hlen. apply Forall_cons in Hnodes as [_ Hrest].
  assert (Hskip : forall t items t',
             walk_loop rest currentPath t = Ok (items, t') ->
             Forall (nested currentPath) items).
  { intros t0 items0 t0'. apply IH; [lia|done]. }
  simpl. destruct (String.eqb (tagName node) "DT"); [|apply Hskip].
  destruct (firstElementChild node) as [firstChild|]; [|apply Hskip].
  destruct (String.eqb (tagName firstChild) "H3").
  - destruct rest as [|[next walk_next] rest'].
    + intros [= <- _]. repeat constructor.
    + destruct (String.eqb (tagName next) "DL").
      * destruct (walk_next _ _) as [[children t2]|e] eqn:Hnext; simpl;
          [|done].
        destruct (walk_loop rest' currentPath t2) as [[result t3]|e]
          eqn:Hloop; simpl; [|done].
        intros [= <- _]. apply Forall_cons in Hrest as [Hw Hrest'].
        constructor.
        -- constructor. by eapply Hw.
        -- eapply IH; [|exact Hrest'|exact Hloop]. simpl in Hlen. lia.
      * destruct (walk_loop _ currentPath _) as [[result t3]|e] eqn:Hloop;
          simpl; [|done].
        intros [= <- _]. constructor; [by repeat constructor|].
        by eapply Hskip.
  - destruct (String.eqb (tagName firstChild) "A"); [|apply Hskip].
    destruct (anchor_bookmark_returns firstChild currentPath t)
      as (b & t1 & -> & Hfolder). simpl.
    destruct (walk_loop rest currentPath t1) as [[result t2]|e] eqn:Hloop;
      simpl; [|done].
    intros [= <- _]. constructor; [by constructor|by eapply Hskip].
Qed.

Lemma walk_nested dlElement : walker_nested (walk dlElement).
Proof.
  induction dlElement as [data|tag attributes childNodes IH]
    using DomNode_nested_ind; intros path t items t'.
  - by intros [= <- _].
  - simpl. apply (walk_loop_nested _ _ _ _ _ _ (Nat.le_refl _)).
    apply Forall_forall. intros [c w] Hin.
    apply list_elem_of_In in Hin.
    apply filter_In in Hin as [Hin _]. apply filter_In in Hin as [Hin _].
    apply in_map_iff in Hin as (c' & [= <- <-] & Hin). simpl.
    apply list_elem_of_In in Hin.
    by apply (proj1 (Forall_forall _ _) IH).
Qed.

(** X7. The tree of the markup parser is nested by paths: a folder at the
    top has the empty parent path and its title as its path, a folder
    inside a folder has that folder's path as its parent path and adds a
    slash and its own title, and a bookmark names the path of the folder it
    lies in as its folder, the root sentinel when that path is empty. *)
Theorem parseHTMLBookmarks_nested doc t tree bs fs :
  parseHTMLBookmarks doc t = Ok (tree, bs, fs) ->
  Forall (nested "") tree.
Proof.
  unfold parseHTMLBookmarks.
  destruct (querySelector "DL" doc) as [rootDL|]; [|done].
  destruct (walk rootDL "" t) as [[items t']|e] eqn:Hwalk; simpl; [|done].
  destruct (flatten items ([], [])). intros [= <- _ _].
  by eapply walk_nested.
Qed.
End MarkupMore.

Section MarkupSamples.
#[local] Existing Instance model_platform.
Import BookmarkAPI.

Lemma flat_lists_witness :
  exists tree bs fs,
    parseHTMLBookmarks sample_document 0 = Ok (tree, bs, fs) /\
    bs = concat (List.map item_bookmarks tree) /\
    fs = concat (List.map item_folders tree).
Proof.
  do 3 eexists. split; [vm_compute; reflexivity|].
  apply (parseHTMLBookmarks_flat_lists sample_document 0).
  vm_compute. reflexivity.
Defined.

Lemma nested_witness :
  exists tree bs fs,
    parseHTMLBookmarks sample_document 0 = Ok (tree, bs, fs) /\
    Forall (nested "") tree.
Proof.
  do 3 eexists. split; [vm_compute; reflexivity|].
  eapply (parseHTMLBookmarks_nested sample_document 0).
  vm_compute. reflexivity.
Defined.
End MarkupSamples.

(** ** Export and import: a second cycle changes nothing *)

Lemma JSON_nested_ind (P : JSON -> Prop) :
  P JNull -> (forall b, P (JBool b)) -> (forall n, P (JNumber n)) ->
  (forall s, P (JString s)) ->
  (forall elements, Forall P elements -> P (JArray elements)) ->
  (forall members,
      Forall (fun kv => P (snd kv)) members -> P (JObject members)) ->
  forall j, P j.
Proof.
  intros Hn Hb Hz Hs Ha Ho. fix IH 1.
  intros [|b|n|s|l|ms]; [apply Hn|apply Hb|apply Hz|apply Hs|..].
  - apply Ha. induction l as [|x l IHl]; constructor; [apply IH|apply IHl].
  - apply Ho. induction ms as [|[k x] ms IHms]; constructor;
      [apply IH|apply IHms].
Qed.

Lemma Map_set_plain k v (m : list (string * Value)) :
  json_plain v = true ->
  NoDup m.*1 /\ Forall (fun kv => json_plain (snd kv) = true) m ->
  NoDup (Map_set k v m).*1 /\
  Forall (fun kv => json_plain (snd kv) = true) (Map_set k v m).
Proof.
  intros Hv. induction m as [|[k' v'] m IH]; simpl.
  - intros _. split; [apply NoDup_singleton|by repeat constructor].
  - intros [Hnd Hall]. apply NoDup_cons in Hnd as [Hk' Hnd].
    apply Forall_cons in Hall as [Hv' Hall].
    destruct (decide (k = k')) as [->|Hne]; simpl.
    + split; [by apply NoDup_cons|by constructor].
    + destruct (IH (conj Hnd Hall)) as [Hnd1 Hall1].
      split; [|by constructor]. apply NoDup_cons. split; [|done].
      intros Hin. apply Hk'. clear -Hin Hne.
      induction m as [|[k2 v2] m IHm]; simpl in *.
      * apply list_elem_of_singleton in Hin. congruence.
      * destruct (decide (k = k2)) as [->|Hne2]; simpl in *; [done|].
        apply elem_of_cons in Hin as [->|Hin]; [by left|].
        right. by apply IHm.
Qed.

(** What [JSON.parse] yields is a value that JSON represents as it is. *)
Lemma InternalizeJSON_plain j : json_plain (InternalizeJSON j) = true.
Proof.
  induction j as [|b|n|s|l IH|ms IH] using JSON_nested_ind; try done.
  - rewrite InternalizeJSON_array. simpl.
    induction IH as [|x l Hx _ IHl]; [done|]. simpl. by rewrite Hx.
  - rewrite InternalizeJSON_object. unfold define_members.
    assert (Hacc : NoDup ([] : list (string * Value)).*1 /\
                   Forall (fun kv => json_plain (snd kv) = true)
                     ([] : list (string * Value)))
      by (split; constructor).
    revert Hacc. generalize (@nil (string * Value)).
    induction IH as [|[k x] ms Hx _ IHms]; intros acc [Hnd Hall].
    + simpl. rewrite bool_decide_eq_true_2 by done. simpl.
      apply forallb_forall. intros kv Hin. apply list_elem_of_In in Hin.
      by apply (proj1 (Forall_forall _ _) Hall).
    + simpl fold_left. apply IHms. by apply Map_set_plain.
Qed.

Section CodecMore.
Context `{Platform}.
Import BookmarkAPI.

Lemma round_trip_plain this :
  forallb json_plain (this_bookmarks (round_trip this)) = true /\
  json_plain (this_folders (round_trip this)) = true /\
  truthy_value (this_folders (round_trip this)) = true.
Proof.
  unfold round_trip. simpl. split; [|].
  - induction (this_bookmarks this) as [|b bs IH]; [done|]. simpl.
    unfold JSON_image at 1. by rewrite InternalizeJSON_plain.
  - unfold JSON_property_image, or_value.
    destruct (SerializeJSONProperty (this_folders this)) as [j|]; [|done].
    destruct (truthy_value (InternalizeJSON j)) eqn:Ht; [|done].
    split; [apply InternalizeJSON_plain|done].
Qed.

Lemma round_trip_idempotent this :
  round_trip (round_trip this) = round_trip this.
Proof.
  destruct (round_trip_plain this) as (Hb & Hf & Ht).
  destruct (round_trip this) as [bs fs]. simpl in *.
  unfold round_trip. simpl. f_equal.
  - induction bs as [|b bs IH]; [done|]. simpl in Hb.
    apply andb_prop in Hb as [Hb1 Hb2]. rewrite fmap_cons.
    by rewrite json_plain_image, IH.
  - rewrite json_plain_property_image by done. unfold or_value.
    by rewrite Ht.
Qed.

(** X8. Export followed by import is idempotent on every model: the model
    that one cycle yields (Dates turned into strings, undefined properties
    dropped) is exported and imported again as it is, with the same
    number of bookmarks reported, whatever instance performs the import
    and whenever the exports happen. *)
Theorem export_import_stable this a b n m :
  exists text1 text2 this1,
    exportBookmarks this n = Ok (Some text1) /\
    fst (importBookmarks a text1) = this1 /\
    exportBookmarks this1 m = Ok (Some text2) /\
    importBookmarks b text2
    = (this1, Success (this_bookmarks this1) (this_folders this1)
                (length (this_bookmarks this))).
Proof.
  do 3 eexists. split; [apply exportBookmarks_text|].
  split; [reflexivity|]. split; [apply exportBookmarks_text|].
  rewrite !import_exported. simpl fst.
  rewrite round_trip_idempotent. do 2 f_equal.
  unfold round_trip. simpl. by rewrite length_fmap.
Qed.

(** X9. The JSON path of the file loader reads every text that
    [importBookmarks] accepts, and reads the same model from it: the
    bookmarks array as it is and the folders, an empty array when the
    text has none; in particular it reads every text that
    [exportBookmarks] writes. *)
Theorem parseJSONBookmarks_reads_imports jsonData t this' :
  import_try jsonData = Ok this' ->
  parseJSONBookmarks jsonData t
  = Some (Ok (this_bookmarks this', this_folders this')).
Proof.
  unfold import_try, parseJSONBookmarks, parseJSON_try.
  destruct (JSON_parse jsonData) as [data|e]; simpl; [|done].
  destruct (get data "bookmarks") as [bookmarks|e]; simpl; [|done].
  destruct (truthy_value bookmarks); simpl; [|done].
  destruct (Array_isArray bookmarks); simpl; [|done].
  destruct (get data "folders") as [folders|e]; simpl; [|done].
  by intros [= <-].
Qed.
End CodecMore.

Section CodecSamples.
#[local] Existing Instance model_platform.
Import BookmarkAPI.

Lemma reads_imports_witness :
  exists text,
    exportBookmarks dated_model 0 = Ok (Some text) /\
    import_try text = Ok (round_trip dated_model) /\
    parseJSONBookmarks text 7
    = Some (Ok (this_bookmarks (round_trip dated_model),
                this_folders (round_trip dated_model))).
Proof.
  eexists. split; [vm_compute; reflexivity|].
  split; [vm_compute; reflexivity|].
  apply (parseJSONBookmarks_reads_imports _ 7 (round_trip dated_model)).
  vm_compute. reflexivity.
Defined.
End CodecSamples.

(** ** The query engine: narrowing a search *)

Lemma append_nil (b : string) : "" +:+ b = b.
Proof. reflexivity. Qed.

Lemma append_cons x (a b : string) : String x a +:+ b = String x (a +:+ b).
Proof. reflexivity. Qed.

Lemma append_assoc (a b c : string) : (a +:+ b) +:+ c = a +:+ (b +:+ c).
Proof.
  induction a as [|x a IH]; [done|]. by rewrite !append_cons, IH.
Qed.

Lemma prefix_spec (a s : string) :
  String.prefix a s = true <-> exists post, s = a +:+ post.
Proof.
  revert s. induction a as [|x a IH]; intros s.
  - split; [intros _; by exists s|intros _; by destruct s].
  - destruct s as [|y s]; simpl.
    { split; [done|]. intros [post Hpost]. by rewrite append_cons in Hpost. }
    destruct (ascii_dec x y) as [->|Hne].
    + rewrite IH. split; intros [post Hpost]; exists post.
      * by rewrite append_cons, <- Hpost.
      * rewrite append_cons in Hpost. congruence.
    + split; [done|]. intros [post Hpost]. rewrite append_cons in Hpost.
      congruence.
Qed.

Lemma includes_spec (s sub : string) :
  includes s sub = true <-> exists pre post, s = pre +:+ sub +:+ post.
Proof.
  split.
  - induction s as [|c s IH]; unfold includes; fold includes.
    + rewrite orb_false_r. intros [post Hpost]%prefix_spec.
      by exists "", post.
    + intros [[post Hpost]%prefix_spec|Hin]%orb_prop.
      * by exists "", post.
      * destruct (IH Hin) as (pre & post & ->). by exists (String c pre), post.
  - intros (pre & post & ->). induction pre as [|c pre IH].
    + rewrite append_nil.
      assert (Hp : String.prefix sub (sub +:+ post) = true)
        by (apply prefix_spec; by exists post).
      destruct (sub +:+ post); unfold includes; fold includes;
        by rewrite Hp.
    + rewrite append_cons. unfold includes; fold includes.
      rewrite IH. apply orb_true_r.
Qed.

Lemma includes_trans (s t u : string) :
  includes s t = true -> includes t u = true -> includes s u = true.
Proof.
  intros (p1 & q1 & ->)%includes_spec (p2 & q2 & ->)%includes_spec.
  apply includes_spec. exists (p1 +:+ p2), (q2 +:+ q1).
  by rewrite !append_assoc.
Qed.

Lemma filter_filter_implied {A} (p q : A -> bool) (l : list A) :
  (forall x, q x = true -> p x = true) ->
  List.filter q (List.filter p l) = List.filter q l.
Proof.
  intros Hqp. induction l as [|x l IH]; [done|]. simpl.
  destruct (p x) eqn:Hp; simpl.
  - by rewrite IH.
  - destruct (q x) eqn:Hq; [|done]. apply Hqp in Hq. congruence.
Qed.

Section QueryMore.
Context `{Platform}.
Import BookmarkAPI.

Lemma keyword_match_narrows term1 term2 v :
  includes term2 term1 = true ->
  keyword_match term2 v = true -> keyword_match term1 v = true.
Proof.
  intros Hsub. unfold keyword_match.
  assert (Hfield : forall s, includes s term2 = true -> includes s term1 = true).
  { intros s Hs. exact (includes_trans _ _ _ Hs Hsub). }
  intros Hm.
  apply orb_prop in Hm as [Hm|Hm].
  - apply orb_prop in Hm as [Hm|Hm].
    + apply orb_prop in Hm as [Hm|Hm].
      * apply orb_prop in Hm as [Hm|Hm]; apply Hfield in Hm; rewrite Hm;
          [reflexivity|]. by rewrite orb_true_r.
      * apply Hfield in Hm. rewrite Hm. by rewrite orb_true_r.
    + apply Hfield in Hm. rewrite Hm. by rewrite orb_true_r.
  - apply orb_true_iff. right.
    apply existsb_exists in Hm as (tag & Hin & Htag).
    apply existsb_exists. exists tag. split; [exact Hin|].
    by apply Hfield.
Qed.

(** X10. A longer search term narrows the result. When the term of a
    second keyword (lower-cased and trimmed) contains the term of a first
    one, the bookmarks the second search finds in a collection of bookmark
    records form a sub-collection of those the first finds, and searching
    the second keyword within the results of the first gives the same as
    searching it in the whole collection. *)
Theorem search_narrows this keyword1 keyword2 c :
  bookmarks_only c ->
  includes (trim (toLowerCase keyword2)) (trim (toLowerCase keyword1)) = true ->
  blank keyword2 = false ->
  exists r1 r2,
    searchBookmarks this keyword1 (VArray c) = Ok (VArray r1) /\
    searchBookmarks this keyword2 (VArray c) = Ok (VArray r2) /\
    r2 `sublist_of` r1 /\
    searchBookmarks this keyword2 (VArray r1) = Ok (VArray r2).
Proof.
  intros Hc Hsub Hblank.
  pose proof (apply_query_bookmarks this (ByKeyword keyword1) c Hc) as H1.
  pose proof (apply_query_bookmarks this (ByKeyword keyword2) c Hc) as H2.
  pose proof (apply_query_bookmarks this (ByKeyword keyword2) _
                (bookmarks_only_filter (query_match (ByKeyword keyword1)) c Hc))
    as H3.
  simpl apply_query in *.
  assert (Himp : forall v, query_match (ByKeyword keyword2) v = true ->
                           query_match (ByKeyword keyword1) v = true).
  { intros v. simpl. rewrite Hblank. simpl. intros Hm.
    apply orb_true_iff. right. by eapply keyword_match_narrows. }
  rewrite (filter_filter_implied _ _ c Himp) in H3.
  do 2 eexists. split; [exact H1|]. split; [exact H2|]. split; [|exact H3].
  rewrite <- (filter_filter_implied _ _ c Himp). apply List_filter_sublist.
Qed.
End QueryMore.

Section QuerySamples.
#[local] Existing Instance model_platform.
Import BookmarkAPI.

Lemma search_narrows_witness :
  bookmarks_only [github; mdn] /\
  includes (trim (toLowerCase "develop")) (trim (toLowerCase "dev ")) = true /\
  blank "develop" = false /\
  exists r1 r2,
    searchBookmarks constructor "dev " (VArray [github; mdn]) = Ok (VArray r1) /\
    searchBookmarks constructor "develop" (VArray [github; mdn])
    = Ok (VArray r2) /\
    r2 `sublist_of` r1 /\
    searchBookmarks constructor "develop" (VArray r1) = Ok (VArray r2).
Proof.
  assert (Hc : bookmarks_only [github; mdn]) by (by repeat constructor).
  split; [exact Hc|]. split; [reflexivity|]. split; [reflexivity|].
  exact (search_narrows constructor "dev " "develop" [github; mdn] Hc
           eq_refl eq_refl).
Defined.
End QuerySamples.

(** ** Loading from a file *)

Section FileLoaderMore.
Context `{Platform}.
Import BookmarkAPI.

(** X11. Loading from a file is all or nothing. When [getBookmarks]
    reports a failure, the instance keeps the bookmarks and folders it
    had; when it reports success, the file name ends in ".html" or ".json"
    in exactly this spelling, the instance holds the bookmarks and folders
    reported, and the total reported is the number of bookmarks. *)
Theorem getBookmarks_all_or_nothing this selection n this' outcome :
  FileLoader.getBookmarks this selection n = Some (this', outcome) ->
  match outcome with
  | Success bookmarks folders total =>
      this_bookmarks this' = bookmarks /\ this_folders this' = folders /\
      total = length bookmarks /\
      exists file,
        selection = FileLoader.Selected file /\
        (FileLoader.endsWith (FileLoader.file_name file) ".html" = true \/
         FileLoader.endsWith (FileLoader.file_name file) ".json" = true)
  | Failure _ => this' = this
  end.
Proof.
  unfold FileLoader.getBookmarks, FileLoader.getBookmarksFromFile.
  destruct selection as [| |file]; simpl; try (by intros [= <- <-]).
  unfold FileLoader.parse_file.
  destruct (FileLoader.endsWith (FileLoader.file_name file) ".html") eqn:Hhtml.
  - simpl. destruct (parseHTMLBookmarks _ n) as [[[tree bs] fs]|e]; simpl;
      intros [= <- <-]; [|done]. simpl. eauto 10.
  - destruct (FileLoader.endsWith (FileLoader.file_name file) ".json")
      eqn:Hjson; [|by intros [= <- <-]].
    destruct (parseJSONBookmarks _ n) as [[[bs fs]|e]|]; simpl;
      [| |done]; intros [= <- <-]; [|done]. simpl. eauto 10.
Qed.
End FileLoaderMore.

(** ** Storage *)

Section StorageMore.
Variable accepts : Storage.Store -> string -> JSONText -> bool.

(** X12. [Storage] is a store of JSON images. After a [set] that the
    browser accepted, [get] on the same key returns what [JSON.parse]
    makes of the stringified value: the value itself when it is one that
    JSON represents as it is, and the default when it is undefined; the
    other keys read as before. A [set] that the browser refused leaves
    the store as it was, and after [remove] the key reads as the
    default. *)
Theorem Storage_get_set key value defaultValue store :
  (accepts store key (Storage.text_of value) = true ->
   Storage.get key defaultValue (Storage.set accepts key value store)
   = match SerializeJSONProperty value with
     | Some j => InternalizeJSON j
     | None => defaultValue
     end /\
   (json_plain value = true ->
    Storage.get key defaultValue (Storage.set accepts key value store)
    = value)) /\
  (forall key' d,
      key' <> key ->
      Storage.get key' d (Storage.set accepts key value store)
      = Storage.get key' d store) /\
  (accepts store key (Storage.text_of value) = false ->
   Storage.set accepts key value store = store) /\
  Storage.get key defaultValue (Storage.remove key store) = defaultValue.
Proof.
  unfold Storage.get, Storage.set, Storage.remove.
  split; [|split; [|split]].
  - intros ->. cbv iota. rewrite lookup_insert_eq.
    assert (Himage :
              match JSON_parse (Storage.text_of value) with
              | Ok v => v
              | Throw _ => defaultValue
              end
              = match SerializeJSONProperty value with
                | Some j => InternalizeJSON j
                | None => defaultValue
                end).
    { unfold Storage.text_of, JSON_stringify.
      by destruct (SerializeJSONProperty value). }
    split; [exact Himage|]. intros Hplain. rewrite Himage.
    by destruct (json_plain_round_trip value Hplain) as (j & -> & ->).
  - intros key' d Hne.
    destruct (accepts store key _); [|done].
    by rewrite lookup_insert_ne.
  - by intros ->.
  - by rewrite lookup_delete_eq.
Qed.
End StorageMore.

(** ** The application *)





Section Application.
Context `{Platform}.
Import BookmarkAPI.





Lemma loadStoredData_bookmarkAPI store this this' :
  BookmarkManager.loadStoredData store this = Some (Ok this') ->
  BookmarkManager.bookmarkAPI this' = BookmarkManager.bookmarkAPI this.
Proof.
  unfold BookmarkManager.loadStoredData.
  destruct (Storage.get "bookmarks" _ store) as [| |b|n|s|d|l|ps];
    simpl; try (by intros [= <-]).
  - destruct (truthy_string s); [done|]. by intros [= <-].
  - destruct (0 <? length l)%nat; by intros [= <-].
  - destruct (own_property "length" ps) as [| |[]|n| | | |]; try done;
      try (by intros [= <-]).
    destruct (0 <? n)%Z; [done|]. by intros [= <-].
Qed.

(** X14. After a restart the export is empty. A manager that has loaded
    its bookmarks from the store, and shows at least one, exports the
    document of its API instance, which [loadStoredData] does not fill:
    the exported document holds no bookmark, no folder and the total 0. *)
Theorem export_after_restart_is_empty store this n :
  BookmarkManager.loadStoredData store BookmarkManager.constructor
  = Some (Ok this) ->
  BookmarkManager.currentBookmarks this <> [] ->
  BookmarkManager.exportBookmarks this n
  = Some (Ok (Some (JSONDoc
                      (JObject
                         [ ("version", JString "1.0");
                           ("exportDate", JString (ISO_string (clock n)));
                           ("bookmarks", JArray []);
                           ("folders", JArray []);
                           ("total", JNumber 0) ])))).
Proof.
  intros Hload Hne. unfold BookmarkManager.exportBookmarks.
  rewrite (loadStoredData_bookmarkAPI _ _ _ Hload). simpl.
  destruct (BookmarkManager.currentBookmarks this); [done|]. simpl.
  by rewrite exportBookmarks_text.
Qed.


End Application.

Section ApplicationSamples.
#[local] Existing Instance model_platform.
Import BookmarkAPI.

Lemma getBookmarks_all_or_nothing_witness :
  exists this' bookmarks folders total,
    FileLoader.getBookmarks constructor
      (FileLoader.Selected
         (FileLoader.mkFile "bookmarks.html" sample_document (NotJSON "<")))
      0
    = Some (this', Success bookmarks folders total) /\
    this_bookmarks this' = bookmarks /\ this_folders this' = folders /\
    total = length bookmarks /\
    exists file,
      FileLoader.Selected
        (FileLoader.mkFile "bookmarks.html" sample_document (NotJSON "<"))
      = FileLoader.Selected file /\
      (FileLoader.endsWith (FileLoader.file_name file) ".html" = true \/
       FileLoader.endsWith (FileLoader.file_name file) ".json" = true).
Proof.
  do 4 eexists. split; [vm_compute; reflexivity|].
  apply (getBookmarks_all_or_nothing constructor
           (FileLoader.Selected
              (FileLoader.mkFile "bookmarks.html" sample_document
                 (NotJSON "<")))
           0 _ (Success _ _ _)).
  vm_compute. reflexivity.
Defined.

Lemma Storage_get_set_witness :
  Storage.get "bookmarks" (VArray [])
    (Storage.set (fun _ _ _ => true) "bookmarks" (VArray [github; mdn]) ∅)
  = VArray [github; mdn].
Proof.
  apply (Storage_get_set (fun _ _ _ => true) "bookmarks"
           (VArray [github; mdn]) (VArray []) ∅); reflexivity.
Defined.


Lemma export_after_restart_witness :
  exists this,
    BookmarkManager.loadStoredData
      {[ "bookmarks" := JSONDoc (JArray [raw_bookmark]) ]}
      BookmarkManager.constructor
    = Some (Ok this) /\
    length (BookmarkManager.currentBookmarks this) = 1 /\
    BookmarkManager.exportBookmarks this 0
    = Some (Ok (Some (JSONDoc
                        (JObject
                           [ ("version", JString "1.0");
                             ("exportDate", JString (ISO_string (clock 0)));
                             ("bookmarks", JArray []);
                             ("folders", JArray []);
                             ("total", JNumber 0) ])))).
Proof.
  eexists. split; [vm_compute; reflexivity|]. split; [reflexivity|].
  apply (export_after_restart_is_empty
           {[ "bookmarks" := JSONDoc (JArray [raw_bookmark]) ]});
    [vm_compute; reflexivity|discriminate].
Defined.

End ApplicationSamples.

(** ** ArrayUtils *)

Section UniqueKeyMore.
Context {A K : Type} `{EqDecision K}.
Implicit Types (key : A -> K) (seen : list K) (arr : list A).

Lemma unique_filter_sublist key seen arr :
  ArrayUtils.unique_filter key seen arr `sublist_of` arr.
Proof.
  revert seen. induction arr as [|a arr IH]; intros seen; simpl; [done|].
  destruct (ArrayUtils.Set_has seen (key a)).
  - apply sublist_cons, IH.
  - apply sublist_skip, IH.
Qed.

Lemma unique_filter_keys key seen arr :
  key <$> ArrayUtils.unique_filter key seen arr
  = filter (fun k => k ∉ seen) (first_occurrences (key <$> arr)).
Proof.
  revert seen. induction arr as [|a arr IH]; intros seen; simpl; [done|].
  unfold ArrayUtils.Set_has, ArrayUtils.Set_add, ArrayUtils.Set_has.
  case_bool_decide as Ha.
  - rewrite filter_cons_False by (intros Hn; by apply Hn).
    rewrite IH, list_filter_filter. apply list_filter_iff.
    intros k. split; [|by intros [??]]. intros Hk. split; [done|].
    by intros ->.
  - rewrite filter_cons_True by done. rewrite fmap_cons. f_equal.
    rewrite IH, list_filter_filter. apply list_filter_iff.
    intros k. rewrite not_elem_of_app, list_elem_of_singleton. naive_solver.
Qed.

Lemma unique_filter_elem_of key seen arr x :
  x ∈ ArrayUtils.unique_filter key seen arr <->
  exists i, arr !! i = Some x /\ (key x ∉ seen) /\
            forall j y, j < i -> arr !! j = Some y -> key y <> key x.
Proof.
  revert seen. induction arr as [|a arr IH]; intros seen; simpl.
  { split; [by intros ?%elem_of_nil|by intros (i & ? & _)]. }
  unfold ArrayUtils.Set_has, ArrayUtils.Set_add, ArrayUtils.Set_has.
  case_bool_decide as Ha.
  - rewrite IH. split.
    + intros (i & Hi & Hx & Hfirst). exists (S i). split; [done|].
      split; [done|]. intros [|j] y Hj; simpl.
      * intros [= <-] Heq. apply Hx. by rewrite <- Heq.
      * apply Hfirst. lia.
    + intros ([|i] & Hi & Hx & Hfirst); simpl in Hi.
      * injection Hi as <-. done.
      * exists i. split; [done|]. split; [done|]. intros j y Hj Hy.
        apply (Hfirst (S j)); [lia|done].
  - rewrite elem_of_cons, IH. split.
    + intros [->|(i & Hi & Hx & Hfirst)].
      * exists 0. split; [done|]. split; [done|]. intros j y Hj. lia.
      * apply not_elem_of_app in Hx as [Hx Hne].
        rewrite list_elem_of_singleton in Hne.
        exists (S i). split; [done|]. split; [done|].
        intros [|j] y Hj; simpl.
        -- intros [= <-] Heq. by apply Hne.
        -- apply Hfirst. lia.
    + intros ([|i] & Hi & Hx & Hfirst); simpl in Hi.
      * injection Hi as <-. by left.
      * right. exists i. split; [done|]. split.
        -- apply not_elem_of_app. split; [done|].
           rewrite list_elem_of_singleton. intros Heq.
           by apply (Hfirst 0 a); [lia|done|].
        -- intros j y Hj Hy. apply (Hfirst (S j)); [lia|done].
Qed.

(** X16. [unique(arr, key)] keeps, for each value under the key, the
    first item that has it, in the order of the array: the result is a
    sub-list of the array, no two of its items agree on the key, its keys
    are the keys of the array in order of first occurrence, and an item is
    kept exactly when no item before it has the same key. *)
Theorem unique_key_keeps_first key arr :
  ArrayUtils.unique_key key arr `sublist_of` arr /\
  NoDup (key <$> ArrayUtils.unique_key key arr) /\
  key <$> ArrayUtils.unique_key key arr = first_occurrences (key <$> arr) /\
  (forall x,
      x ∈ ArrayUtils.unique_key key arr <->
      exists i, arr !! i = Some x /\
                forall j y, j < i -> arr !! j = Some y -> key y <> key x).
Proof.
  assert (Hkeys : key <$> ArrayUtils.unique_key key arr
                  = first_occurrences (key <$> arr)).
  { unfold ArrayUtils.unique_key. rewrite unique_filter_keys.
    induction (first_occurrences (key <$> arr)) as [|k l IH]; [done|].
    rewrite filter_cons_True by apply not_elem_of_nil. by rewrite IH. }
  split; [apply unique_filter_sublist|]. split; [|split; [done|]].
  - rewrite Hkeys. apply first_occurrences_NoDup.
  - intros x. unfold ArrayUtils.unique_key. rewrite unique_filter_elem_of.
    split.
    + intros (i & Hi & _ & Hfirst). eauto.
    + intros (i & Hi & Hfirst). exists i. split; [done|].
      split; [apply not_elem_of_nil|done].
Qed.
End UniqueKeyMore.

Section GroupByMore.
Context {A : Type}.
Implicit Types (key : A -> string) (arr : list A).

(** The group that an array has under a property name. *)
Lemma groupBy_snoc arr key x :
  ArrayUtils.groupBy (arr ++ [x]) key
  = let* groups := ArrayUtils.groupBy arr key in
    ArrayUtils.group_step key groups x.
Proof. unfold ArrayUtils.groupBy. by rewrite fold_left_app. Qed.

Lemma filter_key_snoc key arr x k :
  filter (fun y => key y = k) (arr ++ [x])
  = filter (fun y => key y = k) arr ++ (if decide (key x = k) then [x] else []).
Proof. by rewrite filter_app. Qed.

Lemma groupBy_groups arr key :
  Forall (fun x => key x ∉ Object_prototype) arr ->
  exists groups,
    ArrayUtils.groupBy arr key = Ok groups /\
    forall k, groups !! k
              = match filter (fun x => key x = k) arr with
                | [] => None
                | items => Some items
                end.
Proof.
  induction arr as [|x arr IH] using rev_ind; intros Hkeys.
  { exists ∅. split; [done|]. intros k. by rewrite lookup_empty. }
  apply Forall_app in Hkeys as [Harr Hx].
  apply (proj1 (Forall_singleton _ _)) in Hx.
  destruct (IH Harr) as (groups & Hg & Hlook).
  rewrite groupBy_snoc, Hg. simpl. unfold ArrayUtils.group_step.
  pose proof (Hlook (key x)) as Hkx.
  destruct (groups !! key x) as [items|] eqn:Hown.
  - eexists. split; [done|]. intros k. rewrite filter_key_snoc.
    destruct (decide (key x = k)) as [<-|Hne].
    + rewrite lookup_insert_eq.
      destruct (filter _ arr) as [|y l]; [done|]. by injection Hkx as ->.
    + rewrite lookup_insert_ne, app_nil_r by done. apply Hlook.
  - rewrite (bool_decide_eq_false_2 _ Hx).
    eexists. split; [done|]. intros k. rewrite filter_key_snoc.
    destruct (decide (key x = k)) as [<-|Hne].
    + rewrite lookup_insert_eq.
      by destruct (filter _ arr) as [|y l].
    + rewrite lookup_insert_ne, app_nil_r by done. apply Hlook.
Qed.

Lemma group_step_throws key groups x :
  (forall k, k ∈ Object_prototype -> groups !! k = None) ->
  match ArrayUtils.group_step key groups x with
  | Ok groups' => (key x ∉ Object_prototype) /\
                  forall k, k ∈ Object_prototype -> groups' !! k = None
  | Throw _ => key x ∈ Object_prototype
  end.
Proof.
  intros Hnone. unfold ArrayUtils.group_step.
  destruct (decide (key x ∈ Object_prototype)) as [Hin|Hout].
  - by rewrite (Hnone _ Hin), bool_decide_eq_true_2.
  - rewrite (bool_decide_eq_false_2 _ Hout).
    destruct (groups !! key x); (split; [done|]); intros k Hk;
      (rewrite lookup_insert_ne; [by apply Hnone|congruence]).
Qed.

Lemma groupBy_returns arr key groups :
  ArrayUtils.groupBy arr key = Ok groups ->
  Forall (fun x => key x ∉ Object_prototype) arr /\
  forall k, k ∈ Object_prototype -> groups !! k = None.
Proof.
  revert groups. induction arr as [|x arr IH] using rev_ind; intros groups.
  { intros [= <-]. split; [constructor|]. intros k _. apply lookup_empty. }
  rewrite groupBy_snoc.
  destruct (ArrayUtils.groupBy arr key) as [g|e]; simpl; [|done].
  destruct (IH g eq_refl) as [Harr Hnone]. intros Hstep.
  pose proof (group_step_throws key g x Hnone) as Hx. rewrite Hstep in Hx.
  destruct Hx as [Hx Hnone']. split; [|done].
  apply Forall_app. split; [done|]. by apply Forall_singleton.
Qed.

(** X17. [groupBy] files each item under its key, in the order of the
    array: it returns exactly when no key is a property name that every
    object inherits (constructor, toString, __proto__ and the like), in
    which case it throws a TypeError; and when it returns, the group under
    a name lists the items of the array with that key in their order,
    and there is no group for a name that no item has. *)
Theorem groupBy_partitions arr key :
  (returns (ArrayUtils.groupBy arr key)
   <-> Forall (fun x => key x ∉ Object_prototype) arr) /\
  (forall groups,
      ArrayUtils.groupBy arr key = Ok groups ->
      forall k, groups !! k
                = match filter (fun x => key x = k) arr with
                  | [] => None
                  | items => Some items
                  end).
Proof.
  split.
  - split.
    + intros [groups Hg]. by apply groupBy_returns in Hg as [? _].
    + intros Hkeys. destruct (groupBy_groups arr key Hkeys) as (g & -> & _).
      by eexists.
  - intros groups Hg.
    destruct (groupBy_returns _ _ _ Hg) as [Hkeys _].
    destruct (groupBy_groups arr key Hkeys) as (g & Hg' & Hlook).
    rewrite Hg in Hg'. by injection Hg' as ->.
Qed.
End GroupByMore.

Section SortByMore.
Context {A : Type}.
Implicit Types (key : A -> Z) (arr l : list A).

(** The order that [sortBy] establishes: ascending for the order 'asc',
    descending for every other order. *)
Lemma sort_insert_Permutation (compareFn : A -> A -> Z) x l :
  ArrayUtils.sort_insert compareFn x l ≡ₚ x :: l.
Proof.
  induction l as [|y l IH]; simpl; [done|].
  destruct (0 <? compareFn x y)%Z; [|done].
  rewrite IH. apply Permutation_swap.
Qed.

Lemma sort_insert_filter key order x l k :
  filter (fun y => key y = k)
    (ArrayUtils.sort_insert (ArrayUtils.compare_by key order) x l)
  = filter (fun y => key y = k) (x :: l).
Proof.
  induction l as [|y l IH]; simpl; [done|].
  destruct (0 <? ArrayUtils.compare_by key order x y)%Z eqn:Hcmp; [|done].
  assert (Hne : key x <> key y).
  { intros Heq. unfold ArrayUtils.compare_by in Hcmp. rewrite Heq in Hcmp.
    by rewrite Z.ltb_irrefl in Hcmp. }
  rewrite filter_cons, IH, !filter_cons.
  destruct (decide (key y = k)), (decide (key x = k)); congruence.
Qed.

Lemma sort_insert_sorted key order x l :
  StronglySorted (sorted_by key order) l ->
  StronglySorted (sorted_by key order)
    (ArrayUtils.sort_insert (ArrayUtils.compare_by key order) x l).
Proof.
  induction 1 as [|y l Hl IH Hy]; simpl.
  { repeat constructor. }
  destruct (0 <? ArrayUtils.compare_by key order x y)%Z eqn:Hcmp.
  - constructor; [done|].
    rewrite sort_insert_Permutation. constructor; [|done].
    revert Hcmp. unfold ArrayUtils.compare_by, sorted_by.
    destruct (String.eqb order "asc");
      destruct (key x <? key y)%Z eqn:H1, (key y <? key x)%Z eqn:H2;
      intros Hcmp; try done; lia.
  - assert (Hxy : sorted_by key order x y).
    { revert Hcmp. unfold ArrayUtils.compare_by, sorted_by.
      destruct (String.eqb order "asc");
        destruct (key x <? key y)%Z eqn:H1, (key y <? key x)%Z eqn:H2;
        intros Hcmp; try done; lia. }
    constructor; [by constructor|]. constructor; [done|].
    eapply Forall_impl; [exact Hy|]. intros z Hyz.
    revert Hxy Hyz. unfold sorted_by.
    destruct (String.eqb order "asc"); lia.
Qed.

(** X18. [sortBy] returns the items of the array, each as often as it
    occurs there, in ascending order of the key for the order 'asc' and in
    descending order for every other order string; items with the same
    key keep the order they have in the array, whichever the direction. *)
Theorem sortBy_sorted_stable arr key order :
  ArrayUtils.sortBy arr key order ≡ₚ arr /\
  StronglySorted (sorted_by key order) (ArrayUtils.sortBy arr key order) /\
  forall k, filter (fun x => key x = k) (ArrayUtils.sortBy arr key order)
            = filter (fun x => key x = k) arr.
Proof.
  unfold ArrayUtils.sortBy, ArrayUtils.Array_sort.
  induction arr as [|x arr (Hperm & Hsorted & Hstable)]; simpl.
  { split; [done|]. split; [constructor|done]. }
  split; [|split].
  - by rewrite sort_insert_Permutation, Hperm.
  - by apply sort_insert_sorted.
  - intros k. rewrite sort_insert_filter, !filter_cons, Hstable. done.
Qed.
End SortByMore.

(** ** Throttle and TimeUtils *)

Lemma applied_gaps delay times :
  forall lastCall i a b,
    (lastCall :: Throttle.applied delay lastCall times) !! i = Some a ->
    (lastCall :: Throttle.applied delay lastCall times) !! S i = Some b ->
    (delay <= b - a)%Z.
Proof.
  induction times as [|now times IH]; intros lastCall i a b; simpl.
  { by destruct i. }
  unfold Throttle.call. destruct (delay <=? now - lastCall)%Z eqn:Hrun.
  - destruct i as [|i]; simpl.
    + intros [= <-] [= <-]. lia.
    + apply (IH now i a b).
  - apply (IH lastCall i a b).
Qed.

Lemma applied_sublist delay times :
  forall lastCall, Throttle.applied delay lastCall times `sublist_of` times.
Proof.
  induction times as [|now times IH]; intros lastCall; simpl; [done|].
  unfold Throttle.call. destruct (delay <=? now - lastCall)%Z.
  - apply sublist_skip, IH.
  - apply sublist_cons, IH.
Qed.

Lemma applied_all delay times :
  forall lastCall,
    (forall i a b,
        (lastCall :: times) !! i = Some a ->
        (lastCall :: times) !! S i = Some b -> (delay <= b - a)%Z) ->
    Throttle.applied delay lastCall times = times.
Proof.
  induction times as [|now times IH]; intros lastCall Hgaps; simpl; [done|].
  unfold Throttle.call.
  rewrite (proj2 (Z.leb_le _ _) (Hgaps 0 lastCall now eq_refl eq_refl)).
  f_equal. apply IH. intros i a b Ha Hb. by apply (Hgaps (S i)).
Qed.

(** X19. A throttled function runs at most once per delay. Of the calls
    made at the given times, those that run form a sub-sequence; the first
    that runs comes at least [delay] after time 0 and each later one at
    least [delay] after the one that ran before it; and when every call
    comes at least [delay] after the call before it (the first after time
    0), all of them run. *)
Theorem throttle_spacing delay times :
  Throttle.throttle delay times `sublist_of` times /\
  (forall i a b,
      (0%Z :: Throttle.throttle delay times) !! i = Some a ->
      (0%Z :: Throttle.throttle delay times) !! S i = Some b ->
      (delay <= b - a)%Z) /\
  ((forall i a b,
       (0%Z :: times) !! i = Some a -> (0%Z :: times) !! S i = Some b ->
       (delay <= b - a)%Z) ->
   Throttle.throttle delay times = times).
Proof.
  split; [apply applied_sublist|]. split; [apply applied_gaps|].
  apply applied_all.
Qed.

Section TimeUtilsMore.
Context `{Platform}.

(** X20. [relative] names the largest unit that has passed: for a date
    less than a minute before now, or after now, or an Invalid Date, it is
    刚刚; from one minute on it counts whole minutes (1 to 59), from one
    hour on whole hours (1 to 23), from one day on whole days; the count is
    never 0. *)
Theorem relative_units t date :
  (date = None -> TimeUtils.relative t date = "刚刚") /\
  (forall target,
      date = Some target ->
      let diff := (clock t - target)%Z in
      ((diff < 60000)%Z -> TimeUtils.relative t date = "刚刚") /\
      ((60000 <= diff < 3600000)%Z ->
       TimeUtils.relative t date
       = TimeUtils.decimal (diff / 60000) +:+ "分钟前" /\
       (1 <= diff / 60000 <= 59)%Z) /\
      ((3600000 <= diff < 86400000)%Z ->
       TimeUtils.relative t date
       = TimeUtils.decimal (diff / 3600000) +:+ "小时前" /\
       (1 <= diff / 3600000 <= 23)%Z) /\
      ((86400000 <= diff)%Z ->
       TimeUtils.relative t date
       = TimeUtils.decimal (diff / 86400000) +:+ "天前" /\
       (1 <= diff / 86400000)%Z)).
Proof.
  unfold TimeUtils.relative. rewrite Date_now_valid. split.
  { by intros ->. }
  intros target ->. cbv zeta. set (diff := (clock t - target)%Z).
  assert (Hm : (diff / 1000 / 60 = diff / 60000)%Z)
    by (Z.div_mod_to_equations; lia).
  assert (Hh : (diff / 1000 / 60 / 60 = diff / 3600000)%Z)
    by (Z.div_mod_to_equations; lia).
  assert (Hd : (diff / 1000 / 60 / 60 / 24 = diff / 86400000)%Z)
    by (Z.div_mod_to_equations; lia).
  rewrite Hd, Hh, Hm. clear Hd Hh Hm.
  split; [|split; [|split]]; intros Hdiff.
  - assert (Hz : (diff / 86400000 <= 0 /\ diff / 3600000 <= 0
                  /\ diff / 60000 <= 0)%Z)
      by (Z.div_mod_to_equations; lia).
    destruct Hz as (Hd & Hh & Hm).
    by rewrite !(proj2 (Z.ltb_ge _ _)).
  - assert (Hz : (diff / 86400000 <= 0 /\ diff / 3600000 <= 0
                  /\ 1 <= diff / 60000 <= 59)%Z)
      by (Z.div_mod_to_equations; lia).
    destruct Hz as (Hd & Hh & Hm). split; [|done].
    rewrite !(proj2 (Z.ltb_ge _ _)) by done.
    by rewrite (proj2 (Z.ltb_lt _ _)) by lia.
  - assert (Hz : (diff / 86400000 <= 0 /\ 1 <= diff / 3600000 <= 23)%Z)
      by (Z.div_mod_to_equations; lia).
    destruct Hz as (Hd & Hh). split; [|done].
    rewrite !(proj2 (Z.ltb_ge _ _)) by done.
    by rewrite (proj2 (Z.ltb_lt _ _)) by lia.
  - assert (Hd : (1 <= diff / 86400000)%Z)
      by (Z.div_mod_to_equations; lia).
    split; [|done]. by rewrite (proj2 (Z.ltb_lt _ _)) by lia.
Qed.
End TimeUtilsMore.

(** ** The organizer *)

Section UniqueMore.
Context {A : Type} `{EqDecision A}.
Implicit Types l m : list A.

Lemma unique_app l m :
  ArrayUtils.unique (l ++ m)
  = ArrayUtils.unique l
    ++ filter (fun y => y ∉ ArrayUtils.unique l) (first_occurrences m).
Proof.
  unfold ArrayUtils.unique, ArrayUtils.new_Set.
  by rewrite fold_left_app, Set_add_fold.
Qed.

Lemma filter_other x l : x ∉ l -> filter (fun y => y <> x) l = l.
Proof.
  induction l as [|y l IH]; [done|].
  intros [Hne Hx]%not_elem_of_cons.
  rewrite filter_cons_True by done. f_equal. by apply IH.
Qed.

Lemma first_occurrences_NoDup_id l : NoDup l -> first_occurrences l = l.
Proof.
  induction 1 as [|x l Hx _ IH]; simpl; [done|].
  by rewrite IH, filter_other.
Qed.

Lemma unique_absorbs l m :
  ArrayUtils.unique (ArrayUtils.unique (l ++ m) ++ m)
  = ArrayUtils.unique (l ++ m).
Proof.
  rewrite (unique_app (ArrayUtils.unique (l ++ m)) m).
  rewrite !unique_first_occurrences.
  rewrite (first_occurrences_NoDup_id (first_occurrences (l ++ m)))
    by apply first_occurrences_NoDup.
  rewrite (filter_none (fun y => y ∉ first_occurrences (l ++ m))).
  - by rewrite app_nil_r.
  - apply Forall_forall. intros y Hy Hn. apply Hn.
    apply first_occurrences_elem_of, elem_of_app. right.
    by apply first_occurrences_elem_of.
Qed.
End UniqueMore.

Section Organizer.
Context `{Platform}.

Lemma push_if_app c label (l m : list string) :
  BookmarkAPI.push_if c label (l ++ m) = l ++ BookmarkAPI.push_if c label m.
Proof. destruct c; simpl; [by rewrite app_assoc|done]. Qed.

Lemma title_tags_app titleLower (l : list string) :
  AIOrganizeAPI.title_tags titleLower l
  = l ++ AIOrganizeAPI.title_tags titleLower [].
Proof.
  unfold AIOrganizeAPI.title_tags.
  rewrite <- (app_nil_r l) at 1. by rewrite !push_if_app.
Qed.

(** The labels that [optimizeTags] adds for a title and a domain with a
    suggestion list or none. *)
Lemma optimizeTags_added title url :
  StringUtils.extractDomain url ∉ Object_prototype ->
  exists added,
    forall tags,
      AIOrganizeAPI.optimizeTags title url tags
      = Ok (ArrayUtils.unique (tags ++ added)).
Proof.
  intros Hdomain. unfold AIOrganizeAPI.optimizeTags, AIOrganizeAPI.read.
  destruct (List.find _ AIOrganizeAPI.tagSuggestions) as [kv|].
  - exists (snd kv ++ AIOrganizeAPI.title_tags (toLowerCase title) []).
    intros tags. simpl. by rewrite title_tags_app, <- app_assoc.
  - rewrite (bool_decide_eq_false_2 _ Hdomain).
    exists (AIOrganizeAPI.title_tags (toLowerCase title) []).
    intros tags. simpl. by rewrite title_tags_app.
Qed.

(** X21. [optimizeTags] throws a TypeError when the domain of the url is
    a property name that every object inherits (the url [constructor],
    say); otherwise it returns tags without duplicates that begin with the
    existing tags in their order (first occurrences), and running it again
    on its result, for the same title and url, changes nothing. *)
Theorem optimizeTags_idempotent title url existingTags :
  (StringUtils.extractDomain url ∈ Object_prototype ->
   throws (AIOrganizeAPI.optimizeTags title url existingTags)) /\
  (StringUtils.extractDomain url ∉ Object_prototype ->
   exists tags,
     AIOrganizeAPI.optimizeTags title url existingTags = Ok tags /\
     NoDup tags /\
     ArrayUtils.unique existingTags `prefix_of` tags /\
     AIOrganizeAPI.optimizeTags title url tags = Ok tags).
Proof.
  split.
  - intros Hdomain. unfold AIOrganizeAPI.optimizeTags, AIOrganizeAPI.read.
    destruct (List.find _ AIOrganizeAPI.tagSuggestions) as [kv|] eqn:Hfind.
    + exfalso. apply find_some in Hfind as [Hin Hkey].
      apply String.eqb_eq in Hkey. rewrite <- Hkey in Hdomain.
      revert Hdomain. clear -Hin. apply list_elem_of_In in Hin.
      unfold AIOrganizeAPI.tagSuggestions in Hin.
      unfold Object_prototype. intros Hd.
      repeat (apply elem_of_cons in Hin as [->|Hin];
              [repeat (apply elem_of_cons in Hd as [Hd|Hd];
                       [discriminate Hd|]);
               by apply elem_of_nil in Hd|]).
      by apply elem_of_nil in Hin.
    + rewrite (bool_decide_eq_true_2 _ Hdomain). simpl. by eexists.
  - intros Hdomain.
    destruct (optimizeTags_added title url Hdomain)
      as [added Hadded].
    exists (ArrayUtils.unique (existingTags ++ added)).
    split; [apply Hadded|]. split; [apply unique_NoDup|]. split.
    + rewrite unique_app. by eexists.
    + by rewrite Hadded, unique_absorbs.
Qed.
End Organizer.

(** *** Titles *)

Lemma tidy_cons spaced c s :
  tidy spaced (c :: s)
  = if AIOrganizeAPI.is_space c
    then (c =? 32)%N && negb spaced && tidy true s
    else tidy false s.
Proof. done. Qed.

Lemma tidy_weaken s : tidy true s = true -> tidy false s = true.
Proof.
  destruct s as [|c s]; [done|]. simpl.
  destruct (AIOrganizeAPI.is_space c); [|done].
  by rewrite andb_false_r.
Qed.

Lemma tidy_starts_clean s : tidy true s = true -> starts_clean s = true.
Proof.
  destruct s as [|c s]; [done|]. simpl.
  destruct (AIOrganizeAPI.is_space c); [|done].
  by rewrite andb_false_r.
Qed.

Lemma replace_spaces_tidy s :
  forall in_run, tidy in_run (AIOrganizeAPI.replace_spaces in_run s) = true.
Proof.
  induction s as [|c s IH]; intros in_run; [done|]. simpl.
  destruct (AIOrganizeAPI.is_space c) eqn:Hc.
  - destruct in_run; [apply IH|]. simpl. by rewrite IH.
  - simpl. rewrite Hc. apply IH.
Qed.

Lemma tidy_replace_spaces s :
  forall spaced,
    tidy spaced s = true -> AIOrganizeAPI.replace_spaces spaced s = s.
Proof.
  induction s as [|c s IH]; intros spaced; [done|]. simpl.
  destruct (AIOrganizeAPI.is_space c).
  - intros [[Hc Hs]%andb_prop Ht]%andb_prop.
    apply N.eqb_eq in Hc. destruct spaced; [done|]. by rewrite IH, Hc.
  - intros Ht. by rewrite IH.
Qed.

Lemma drop_spaces_tidy s :
  tidy false s = true ->
  tidy false (AIOrganizeAPI.drop_spaces s) = true /\
  starts_clean (AIOrganizeAPI.drop_spaces s) = true.
Proof.
  destruct s as [|c s]; [done|]. simpl.
  destruct (AIOrganizeAPI.is_space c) eqn:Hc.
  - intros [_ Ht]%andb_prop.
    assert (Hclean : starts_clean s = true) by (by apply tidy_starts_clean).
    assert (Hdrop : AIOrganizeAPI.drop_spaces s = s).
    { destruct s as [|d s]; [done|]. simpl in *.
      by destruct (AIOrganizeAPI.is_space d). }
    rewrite Hdrop. split; [by apply tidy_weaken|done].
  - intros Ht. simpl. by rewrite Hc.
Qed.

Lemma starts_clean_drop_spaces s :
  starts_clean s = true -> AIOrganizeAPI.drop_spaces s = s.
Proof.
  destruct s as [|c s]; [done|]. simpl.
  by destruct (AIOrganizeAPI.is_space c).
Qed.

Lemma trim_end_tidy s :
  forall spaced,
    tidy spaced s = true -> tidy spaced (AIOrganizeAPI.trim_end s) = true.
Proof.
  induction s as [|c s IH]; intros spaced; [done|]. simpl.
  destruct (AIOrganizeAPI.is_space c) eqn:Hc.
  - intros [Hcs Ht]%andb_prop. specialize (IH true Ht).
    destruct (AIOrganizeAPI.trim_end s) as [|d r]; [done|].
    by rewrite tidy_cons, Hc, Hcs, IH.
  - intros Ht. specialize (IH false Ht).
    destruct (AIOrganizeAPI.trim_end s) as [|d r];
      by rewrite tidy_cons, Hc.
Qed.

Lemma trim_end_starts_clean s :
  starts_clean s = true -> starts_clean (AIOrganizeAPI.trim_end s) = true.
Proof.
  destruct s as [|c s]; [done|]. simpl. intros Hc.
  destruct (AIOrganizeAPI.trim_end s); [|done].
  destruct (AIOrganizeAPI.is_space c) eqn:Hspace; simpl; [done|].
  by rewrite Hspace.
Qed.

Lemma trim_end_idempotent s :
  AIOrganizeAPI.trim_end (AIOrganizeAPI.trim_end s) = AIOrganizeAPI.trim_end s.
Proof.
  induction s as [|c s IH]; [done|]. simpl.
  destruct (AIOrganizeAPI.trim_end s) as [|d r] eqn:Hr.
  - destruct (AIOrganizeAPI.is_space c) eqn:Hc; [done|]. simpl.
    by rewrite Hc.
  - simpl. simpl in IH. by rewrite IH.
Qed.

Lemma trim_end_snoc s c :
  AIOrganizeAPI.is_space c = false ->
  AIOrganizeAPI.trim_end (s ++ [c]) = s ++ [c].
Proof.
  intros Hc. induction s as [|d s IH]; simpl; [by rewrite Hc|].
  rewrite IH. by destruct s.
Qed.

Lemma tidy_take n s :
  forall spaced, tidy spaced s = true -> tidy spaced (take n s) = true.
Proof.
  revert s. induction n as [|n IH]; intros s spaced; [done|].
  destruct s as [|c s]; [done|]. simpl.
  destruct (AIOrganizeAPI.is_space c).
  - intros [Hcs Ht]%andb_prop. by rewrite Hcs, IH.
  - apply IH.
Qed.

Lemma tidy_dots s :
  forall spaced,
    tidy spaced s = true -> tidy spaced (s ++ [46; 46; 46]%N) = true.
Proof.
  induction s as [|c s IH]; intros spaced; [done|]. simpl.
  destruct (AIOrganizeAPI.is_space c).
  - intros [Hcs Ht]%andb_prop. by rewrite Hcs, IH.
  - apply IH.
Qed.

Lemma line_terminator_space c :
  AIOrganizeAPI.is_line_terminator c = true ->
  AIOrganizeAPI.is_space c = true /\ c <> 32%N.
Proof.
  unfold AIOrganizeAPI.is_line_terminator. intros Hc.
  apply bool_decide_eq_true_1 in Hc.
  repeat (apply elem_of_cons in Hc as [->|Hc]; [done|]).
  by apply elem_of_nil in Hc.
Qed.

Lemma tidy_no_line_terminator s :
  forall spaced,
    tidy spaced s = true ->
    forallb (fun c => negb (AIOrganizeAPI.is_line_terminator c)) s = true.
Proof.
  induction s as [|c s IH]; intros spaced; [done|]. simpl.
  destruct (AIOrganizeAPI.is_line_terminator c) eqn:Hlt.
  - destruct (line_terminator_space c Hlt) as [-> Hne].
    intros [[Hc _]%andb_prop _]%andb_prop. by apply N.eqb_eq in Hc.
  - simpl. destruct (AIOrganizeAPI.is_space c).
    + intros [_ Ht]%andb_prop. by apply (IH true).
    + apply IH.
Qed.

Lemma drop_line_none s :
  forallb (fun c => negb (AIOrganizeAPI.is_line_terminator c)) s = true ->
  AIOrganizeAPI.drop_line s = [].
Proof.
  induction s as [|c s IH]; [done|]. simpl.
  destruct (AIOrganizeAPI.is_line_terminator c); [done|]. apply IH.
Qed.

Lemma cut_tidy s :
  tidy false s = true ->
  AIOrganizeAPI.cut s
  = if (50 <=? length s)%nat then take 50 s ++ [46; 46; 46]%N else s.
Proof.
  intros Ht. unfold AIOrganizeAPI.cut.
  destruct (50 <=? length s)%nat; [|done]. simpl.
  rewrite (tidy_no_line_terminator (take 50 s) false) by (by apply tidy_take).
  rewrite drop_line_none; [done|].
  pose proof (tidy_no_line_terminator s false Ht) as Hs.
  rewrite <- (take_drop 50 s), forallb_app in Hs.
  by apply andb_prop in Hs as [_ ?].
Qed.

(** A title that the three steps of [optimizeTitle] leave as it is. *)
Lemma optimizeTitle_fixed s :
  tidy false s = true -> starts_clean s = true ->
  AIOrganizeAPI.trim_end s = s ->
  AIOrganizeAPI.cut s = s ->
  AIOrganizeAPI.optimizeTitle s = s.
Proof.
  intros Ht Hc He Hcut. unfold AIOrganizeAPI.optimizeTitle.
  rewrite tidy_replace_spaces by done. unfold AIOrganizeAPI.trim_units.
  by rewrite starts_clean_drop_spaces, He.
Qed.

Lemma optimizeTitle_shape s :
  let u := AIOrganizeAPI.trim_units (AIOrganizeAPI.replace_spaces false s) in
  tidy false u = true /\ starts_clean u = true /\
  AIOrganizeAPI.trim_end u = u /\
  AIOrganizeAPI.optimizeTitle s
  = if (50 <=? length u)%nat then take 50 u ++ [46; 46; 46]%N else u.
Proof.
  intros u.
  destruct (drop_spaces_tidy _ (replace_spaces_tidy s false)) as [Ht Hc].
  assert (Htu : tidy false u = true) by (by apply trim_end_tidy).
  split; [done|]. split; [by apply trim_end_starts_clean|].
  split; [apply trim_end_idempotent|].
  unfold AIOrganizeAPI.optimizeTitle. fold u. by apply cut_tidy.
Qed.

Lemma starts_clean_take_dots n s :
  0 < n -> s <> [] -> starts_clean s = true ->
  starts_clean (take n s ++ [46; 46; 46]%N) = true.
Proof. destruct n; [lia|]. by destruct s. Qed.

(** X22. [optimizeTitle] is idempotent, and its result is clean and
    short: a second run changes nothing; the result holds at most 53 code
    units; replacing white space in it again or trimming it again leaves
    it as it is, so its white space consists of single spaces between
    other characters. A title of exactly 50 code units or more, once
    cleaned, ends in three dots, also when nothing was cut off. *)
Theorem optimizeTitle_idempotent title :
  AIOrganizeAPI.optimizeTitle (AIOrganizeAPI.optimizeTitle title)
  = AIOrganizeAPI.optimizeTitle title /\
  length (AIOrganizeAPI.optimizeTitle title) <= 53 /\
  AIOrganizeAPI.replace_spaces false (AIOrganizeAPI.optimizeTitle title)
  = AIOrganizeAPI.optimizeTitle title /\
  AIOrganizeAPI.trim_units (AIOrganizeAPI.optimizeTitle title)
  = AIOrganizeAPI.optimizeTitle title /\
  (50 <= length (AIOrganizeAPI.trim_units
                   (AIOrganizeAPI.replace_spaces false title)) ->
   AIOrganizeAPI.optimizeTitle title
   = take 50 (AIOrganizeAPI.trim_units
                (AIOrganizeAPI.replace_spaces false title))
     ++ [46; 46; 46]%N).
Proof.
  destruct (optimizeTitle_shape title) as (Ht & Hc & He & Hshape).
  set (u := AIOrganizeAPI.trim_units
              (AIOrganizeAPI.replace_spaces false title)) in *.
  assert (Hfixed :
            tidy false (AIOrganizeAPI.optimizeTitle title) = true /\
            starts_clean (AIOrganizeAPI.optimizeTitle title) = true /\
            AIOrganizeAPI.trim_end (AIOrganizeAPI.optimizeTitle title)
            = AIOrganizeAPI.optimizeTitle title /\
            AIOrganizeAPI.cut (AIOrganizeAPI.optimizeTitle title)
            = AIOrganizeAPI.optimizeTitle title /\
            length (AIOrganizeAPI.optimizeTitle title) <= 53).
  { rewrite Hshape. destruct (50 <=? length u)%nat eqn:Hlen.
    - apply Nat.leb_le in Hlen.
      assert (Hlt : length (take 50 u) = 50) by (rewrite length_take; lia).
      assert (Htt : tidy false (take 50 u ++ [46; 46; 46]%N) = true)
        by (by apply tidy_dots, tidy_take).
      split; [done|]. split.
      { apply starts_clean_take_dots; [lia| |done]. by destruct u. }
      split.
      { change (take 50 u ++ [46; 46; 46]%N)
          with (take 50 u ++ [46; 46]%N ++ [46%N]).
        rewrite app_assoc. by apply trim_end_snoc. }
      split.
      + rewrite cut_tidy by done.
        rewrite length_app, Hlt. simpl.
        by rewrite take_app_length' by done.
      + rewrite length_app, Hlt. simpl. lia.
    - apply Nat.leb_gt in Hlen. split; [done|]. split; [done|].
      split; [done|]. split; [|lia].
      rewrite cut_tidy by done.
      by rewrite (proj2 (Nat.leb_gt _ _)) by lia. }
  destruct Hfixed as (Ht' & Hc' & He' & Hcut' & Hlen').
  split; [by apply optimizeTitle_fixed|]. split; [done|].
  split; [by apply tidy_replace_spaces|]. split.
  - unfold AIOrganizeAPI.trim_units.
    by rewrite starts_clean_drop_spaces, He'.
  - intros Hlong. rewrite Hshape.
    by rewrite (proj2 (Nat.leb_le _ _)) by done.
Qed.

Section UtilitySamples.
#[local] Existing Instance model_platform.

Lemma groupBy_partitions_witness :
  exists groups,
    ArrayUtils.groupBy [github; mdn; github]
      (fun b => string_of (field b "folder"))
    = Ok groups /\
    groups !! "开发工具" = Some [github; github] /\
    groups !! "文档" = Some [mdn] /\
    groups !! "视频" = None.
Proof.
  destruct (proj2 (proj1 (groupBy_partitions [github; mdn; github]
                            (fun b => string_of (field b "folder")))))
    as [groups Hgroups].
  { repeat constructor; vm_compute; intros Hin;
      repeat (apply elem_of_cons in Hin as [Hin|Hin]; [discriminate Hin|]);
      by apply elem_of_nil in Hin. }
  exists groups. split; [exact Hgroups|].
  pose proof (proj2 (groupBy_partitions [github; mdn; github]
                       (fun b => string_of (field b "folder")))
                groups Hgroups) as Hlook.
  split; [|split]; rewrite Hlook; reflexivity.
Defined.

Lemma throttle_spacing_witness :
  Throttle.throttle 300 [1000; 1100; 1300; 1350; 1700]%Z
  = [1000; 1300; 1700]%Z /\
  Throttle.throttle 300 [1000; 1300; 1700]%Z = [1000; 1300; 1700]%Z.
Proof.
  split; [reflexivity|].
  apply (proj2 (proj2 (throttle_spacing 300 [1000; 1300; 1700]%Z))).
  intros [|[|[|[|i]]]] a b; simpl; intros Ha Hb;
    try discriminate Hb; injection Ha as <-; injection Hb as <-; lia.
Defined.

Lemma relative_units_witness :
  TimeUtils.relative 0 (Some (clock 0 - 7200000)%Z) = "2小时前" /\
  TimeUtils.relative 0 (Some (clock 0 + 5000)%Z) = "刚刚".
Proof.
  destruct (proj2 (relative_units 0 (Some (clock 0 - 7200000)%Z))
              (clock 0 - 7200000)%Z eq_refl) as (_ & _ & Hhours & _).
  destruct (proj2 (relative_units 0 (Some (clock 0 + 5000)%Z))
              (clock 0 + 5000)%Z eq_refl) as (Hnow & _).
  split.
  - etrans; [apply Hhours; vm_compute; split; [discriminate|reflexivity]|].
    vm_compute. reflexivity.
  - apply Hnow. vm_compute. reflexivity.
Defined.

Lemma optimizeTags_idempotent_witness :
  AIOrganizeAPI.optimizeTags "GitHub API guide" "https://github.com/x"
    ["代码"; "API"]
  = Ok ["代码"; "API"; "开源"; "Git"; "指南"] /\
  AIOrganizeAPI.optimizeTags "GitHub API guide" "https://github.com/x"
    ["代码"; "API"; "开源"; "Git"; "指南"]
  = Ok ["代码"; "API"; "开源"; "Git"; "指南"] /\
  throws (AIOrganizeAPI.optimizeTags "x" "constructor" []).
Proof.
  destruct (optimizeTags_idempotent "GitHub API guide" "https://github.com/x"
              ["代码"; "API"]) as [_ Hreturns].
  destruct (optimizeTags_idempotent "x" "constructor" []) as [Hthrows _].
  destruct Hreturns as (tags & Htags & _ & _ & Hagain).
  { vm_compute. intros Hin.
    repeat (apply elem_of_cons in Hin as [Hin|Hin]; [discriminate Hin|]).
    by apply elem_of_nil in Hin. }
  assert (Heq : tags = ["代码"; "API"; "开源"; "Git"; "指南"]).
  { assert (Hrun : AIOrganizeAPI.optimizeTags "GitHub API guide"
                     "https://github.com/x" ["代码"; "API"]
                   = Ok ["代码"; "API"; "开源"; "Git"; "指南"])
      by (vm_compute; reflexivity).
    rewrite Hrun in Htags. by injection Htags as <-. }
  subst tags. split; [exact Htags|]. split; [exact Hagain|].
  apply Hthrows. vm_compute. apply list_elem_of_here.
Defined.
End UtilitySamples.

(** ** Parsed models and the queries *)

Section ParsedModels.
Context `{Platform}.
Import BookmarkAPI.

Lemma bookmarks_only_Bookmark_value bs :
  bookmarks_only (Bookmark_value <$> bs).
Proof.
  apply Forall_forall. intros v (b & -> & _)%list_elem_of_fmap.
  apply Bookmark_value_is_bookmark.
Qed.

Lemma apply_query_default this q :
  apply_query this q VNull = apply_query this q (VArray (this_bookmarks this)).
Proof. by destruct q. Qed.

(** X23. A model that a parser built answers every query. After
    [getChromeBookmarks], and after loading a file whose name ends in
    ".html", every bookmark of the instance is a bookmark record, so
    [searchBookmarks], [filterByFolder] and [filterByTag] on the
    instance return for every argument and never throw; an imported model
    gives no such guarantee. *)
Theorem parsed_models_answer_queries this :
  (exists nodes n, getChromeBookmarks nodes n = Ok this) \/
  (exists this0 file n,
      FileLoader.endsWith (FileLoader.file_name file) ".html" = true /\
      FileLoader.getBookmarksFromFile this0 (FileLoader.Selected file) n
      = Some (Ok this)) ->
  bookmarks_only (this_bookmarks this) /\
  forall q, returns (apply_query this q VNull).
Proof.
  intros Hparsed.
  assert (Hrecords : bookmarks_only (this_bookmarks this)).
  { destruct Hparsed as [(nodes & n & Hget)|(this0 & file & n & Hname & Hget)].
    - unfold getChromeBookmarks in Hget.
      destruct (parseBookmarkTree n nodes) as [[bs fs]|e]; simpl in Hget;
        [|done].
      injection Hget as <-. apply bookmarks_only_Bookmark_value.
    - unfold FileLoader.getBookmarksFromFile, FileLoader.parse_file in Hget.
      rewrite Hname in Hget. simpl in Hget.
      destruct (parseHTMLBookmarks _ n) as [[[tree bs] fs]|e];
        simpl in Hget; [|done].
      injection Hget as <-. apply bookmarks_only_Bookmark_value. }
  split; [done|]. intros q.
  rewrite apply_query_default, apply_query_bookmarks by done.
  apply returns_Ok.
Qed.

Lemma parseBookmarkTree_titled t nodes :
  if forallb titled_leaves nodes
  then returns (parseBookmarkTree t nodes)
  else parseBookmarkTree t nodes = Throw NO_TITLE.
Proof.
  unfold parseBookmarkTree.
  pose proof (traverse_titled nodes ""
                {| bookmarks := []; folders := []; folderMap := [];
                   tick := t |}) as Ht.
  destruct (forallb titled_leaves nodes).
  - destruct Ht as [st ->]. by eexists.
  - by rewrite Ht.
Qed.

Lemma defined_prefix_all roots :
  snd (defined_prefix roots) = true ->
  Forall is_Some roots /\ fst (defined_prefix roots) = omap id roots.
Proof.
  induction roots as [|[n|] roots IH]; simpl; [done| |done].
  destruct (defined_prefix roots) as [ns all]. simpl in *.
  intros Hall. destruct (IH Hall) as [Hroots ->].
  split; [|done]. constructor; [by eexists|done].
Qed.

Lemma defined_prefix_missing roots :
  snd (defined_prefix roots) = false -> ~ Forall is_Some roots.
Proof.
  induction roots as [|[n|] roots IH]; simpl; [done| |].
  - destruct (defined_prefix roots) as [ns all]. simpl in *.
    intros Hall [_ Hroots]%Forall_cons. by apply IH.
  - intros _ [[? ?] _]%Forall_cons. done.
Qed.

(** X24. In the roots format of a JSON file the three roots are parsed
    as one list, and the parse returns exactly when each of
    [bookmark_bar], [other] and [synced] is present and every leaf with a
    non-empty url in them has a title property; a missing root makes the
    parse throw, also when the roots before it were parsed. *)
Theorem parseBookmarkTree_roots_returns t roots :
  returns (parseBookmarkTree_roots t roots) <->
  Forall is_Some roots /\ forallb titled_leaves (omap id roots) = true.
Proof.
  unfold parseBookmarkTree_roots.
  destruct (defined_prefix roots) as [nodes all] eqn:Hprefix.
  pose proof (parseBookmarkTree_titled t nodes) as Hnodes.
  destruct all.
  - destruct (defined_prefix_all roots) as [Hroots Heq];
      [by rewrite Hprefix|].
    rewrite Hprefix in Heq. simpl in Heq. subst nodes.
    destruct (forallb titled_leaves (omap id roots)).
    + destruct Hnodes as [parsed ->]. simpl.
      split; [done|]. intros _. by eexists.
    + rewrite Hnodes. simpl. split; [by intros [? ?]|by intros [_ ?]].
  - assert (Hmissing : ~ Forall is_Some roots)
      by (apply defined_prefix_missing; by rewrite Hprefix).
    split; [|by intros [? _]].
    destruct (parseBookmarkTree t nodes); simpl; by intros [? ?].
Qed.
End ParsedModels.

(** ** The tag of a card and the keyword search *)











Section TagClick.
Context `{Platform}.
Import BookmarkAPI.


End TagClick.

Section QueriesSamples.
#[local] Existing Instance model_platform.
Import BookmarkAPI.

Lemma parsed_models_witness :
  exists this,
    getChromeBookmarks docs_tree 0 = Ok this /\
    bookmarks_only (this_bookmarks this) /\
    forall q, returns (apply_query this q VNull).
Proof.
  eexists. split; [vm_compute; reflexivity|].
  apply parsed_models_answer_queries. left.
  exists docs_tree, 0. vm_compute. reflexivity.
Defined.

End QueriesSamples.

Lemma optimizeTitle_idempotent_witness :
  50 <= length (AIOrganizeAPI.trim_units
                  (AIOrganizeAPI.replace_spaces false
                     (replicate 50 97%N ++ [32; 32; 9]%N))) /\
  AIOrganizeAPI.optimizeTitle (replicate 50 97%N ++ [32; 32; 9]%N)
  = replicate 50 97%N ++ [46; 46; 46]%N.
Proof.
  assert (Hlong : 50 <= length (AIOrganizeAPI.trim_units
                                  (AIOrganizeAPI.replace_spaces false
                                     (replicate 50 97%N ++ [32; 32; 9]%N))))
    by (vm_compute; lia).
  split; [exact Hlong|].
  etrans; [exact (proj2 (proj2 (proj2 (proj2
                    (optimizeTitle_idempotent
                       (replicate 50 97%N ++ [32; 32; 9]%N))))) Hlong)|].
  vm_compute. reflexivity.
Defined.
